(** * The FHIR type-definition generator (packages/generator/src/index.ts)

    A shallow embedding of the generator and the properties its design
    document states about it.

    Modelling conventions.
    - JavaScript strings are [string]s of bytes; the case conversions act on
      ASCII letters (FHIR type names, codes and paths are ASCII).
    - An optional field [f?: string] is an [option string]; JavaScript's
      truthiness test on it is [truthy] (absent and empty are both falsy).
    - A call that throws ends in [Raise]; recursion the source does not
      bound (value sets that include each other, nested types) is driven by
      a fuel counter and ends in [Fuel] when the counter runs out.
    - [Map] and the name-indexed lookup object are [gmap]s, [Set] is a
      [gset]; an object whose key order is observed is an association list
      in insertion order.
    - The [FhirType] objects are shared and mutated through several
      references, so they live in a store (the [fhirTypes] array itself) and
      are referred to by their index in it. *)

From Stdlib Require Import ZArith Ascii String List Lia.
From stdpp Require Import base option list gmap strings sorting.

Set Warnings "-register-all,-clear-no-such-hyp".

(** ** Outcomes of a call *)

Inductive outcome (A : Type) : Type :=
  | Done (a : A)
  | Raise (what : string)
  | Fuel.
Arguments Done {A} a.
Arguments Raise {A} what.
Arguments Fuel {A}.

#[global] Instance outcome_ret : MRet outcome := fun _ a => Done a.
#[global] Instance outcome_bind : MBind outcome := fun _ _ f m =>
  match m with
  | Done a => f a
  | Raise e => Raise e
  | Fuel => Fuel
  end.

Definition TypeError : string := "TypeError".

(** Monadic left fold: the body of a [for ... of] loop that can throw. *)
Fixpoint foldM {A B : Type} (f : B -> A -> outcome B) (b : B) (l : list A)
  : outcome B :=
  match l with
  | [] => Done b
  | x :: l' => b' ← f b x; foldM f b' l'
  end.

(** ** JavaScript string operations *)

Module Js.

Definition truthy (o : option string) : bool :=
  match o with
  | Some s => negb (String.eqb s "")
  | None => false
  end.

(** [s.startsWith(p)] *)
Definition startsWith (s p : string) : bool := String.prefix p s.

(** [s.endsWith(p)]: some suffix of [s] is [p]. *)
Fixpoint endsWith (s p : string) : bool :=
  String.eqb s p ||
  match s with
  | EmptyString => false
  | String _ s' => endsWith s' p
  end.

(** [s.includes(p)]: some suffix of [s] starts with [p]. *)
Fixpoint includes (s p : string) : bool :=
  String.prefix p s ||
  match s with
  | EmptyString => false
  | String _ s' => includes s' p
  end.

(** [s.indexOf(p)], -1 when [p] does not occur. *)
Fixpoint indexOf_from (i : Z) (s p : string) : Z :=
  if String.prefix p s then i
  else match s with
       | EmptyString => (-1)%Z
       | String _ s' => indexOf_from (i + 1)%Z s' p
       end.
Definition indexOf (s p : string) : Z := indexOf_from 0%Z s p.

Fixpoint drop (n : nat) (s : string) : string :=
  match n, s with
  | O, _ => s
  | S n', String _ s' => drop n' s'
  | S _, EmptyString => EmptyString
  end.

Fixpoint take (n : nat) (s : string) : string :=
  match n, s with
  | S n', String c s' => String c (take n' s')
  | _, _ => EmptyString
  end.

(** [s.substring(start, end)]: both bounds are clamped to the string and
    swapped when out of order. *)
Definition substring (s : string) (start end_ : Z) : string :=
  let len := Z.of_nat (String.length s) in
  let clamp z := Z.max 0 (Z.min z len) in
  let a := clamp start in
  let b := clamp end_ in
  let lo := Z.min a b in
  let hi := Z.max a b in
  take (Z.to_nat (hi - lo)) (drop (Z.to_nat lo) s).

(** [s.charAt(0)]: the empty string when [s] is empty. *)
Definition charAt0 (s : string) : string :=
  match s with
  | EmptyString => EmptyString
  | String c _ => String c EmptyString
  end.

Definition is_upper (c : ascii) : bool :=
  let n := nat_of_ascii c in (65 <=? n)%nat && (n <=? 90)%nat.
Definition is_lower (c : ascii) : bool :=
  let n := nat_of_ascii c in (97 <=? n)%nat && (n <=? 122)%nat.

Definition lower_ascii (c : ascii) : ascii :=
  if is_upper c then ascii_of_nat (nat_of_ascii c + 32) else c.
Definition upper_ascii (c : ascii) : ascii :=
  if is_lower c then ascii_of_nat (nat_of_ascii c - 32) else c.

Fixpoint toLowerCase (s : string) : string :=
  match s with
  | EmptyString => EmptyString
  | String c s' => String (lower_ascii c) (toLowerCase s')
  end.

(** [s.split(sep)] for a non-empty separator. [skip] counts the
    characters of a separator that was just matched and are still to be
    passed over; [acc] is the piece being read. *)
Fixpoint split_aux (sep : string) (skip : nat) (acc : string) (s : string)
  : list string :=
  match s with
  | EmptyString => [acc]
  | String c s' =>
      match skip with
      | S k => split_aux sep k acc s'
      | O =>
          if String.prefix sep s
          then acc :: split_aux sep (String.length sep - 1) EmptyString s'
          else split_aux sep 0 (acc +:+ String c EmptyString) s'
      end
  end.
Definition split (s sep : string) : list string :=
  split_aux sep 0 EmptyString s.

(** [a.join(sep)] *)
Definition join (l : list string) (sep : string) : string :=
  String.concat sep l.

(** [s.replace(pat, rep)] with a string pattern: the first occurrence
    only. *)
Fixpoint replace (s pat rep : string) : string :=
  if String.prefix pat s then rep +:+ drop (String.length pat) s
  else match s with
       | EmptyString => EmptyString
       | String c s' => String c (replace s' pat rep)
       end.

(** [s.replace(/pat/g, rep)] for a literal pattern: every occurrence. *)
Fixpoint replaceAll_aux (pat rep : string) (skip : nat) (s : string)
  : string :=
  match s with
  | EmptyString => EmptyString
  | String c s' =>
      match skip with
      | S k => replaceAll_aux pat rep k s'
      | O =>
          if String.prefix pat s
          then rep +:+ replaceAll_aux pat rep (String.length pat - 1) s'
          else String c (replaceAll_aux pat rep 0 s')
      end
  end.
Definition replaceAll (s pat rep : string) : string :=
  replaceAll_aux pat rep 0 s.

Definition is_space (c : ascii) : bool :=
  let n := nat_of_ascii c in
  ((9 <=? n)%nat && (n <=? 13)%nat) || (n =? 32)%nat.

Fixpoint trimStart (s : string) : string :=
  match s with
  | String c s' => if is_space c then trimStart s' else s
  | EmptyString => EmptyString
  end.

(** The string without its trailing white space. *)
Fixpoint trimEnd (s : string) : string :=
  match s with
  | EmptyString => EmptyString
  | String c s' =>
      match trimEnd s' with
      | EmptyString => if is_space c then EmptyString else String c EmptyString
      | t => String c t
      end
  end.

(** [s.trim()] *)
Definition trim (s : string) : string := trimEnd (trimStart s).

(** [a.pop()] on the result of a [split], which is never empty. *)
Definition pop (l : list string) : string := List.last l EmptyString.

(** [a[0]] on the result of a [split]. *)
Definition first (l : list string) : string := List.hd EmptyString l.

End Js.

(** Modelled from the spec: [capitalize] is imported from [@medplum/core],
    whose source is not part of this package; the design document describes
    it as the word "with its first letter capitalized". *)
Definition capitalize (word : string) : string :=
  match word with
  | EmptyString => EmptyString
  | String c rest => String (Js.upper_ascii c) rest
  end.

(** [isLowerCase(c)]: [c === c.toLowerCase()]. *)
Definition isLowerCase (c : string) : bool := String.eqb c (Js.toLowerCase c).

(** ** Schema and terminology data

    The fields of the [@medplum/fhirtypes] and [@medplum/core] records that
    the generator reads. *)

(** [code] is optional in the declared type and read through a cast to
    [string]; FHIR requires it. *)
Record ElementDefinitionType := {
  edt_code : string;
  edt_targetProfile : option (list string)
}.

Record ElementDefinitionBinding := {
  edb_strength : option string;
  edb_valueSet : option string
}.

Record ElementDefinition := {
  ed_definition : option string;
  ed_contentReference : option string;
  ed_max : option string;
  ed_type : option (list ElementDefinitionType);
  ed_binding : option ElementDefinitionBinding
}.

Record TypeSchema := {
  ts_description : option string;
  ts_parentType : option string;
  ts_properties : option (list (string * ElementDefinition))
}.

Inductive CodeSystemConcept :=
  | Concept (code : option string) (concept : option (list CodeSystemConcept)).

Record ValueSetComposeIncludeConcept := { vsc_code : option string }.

Record ValueSetComposeInclude := {
  vsi_system : option string;
  vsi_concept : option (list ValueSetComposeIncludeConcept)
}.

Record ValueSetCompose := { vs_include : option (list ValueSetComposeInclude) }.

(** A resource of the value-set bundle, by its [resourceType]. *)
Inductive BundleResource :=
  | CodeSystem (url : option string) (concept : option (list CodeSystemConcept))
  | ValueSet (url : option string) (compose : option ValueSetCompose)
  | OtherResource (resourceType : string).

(** ** The generator's own records *)

Record Property := {
  p_resourceType : string;
  p_name : string;
  p_definition : ElementDefinition
}.

(** [subTypes] holds references to other [FhirType] objects: indices into
    the [fhirTypes] array. *)
Record FhirType := {
  ft_definition : TypeSchema;
  ft_inputName : string;
  ft_parentType : option string;
  ft_outputName : string;
  ft_properties : list Property;
  ft_subTypes : list nat;
  ft_resource : bool;
  ft_domainResource : bool
}.

Record TypeScriptProperty := { name : string; typeName : string }.

Definition baseResourceProperties : list string :=
  ["id"; "meta"; "implicitRules"; "language"].
Definition domainResourceProperties : list string :=
  ["text"; "contained"; "extension"; "modifierExtension"].

(** ** Value-set resolver *)

(** [buildCodeSystemConceptValues]: depth first, a concept's code before
    those of its children. *)
Fixpoint buildCodeSystemConceptValue (c : CodeSystemConcept) (result : list string)
  : list string :=
  match c with
  | Concept code sub =>
      let result :=
        match code with
        | Some v => if Js.truthy code then result ++ [v] else result
        | None => result
        end in
      match sub with
      | None => result
      | Some cs =>
          (fix each (cs : list CodeSystemConcept) (result : list string) :=
             match cs with
             | [] => result
             | c' :: cs' => each cs' (buildCodeSystemConceptValue c' result)
             end) cs result
      end
  end.

Definition buildCodeSystemConceptValues
  (concepts : option (list CodeSystemConcept)) (result : list string)
  : list string :=
  match concepts with
  | None => result
  | Some cs => foldl (fun r c => buildCodeSystemConceptValue c r) result cs
  end.

Section ValueSetValues.
(** The recursive call to [getValueSetValues], one unit of fuel lower. *)
Variable getValues : string -> outcome (list string).
Variable valueSets : gmap string BundleResource.

Definition pushConceptCode (result : list string)
  (c : ValueSetComposeIncludeConcept) : list string :=
  match vsc_code c with
  | Some v => if Js.truthy (vsc_code c) then result ++ [v] else result
  | None => result
  end.

Definition buildValueSetInclude (result : list string)
  (include : ValueSetComposeInclude) : outcome (list string) :=
  match vsi_concept include with
  | Some concepts => Done (foldl pushConceptCode result concepts)
  | None =>
      match vsi_system include with
      | Some system =>
          if Js.truthy (vsi_system include)
          then includedValues ← getValues system;
               Done (result ++ includedValues)
          else Done result
      | None => Done result
      end
  end.

Definition buildValueSetComposeValues (compose : option ValueSetCompose)
  (result : list string) : outcome (list string) :=
  match compose with
  | Some c =>
      match vs_include c with
      | Some includes => foldM buildValueSetInclude result includes
      | None => Done result
      end
  | None => Done result
  end.

(** The url with its version suffix removed. *)
Definition stripVersion (url : string) : string :=
  if Js.includes url "|" then Js.first (Js.split url "|") else url.

Definition buildValueSetValues (url : string) (result : list string)
  : outcome (list string) :=
  match valueSets !! stripVersion url with
  | None => Done result
  | Some (ValueSet _ compose) => buildValueSetComposeValues compose result
  | Some (CodeSystem _ concept) =>
      Done (buildCodeSystemConceptValues concept result)
  | Some (OtherResource _) => Done result
  end.
End ValueSetValues.

Fixpoint getValueSetValues (fuel : nat) (valueSets : gmap string BundleResource)
  (url : string) : outcome (list string) :=
  match fuel with
  | O => Fuel
  | S fuel' =>
      buildValueSetValues (getValueSetValues fuel' valueSets) valueSets url []
  end.

(** ** Property resolver *)

Definition stringCodes : list string :=
  ["base64Binary"; "canonical"; "code"; "id"; "markdown"; "oid"; "string";
   "uri"; "url"; "uuid"; "xhtml"; "http://hl7.org/fhirpath/System.String"].
Definition dateCodes : list string := ["date"; "dateTime"; "instant"; "time"].
Definition numberCodes : list string :=
  ["decimal"; "integer"; "positiveInt"; "unsignedInt"; "number"].
Definition elementCodes : list string := ["Element"; "BackboneElement"].

Definition resourceTypesUrl : string :=
  "http://hl7.org/fhir/ValueSet/resource-types|4.0.1".
Definition allTypesUrl : string :=
  "http://hl7.org/fhir/ValueSet/all-types|4.0.1".
Definition definedTypesUrl : string :=
  "http://hl7.org/fhir/ValueSet/defined-types|4.0.1".

Definition oneOf (s : string) (l : list string) : bool :=
  existsb (String.eqb s) l.

(** The required-strength binding of a definition: its value-set url when
    the url is truthy and the strength is ['required']. *)
Definition requiredValueSet (d : ElementDefinition) : option string :=
  match ed_binding d with
  | Some b =>
      match edb_valueSet b with
      | Some vs =>
          if Js.truthy (edb_valueSet b) &&
             bool_decide (edb_strength b = Some "required")
          then Some vs else None
      | None => None
      end
  | None => None
  end.

(** The literal union ['a' | 'b' | 'c'] of a list of codes. *)
Definition literalUnion (values : list string) : string :=
  "'" +:+ Js.join values "' | '" +:+ "'".

(** The string case of the switch in [getTypeScriptTypeForProperty]. *)
Definition stringBaseType (fuel : nat) (valueSets : gmap string BundleResource)
  (property : Property) : outcome string :=
  match requiredValueSet (p_definition property) with
  | Some vs =>
      if String.eqb vs resourceTypesUrl then Done "ResourceType"
      else if negb (String.eqb vs allTypesUrl) && negb (String.eqb vs definedTypesUrl)
      then values ← getValueSetValues fuel valueSets vs;
           match values with
           | [] => Done "string"
           | _ :: _ => Done (literalUnion values)
           end
      else Done "string"
  | None => Done "string"
  end.

(** The [Reference] case: the target profiles' last path segments, joined
    by [' | '] unless the text so far ends with ['<']. *)
Definition referenceBaseType (typeDefinition : ElementDefinitionType) : string :=
  match edt_targetProfile typeDefinition with
  | Some (tp :: tps) =>
      foldl (fun baseType targetProfile =>
               (if Js.endsWith baseType "<" then baseType else baseType +:+ " | ")
               +:+ Js.pop (Js.split targetProfile "/"))
            "Reference<" (tp :: tps) +:+ ">"
  | _ => "Reference"
  end.

(** The switch of [getTypeScriptTypeForProperty]: the type before the
    cardinality is applied. *)
Definition baseTypeOf (fuel : nat) (valueSets : gmap string BundleResource)
  (property : Property) (typeDefinition : ElementDefinitionType) : outcome string :=
  let baseType := edt_code typeDefinition in
  if oneOf baseType stringCodes then stringBaseType fuel valueSets property
  else if oneOf baseType dateCodes then Done "string"
  else if oneOf baseType numberCodes then Done "number"
  else if String.eqb baseType "ResourceList" then Done "Resource"
  else if oneOf baseType elementCodes
  then Done (p_resourceType property +:+ capitalize (p_name property))
  else if String.eqb baseType "Reference" then Done (referenceBaseType typeDefinition)
  else Done baseType.

(** The upper cardinality is unbounded: [max === '*']. *)
Definition isMany (d : ElementDefinition) : bool :=
  bool_decide (ed_max d = Some "*").

(** The end of [getTypeScriptTypeForProperty]: the sequence wrapper. *)
Definition withCardinality (d : ElementDefinition) (baseType : string) : string :=
  if isMany d then
    if Js.includes baseType "' | '" then "(" +:+ baseType +:+ ")[]"
    else baseType +:+ "[]"
  else baseType.

Definition getTypeScriptTypeForProperty (fuel : nat)
  (valueSets : gmap string BundleResource) (property : Property)
  (typeDefinition : ElementDefinitionType) : outcome string :=
  baseType ← baseTypeOf fuel valueSets property typeDefinition;
  Done (withCardinality (p_definition property) baseType).

(** The type name a content reference stands for: the segments of its
    path, each capitalized, concatenated. *)
Definition contentReferenceName (contentReference : string) : string :=
  Js.join (map capitalize (Js.split (Js.replace contentReference "#" "") ".")) "".

Definition genericResourceOwners : list string :=
  ["BundleEntry"; "OperationOutcome"; "Reference"].

(** [property.name === 'resource'] on one of the three owners. *)
Definition isGenericResource (property : Property) : bool :=
  String.eqb (p_name property) "resource" &&
  oneOf (p_resourceType property) genericResourceOwners.

(** [Bundle.entry]. *)
Definition isBundleEntry (property : Property) : bool :=
  String.eqb (p_resourceType property) "Bundle" &&
  String.eqb (p_name property) "entry".

Fixpoint mapM {A B : Type} (f : A -> outcome B) (l : list A) : outcome (list B) :=
  match l with
  | [] => Done []
  | x :: l' => y ← f x; ys ← mapM f l'; Done (y :: ys)
  end.

Definition getTypeScriptProperties (fuel : nat)
  (valueSets : gmap string BundleResource) (property : Property)
  : outcome (list TypeScriptProperty) :=
  let d := p_definition property in
  if isGenericResource property
  then Done [{| name := "resource"; typeName := "T" |}]
  else if isBundleEntry property
  then Done [{| name := "entry"; typeName := "BundleEntry<T>[]" |}]
  else if Js.truthy (ed_contentReference d)
  then
    let baseName := contentReferenceName (default "" (ed_contentReference d)) in
    let typeName := if isMany d then baseName +:+ "[]" else baseName in
    Done [{| name := p_name property; typeName := typeName |}]
  else if Js.endsWith (p_name property) "[x]"
  then
    let baseName := Js.replace (p_name property) "[x]" "" in
    match ed_type d with
    | None => Raise TypeError
    | Some propertyTypes =>
        mapM (fun propertyType =>
                typeName ← getTypeScriptTypeForProperty fuel valueSets property propertyType;
                Done {| name := baseName +:+ capitalize (edt_code propertyType);
                        typeName := typeName |})
             propertyTypes
    end
  else
    match ed_type d with
    | Some (typeDefinition :: _) =>
        typeName ← getTypeScriptTypeForProperty fuel valueSets property typeDefinition;
        Done [{| name := p_name property; typeName := typeName |}]
    | _ => Raise TypeError
    end.

(** ** Import resolver *)

Definition cleanReferencedType (typeName : string) : list string :=
  if String.eqb typeName "T" then ["Resource"]
  else if Js.startsWith typeName "'" || isLowerCase (Js.charAt0 typeName)
          || String.eqb typeName "BundleEntry<T>[]"
  then []
  else if Js.startsWith typeName "Reference<"
  then
    let start := (Js.indexOf typeName "<" + 1)%Z in
    let end_ := Js.indexOf typeName ">" in
    "Reference" :: Js.split (Js.substring typeName start end_) " | "
  else [Js.replace typeName "[]" ""].

(** [referencedTypes.add] of every clean name of every resolved field. *)
Definition addFieldImports (referencedTypes : gset string)
  (field : TypeScriptProperty) : gset string :=
  foldl (fun referenced cleanName => {[cleanName]} ∪ referenced)
        referencedTypes (cleanReferencedType (typeName field)).

Definition addPropertyImports (fuel : nat) (valueSets : gmap string BundleResource)
  (referencedTypes : gset string) (property : Property) : outcome (gset string) :=
  fields ← getTypeScriptProperties fuel valueSets property;
  Done (foldl addFieldImports referencedTypes fields).

(** The first loop of [buildImports]. *)
Definition propertyImports (fuel : nat) (valueSets : gmap string BundleResource)
  (referencedTypes : gset string) (properties : list Property)
  : outcome (gset string) :=
  foldM (addPropertyImports fuel valueSets) referencedTypes properties.

(** [buildImports] on the type at index [id]; the pair is
    [(includedTypes, referencedTypes)]. *)
Fixpoint buildImports (fuel : nat) (valueSets : gmap string BundleResource)
  (store : list FhirType) (id : nat) (sets : gset string * gset string)
  : outcome (gset string * gset string) :=
  match fuel with
  | O => Fuel
  | S fuel' =>
      match store !! id with
      | None => Raise TypeError
      | Some fhirType =>
          let includedTypes := {[ft_outputName fhirType]} ∪ sets.1 in
          referencedTypes ←
            propertyImports fuel valueSets sets.2 (ft_properties fhirType);
          sets' ← foldM (fun s subType => buildImports fuel' valueSets store subType s)
                        (includedTypes, referencedTypes) (ft_subTypes fhirType);
          Done (sets'.1,
                if String.eqb (ft_outputName fhirType) "Reference"
                then {["Resource"]} ∪ sets'.2 else sets'.2)
      end
  end.

(** [Array.from(referencedTypes).sort()], filtered by
    [!includedTypes.has(...)]: the names a unit imports, in the order of
    its import lines. The default sort orders strings by their code
    units. *)
Definition importedNames (includedTypes referencedTypes : gset string) : list string :=
  filter (fun referencedType => referencedType ∉ includedTypes)
         (merge_sort String.le (elements referencedTypes)).

(** ** File builder *)

(** Modelled from the spec: [FileBuilder] comes from [./filebuilder], which
    is not part of the sources at hand; the design document fixes only "the
    logical content (imports, declared shape, ordering) each file must
    contain". The text of a file is therefore kept as the sequence of calls
    made on its builder, each [append] with the indentation in force. *)
Inductive Line :=
  | Append (indent : Z) (text : string)
  | AppendNoWrap (indent : Z) (text : string)
  | NewLine.

Record FileBuilder := { fb_lines : list Line; indentCount : Z }.

Definition newFileBuilder : FileBuilder := {| fb_lines := []; indentCount := 0 |}.

Definition append (b : FileBuilder) (text : string) : FileBuilder :=
  {| fb_lines := fb_lines b ++ [Append (indentCount b) text];
     indentCount := indentCount b |}.

Definition appendNoWrap (b : FileBuilder) (text : string) : FileBuilder :=
  {| fb_lines := fb_lines b ++ [AppendNoWrap (indentCount b) text];
     indentCount := indentCount b |}.

Definition newLine (b : FileBuilder) : FileBuilder :=
  {| fb_lines := fb_lines b ++ [NewLine]; indentCount := indentCount b |}.

Definition indentBy (b : FileBuilder) (n : Z) : FileBuilder :=
  {| fb_lines := fb_lines b; indentCount := (indentCount b + n)%Z |}.

(** A written file: the path handed to [resolve] and the content. *)
Definition File : Type := string * list Line.

Definition distPath (fileName : string) : string :=
  "../../fhirtypes/dist/" +:+ fileName.

(** ** Aggregate artifacts *)

Definition importLine (typeName : string) : string :=
  "import { " +:+ typeName +:+ " } from './" +:+ typeName +:+ "';".

Definition exportLine (typeName : string) : string :=
  "export * from './" +:+ typeName +:+ "';".

Definition isAliasName (resourceType : string) : bool :=
  String.eqb resourceType "MoneyQuantity" || String.eqb resourceType "SimpleQuantity".

Definition writeIndexFile (names : list string) : File :=
  let b :=
    foldl (fun b resourceType =>
             if isAliasName resourceType then b
             else append b (exportLine resourceType))
          newFileBuilder
          (merge_sort String.le (names ++ ["Resource"; "ResourceType"])) in
  (distPath "index.d.ts", fb_lines b).

(** The body of the indexed loop of [writeResourceFile]. *)
Definition writeResourceDisjunct (names : list string) (b : FileBuilder) (i : nat)
  : FileBuilder :=
  let name_i := default "" (names !! i) in
  if (i =? 0)%nat
  then indentBy (append b ("export type Resource = " +:+ default "" (names !! 0%nat))) 1
  else if negb (i =? length names - 1)%nat
  then append b ("| " +:+ name_i)
  else append b ("| " +:+ name_i +:+ ";").

Definition writeResourceFile (names : list string) : File :=
  let b := foldl (fun b resourceType => append b (importLine resourceType))
                 newFileBuilder names in
  let b := newLine b in
  let b := foldl (writeResourceDisjunct names) b (seq 0 (length names)) in
  (distPath "Resource.d.ts", fb_lines b).

Definition writeResourceTypeFile : File :=
  let b := append newFileBuilder "import { Resource } from './Resource';" in
  let b := newLine b in
  let b := append b "export type ResourceType = Resource['resourceType'];" in
  let b := append b
    "export type ExtractResource<K extends ResourceType> = Extract<Resource, { resourceType: K }>;" in
  (distPath "ResourceType.d.ts", fb_lines b).

(** ** Type graph builder *)

Definition containsAll (set : gset string) (values : list string) : bool :=
  forallb (fun value => bool_decide (value ∈ set)) values.

(** The body of the loop of [buildType] over the declared properties. *)
Definition addProperty (resourceType : string)
  (acc : list Property * gset string) (entry : string * ElementDefinition)
  : list Property * gset string :=
  let '(propertyName, propertyDefinition) := entry in
  if Js.startsWith propertyName "_" then acc
  else (acc.1 ++ [{| p_resourceType := resourceType; p_name := propertyName;
                     p_definition := propertyDefinition |}],
        {[propertyName]} ∪ acc.2).

Definition buildType (resourceType : string) (definition : TypeSchema)
  : option FhirType :=
  match ts_properties definition with
  | None => None
  | Some entries =>
      let '(properties, propertyNames) :=
        foldl (addProperty resourceType) ([], ∅) entries in
      Some {| ft_definition := definition;
              ft_inputName := resourceType;
              ft_parentType := ts_parentType definition;
              ft_outputName := resourceType;
              ft_properties := properties;
              ft_subTypes := [];
              ft_resource := containsAll propertyNames baseResourceProperties;
              ft_domainResource := containsAll propertyNames domainResourceProperties |}
  end.

(** ** Module state *)

Record ModuleState := {
  fhirTypes : list FhirType;
  fhirTypesMap : gmap string nat;
  valueSets : gmap string BundleResource
}.

Definition initialState : ModuleState :=
  {| fhirTypes := []; fhirTypesMap := ∅; valueSets := ∅ |}.

(** [valueSets.set(resource.url, resource)] for the code systems and value
    sets of the bundle. A resource without url is stored under the key
    [undefined], which no lookup by string reaches. *)
Definition loadValueSet (m : gmap string BundleResource) (resource : BundleResource)
  : gmap string BundleResource :=
  match resource with
  | CodeSystem (Some url) _ | ValueSet (Some url) _ => <[url := resource]> m
  | _ => m
  end.

(** The loop of [main] over [Object.entries(globalSchema.types)]. *)
Definition addType (st : ModuleState) (entry : string * TypeSchema) : ModuleState :=
  match buildType entry.1 entry.2 with
  | Some fhirType =>
      {| fhirTypes := fhirTypes st ++ [fhirType];
         fhirTypesMap := <[ft_outputName fhirType := length (fhirTypes st)]> (fhirTypesMap st);
         valueSets := valueSets st |}
  | None => st
  end.

(** [o[k] = v] on an object whose keys are listed in insertion order (the
    keys are type names, none of which is an array index or the name of a
    member of [Object.prototype]). *)
Fixpoint objSet {V : Type} (o : list (string * V)) (k : string) (v : V)
  : list (string * V) :=
  match o with
  | [] => [(k, v)]
  | (k', v') :: o' =>
      if String.eqb k' k then (k', v) :: o' else (k', v') :: objSet o' k v
  end.

(** The local object [parentTypes] of [main]: the types without parent, by
    output name. *)
Definition addParentType (parentTypes : list (string * nat))
  (entry : nat * FhirType) : list (string * nat) :=
  if Js.truthy (ft_parentType entry.2) then parentTypes
  else objSet parentTypes (ft_outputName entry.2) entry.1.

Definition parentTypesOf (store : list FhirType) : list (string * nat) :=
  foldl addParentType [] (imap pair store).

Definition withSubTypes (fhirType : FhirType) (subTypes : list nat) : FhirType :=
  {| ft_definition := ft_definition fhirType;
     ft_inputName := ft_inputName fhirType;
     ft_parentType := ft_parentType fhirType;
     ft_outputName := ft_outputName fhirType;
     ft_properties := ft_properties fhirType;
     ft_subTypes := subTypes;
     ft_resource := ft_resource fhirType;
     ft_domainResource := ft_domainResource fhirType |}.

(** [fhirTypesMap[fhirType.parentType].subTypes.push(fhirType)]; the lookup
    of a name that is not in the map yields [undefined], and reading
    [subTypes] of it throws. *)
Definition nestType (typesMap : gmap string nat) (store : list FhirType)
  (entry : nat * FhirType) : outcome (list FhirType) :=
  match ft_parentType entry.2 with
  | Some parentType =>
      if Js.truthy (ft_parentType entry.2)
      then match typesMap !! parentType with
           | Some parent =>
               match store !! parent with
               | Some parentFhirType =>
                   Done (<[parent := withSubTypes parentFhirType
                                       (ft_subTypes parentFhirType ++ [entry.1])]> store)
               | None => Raise TypeError
               end
           | None => Raise TypeError
           end
      else Done store
  | None => Done store
  end.

Definition nestTypes (typesMap : gmap string nat) (store : list FhirType)
  : outcome (list FhirType) :=
  foldM (nestType typesMap) store (imap pair store).

(** [Array.prototype.sort] with a comparator: a stable sort; for a
    consistent comparator every stable sort returns the same array. *)
Fixpoint insertBy {A : Type} (cmp : A -> A -> Z) (x : A) (l : list A) : list A :=
  match l with
  | [] => [x]
  | y :: l' => if (cmp x y <=? 0)%Z then x :: l else y :: insertBy cmp x l'
  end.

Definition stableSort {A : Type} (cmp : A -> A -> Z) (l : list A) : list A :=
  foldr (insertBy cmp) [] l.

Definition dquote : string := String (ascii_of_nat 34) EmptyString.
Definition lineFeed : string := String (ascii_of_nat 10) EmptyString.

Definition escapeHtml (unsafe : string) : string :=
  let s := Js.replaceAll unsafe "&" "&amp;" in
  let s := Js.replaceAll s "<" "&lt;" in
  let s := Js.replaceAll s ">" "&gt;" in
  let s := Js.replaceAll s dquote "&quot;" in
  let s := Js.replaceAll s "“" "&ldquo;" in
  let s := Js.replaceAll s "”" "&rdquo;" in
  let s := Js.replaceAll s "‘" "&lsquo;" in
  let s := Js.replaceAll s "’" "&rsquo;" in
  Js.replaceAll s "…" "&hellip;".

(** ** Emitter *)

Section Emitter.
(** [wordWrap] of [./filebuilder] and [String.prototype.localeCompare],
    whose results depend on code and on locale data that are not part of
    the sources at hand. *)
Variable wordWrap : string -> nat -> list string.
Variable localeCompare : string -> string -> Z.

Definition generateJavadoc (b : FileBuilder) (text : option string) : FileBuilder :=
  match text with
  | Some t =>
      if Js.truthy text
      then
        let b := append b "/**" in
        let b :=
          foldl (fun b textLine =>
                   foldl (fun b javadocLine =>
                            appendNoWrap b
                              (" " +:+ Js.trim ("* " +:+ escapeHtml javadocLine)))
                         b (wordWrap textLine 70))
                b (Js.split t lineFeed) in
        append b " */"
      else b
  | None => b
  end.

Definition writeInterfaceProperty (fuel : nat)
  (valueSets : gmap string BundleResource) (b : FileBuilder)
  (property : Property) : outcome FileBuilder :=
  fields ← getTypeScriptProperties fuel valueSets property;
  Done (foldl (fun b typeScriptProperty =>
                 let b := newLine b in
                 let b := generateJavadoc b (ed_definition (p_definition property)) in
                 append b (name typeScriptProperty +:+ "?: "
                           +:+ typeName typeScriptProperty +:+ ";"))
              b fields).

Definition genericTypes : list string := ["Bundle"; "BundleEntry"; "Reference"].
Definition genericClause : string := "<T extends Resource = Resource>".

(** The declaration of one type: [writeInterface] up to the closing
    brace. *)
Definition writeDeclaration (fuel : nat) (valueSets : gmap string BundleResource)
  (b : FileBuilder) (fhirType : FhirType) : outcome FileBuilder :=
  let resourceType := ft_outputName fhirType in
  let genericModifier :=
    if oneOf resourceType genericTypes then genericClause else "" in
  let b := newLine b in
  let b := generateJavadoc b (ts_description (ft_definition fhirType)) in
  let b := append b ("export interface " +:+ resourceType +:+ genericModifier +:+ " {") in
  let b := indentBy b 1 in
  let b :=
    if ft_resource fhirType
    then
      let b := newLine b in
      let b := generateJavadoc b (Some ("This is a " +:+ resourceType +:+ " resource")) in
      append b ("readonly resourceType: '" +:+ resourceType +:+ "';")
    else b in
  b ← foldM (fun b property => writeInterfaceProperty fuel valueSets (newLine b) property)
            b (ft_properties fhirType);
  let b :=
    if String.eqb (ft_outputName fhirType) "Reference"
    then
      let b := newLine b in
      let b := generateJavadoc b (Some "Optional Resource referred to by this reference.") in
      append b "resource?: T;"
    else b in
  let b := indentBy b (-1) in
  Done (append b "}").

Definition outputNameAt (store : list FhirType) (id : nat) : string :=
  default "" (ft_outputName <$> store !! id).

(** [writeInterface] on the type at index [id]. Sorting [subTypes] in
    place changes the stored object. *)
Fixpoint writeInterface (fuel : nat) (valueSets : gmap string BundleResource)
  (acc : list FhirType * FileBuilder) (id : nat)
  : outcome (list FhirType * FileBuilder) :=
  match fuel with
  | O => Fuel
  | S fuel' =>
      let '(store, b) := acc in
      match store !! id with
      | None => Raise TypeError
      | Some fhirType =>
          match ft_properties fhirType with
          | [] => Done (store, b)
          | _ :: _ =>
              b ← writeDeclaration fuel valueSets b fhirType;
              let subTypes :=
                stableSort (fun t1 t2 => localeCompare (outputNameAt store t1)
                                                       (outputNameAt store t2))
                           (ft_subTypes fhirType) in
              let store := <[id := withSubTypes fhirType subTypes]> store in
              foldM (writeInterface fuel' valueSets) (store, b) subTypes
          end
      end
  end.

Definition writeInterfaceFile (fuel : nat) (valueSets : gmap string BundleResource)
  (store : list FhirType) (id : nat) : outcome (list FhirType * option File) :=
  match store !! id with
  | None => Raise TypeError
  | Some fhirType =>
      match ft_properties fhirType, ft_subTypes fhirType with
      | [], [] => Done (store, None)
      | _, _ =>
          sets ← buildImports fuel valueSets store id (∅, ∅);
          let b :=
            foldl (fun b referencedType => append b (importLine referencedType))
                  newFileBuilder (importedNames sets.1 sets.2) in
          r ← writeInterface fuel valueSets (store, b) id;
          Done (r.1, Some (distPath (ft_outputName fhirType +:+ ".d.ts"),
                           fb_lines r.2))
      end
  end.

(** [Object.values(parentTypes).forEach(writeInterfaceFile)], with the
    files written before a failure. *)
Fixpoint writeInterfaceFiles (fuel : nat) (valueSets : gmap string BundleResource)
  (store : list FhirType) (ids : list nat) : list File * outcome (list FhirType) :=
  match ids with
  | [] => ([], Done store)
  | id :: ids' =>
      match writeInterfaceFile fuel valueSets store id with
      | Done (store', file) =>
          let '(files, r) := writeInterfaceFiles fuel valueSets store' ids' in
          (from_option (fun f => [f]) [] file ++ files, r)
      | Raise e => ([], Raise e)
      | Fuel => ([], Fuel)
      end
  end.

(** The arguments [main] gives to [writeIndexFile] and
    [writeResourceFile]. *)
Definition indexNames (parentTypes : list (string * nat)) : list string :=
  merge_sort String.le (map fst parentTypes).

Definition resourceNames (store : list FhirType) (parentTypes : list (string * nat))
  : list string :=
  merge_sort String.le
    (map fst (filter (fun e => ft_resource <$> store !! e.2 = Some true)
                     parentTypes)).

(** [main]: the files written, in order, and how the run ended. The
    schema is [Object.entries(globalSchema.types)] after the three calls
    to [buildStructureDefinitions]; the bundle holds the resources of
    [valuesets.json]. *)
Definition main (fuel : nat) (st : ModuleState)
  (schema : list (string * TypeSchema)) (bundle : list BundleResource)
  : list File * outcome ModuleState :=
  let valueSets := foldl loadValueSet (valueSets st) bundle in
  let st := foldl addType
                  {| fhirTypes := fhirTypes st; fhirTypesMap := fhirTypesMap st;
                     valueSets := valueSets |} schema in
  let parentTypes := parentTypesOf (fhirTypes st) in
  match nestTypes (fhirTypesMap st) (fhirTypes st) with
  | Done store =>
      let aggregates :=
        [writeIndexFile (indexNames parentTypes);
         writeResourceFile (resourceNames store parentTypes);
         writeResourceTypeFile] in
      let '(files, r) :=
        writeInterfaceFiles fuel valueSets store (map snd parentTypes) in
      (aggregates ++ files,
       store' ← r;
       Done {| fhirTypes := store'; fhirTypesMap := fhirTypesMap st;
               valueSets := valueSets |})
  | Raise e => ([], Raise e)
  | Fuel => ([], Fuel)
  end.
End Emitter.

(** * Vocabulary of the properties, and sample data *)

(** [Container.item], 0..*, content reference [#Container.item.detail]. *)
Definition containerItem : Property :=
  {| p_resourceType := "Container"; p_name := "item";
     p_definition :=
       {| ed_definition := None;
          ed_contentReference := Some "#Container.item.detail";
          ed_max := Some "*"; ed_type := None; ed_binding := None |} |}.

(** A property whose content reference has an empty path. *)
Definition danglingItem : Property :=
  {| p_resourceType := "Container"; p_name := "item";
     p_definition :=
       {| ed_definition := None; ed_contentReference := Some "#";
          ed_max := Some "1"; ed_type := None; ed_binding := None |} |}.

(** [Bundle.entry] declared with upper cardinality 1. *)
Definition bundleEntryOne : Property :=
  {| p_resourceType := "Bundle"; p_name := "entry";
     p_definition :=
       {| ed_definition := None; ed_contentReference := None;
          ed_max := Some "1";
          ed_type := Some [{| edt_code := "BackboneElement"; edt_targetProfile := None |}];
          ed_binding := None |} |}.

(** A [code] property with a required binding to [url]. *)
Definition boundCode (owner field url max : string) : Property :=
  {| p_resourceType := owner; p_name := field;
     p_definition :=
       {| ed_definition := None; ed_contentReference := None;
          ed_max := Some max;
          ed_type := Some [{| edt_code := "code"; edt_targetProfile := None |}];
          ed_binding := Some {| edb_strength := Some "required";
                                edb_valueSet := Some url |} |} |}.

Definition codeType : ElementDefinitionType :=
  {| edt_code := "code"; edt_targetProfile := None |}.

Definition leaf (code : string) : CodeSystemConcept := Concept (Some code) None.

(** A corpus in which the resource-types code system resolves. *)
Definition resourceTypesCorpus : gmap string BundleResource :=
  {[ "http://hl7.org/fhir/ValueSet/resource-types" :=
       ValueSet (Some "http://hl7.org/fhir/ValueSet/resource-types")
         (Some {| vs_include := Some [
            {| vsi_system := Some "http://hl7.org/fhir/resource-types";
               vsi_concept := Some [ {| vsc_code := Some "Patient" |};
                                     {| vsc_code := Some "Observation" |} ] |} ] |}) ]}.

(** A value set with two overlapping inclusion rules, one of them by
    reference to a hierarchical code system. *)
Definition statusCorpus : gmap string BundleResource :=
  <[ "http://example.org/vs/status" :=
       ValueSet (Some "http://example.org/vs/status")
         (Some {| vs_include := Some [
            {| vsi_system := Some "http://example.org/cs/status";
               vsi_concept := Some [ {| vsc_code := Some "active" |};
                                     {| vsc_code := Some "inactive" |} ] |};
            {| vsi_system := Some "http://example.org/cs/status";
               vsi_concept := None |} ] |}) ]>
  {[ "http://example.org/cs/status" :=
       CodeSystem (Some "http://example.org/cs/status")
         (Some [Concept (Some "active") (Some [leaf "suspended"]); leaf "inactive"]) ]}.

(** A property handled by one of the string conventions of the resolver:
    it carries a content reference, or its owner and name make it a
    generic carrier. *)
Definition conventionHandled (property : Property) : Prop :=
  Js.truthy (ed_contentReference (p_definition property)) = true \/
  isGenericResource property = true \/
  isBundleEntry property = true.

(** [base] is a type the property resolves to before its cardinality is
    applied: the name of its content reference, or the mapping of one of
    its declared type alternatives. *)
Definition resolvesTo (fuel : nat) (valueSets : gmap string BundleResource)
  (property : Property) (base : string) : Prop :=
  let d := p_definition property in
  (Js.truthy (ed_contentReference d) = true /\
   base = contentReferenceName (default "" (ed_contentReference d)))
  \/
  (Js.truthy (ed_contentReference d) = false /\
   exists alternatives alternative,
     ed_type d = Some alternatives /\
     alternative ∈ alternatives /\
     baseTypeOf fuel valueSets property alternative = Done base).

(** [typeName] is the sequence wrapper of [base]: the suffix [[]], put
    after the parenthesized [base] when [base] holds the separator of a
    literal union, and after the bare [base] only when it does not. *)
Definition sequenceOf (base typeName : string) : Prop :=
  (Js.includes base "' | '" = false /\ typeName = base +:+ "[]") \/
  (Js.includes base "' | '" = true /\ typeName = "(" +:+ base +:+ ")[]").

Definition keepsProperty (entry : string * ElementDefinition) : bool :=
  negb (Js.startsWith entry.1 "_").

Definition propertyOf (resourceType : string) (entry : string * ElementDefinition)
  : Property :=
  {| p_resourceType := resourceType; p_name := entry.1; p_definition := entry.2 |}.

Definition keptNames (entries : list (string * ElementDefinition)) : gset string :=
  list_to_set (map fst (List.filter keepsProperty entries)).


Definition stringProperty : ElementDefinition :=
  {| ed_definition := None; ed_contentReference := None; ed_max := Some "1";
     ed_type := Some [{| edt_code := "string"; edt_targetProfile := None |}];
     ed_binding := None |}.

Definition extensionProperty : ElementDefinition :=
  {| ed_definition := None; ed_contentReference := None; ed_max := Some "1";
     ed_type := Some [{| edt_code := "Element"; edt_targetProfile := None |}];
     ed_binding := None |}.

(** A schema entry in which three of the four resource markers are
    spelled with an underscore. *)
Definition shadowedSchema : TypeSchema :=
  {| ts_description := None; ts_parentType := None;
     ts_properties := Some [ ("id", stringProperty); ("_id", extensionProperty);
                             ("_meta", extensionProperty);
                             ("_implicitRules", extensionProperty);
                             ("_language", extensionProperty) ] |}.

(** The types declared in the unit of [id]: the type itself and, level by
    level, its nested types. *)
Inductive inUnit (store : list FhirType) : nat -> nat -> Prop :=
  | inUnit_self id : inUnit store id id
  | inUnit_sub id fhirType subType id' :
      store !! id = Some fhirType ->
      subType ∈ ft_subTypes fhirType ->
      inUnit store subType id' ->
      inUnit store id id'.

(** [b'] continues [b]: same indentation, and the lines of [b] followed by
    further lines. *)
Definition continues (b b' : FileBuilder) : Prop :=
  indentCount b' = indentCount b /\
  exists extra, fb_lines b' = fb_lines b ++ extra.

(** The type nodes of a schema, in the order of its entries. *)
Definition built (schema : list (string * TypeSchema)) : list FhirType :=
  omap (fun e => buildType e.1 e.2) schema.

(** Every type of the array is reachable through the map by its name, at
    an index of the array. *)
Definition mapCovers (st : ModuleState) : Prop :=
  forall fhirType, fhirType ∈ fhirTypes st ->
    exists i, fhirTypesMap st !! ft_outputName fhirType = Some i /\
              i < length (fhirTypes st).

(** Two stores that differ in the [subTypes] of their nodes only. *)
Definition sameNodes (store store' : list FhirType) : Prop :=
  Forall2 (fun a b => b = withSubTypes a (ft_subTypes b)) store store'.

Definition isTopNode (fhirType : FhirType) : Prop :=
  Js.truthy (ft_parentType fhirType) = false.

Definition parentEntry (e : nat * FhirType) : string * nat :=
  (ft_outputName e.2, e.1).

(** The code's reading of a schema entry. It declares properties when it
    has a property map, an empty one included: [buildType] makes a node of
    every such entry. *)
Definition declares (e : string * TypeSchema) : bool :=
  match ts_properties e.2 with
  | Some _ => true
  | None => false
  end.

(** An entry of which the code makes a node without parent. *)
Definition buildsTopNode (e : string * TypeSchema) : bool :=
  declares e && negb (Js.truthy (ts_parentType e.2)).

(** Record-classified: the property names include the four base
    markers. *)
Definition isRecord (e : string * TypeSchema) : bool :=
  forallb (fun marker =>
             bool_decide (marker ∈ map fst (default [] (ts_properties e.2))))
          ["id"; "meta"; "implicitRules"; "language"].

Definition topNodeNames (schema : list (string * TypeSchema)) : list string :=
  map fst (List.filter buildsTopNode schema).

Definition recordNodeNames (schema : list (string * TypeSchema)) : list string :=
  map fst (List.filter (fun e => buildsTopNode e && isRecord e) schema).

(** The design document's reading (4.2): a type node is built for every
    entry with a non-empty property list; the top-level types are the
    nodes without parent. *)
Definition hasProperties (e : string * TypeSchema) : bool :=
  match ts_properties e.2 with
  | Some (_ :: _) => true
  | _ => false
  end.

Definition isTopLevel (e : string * TypeSchema) : bool :=
  hasProperties e && negb (Js.truthy (ts_parentType e.2)).

Definition topLevelNames (schema : list (string * TypeSchema)) : list string :=
  map fst (List.filter isTopLevel schema).

Definition recordNames (schema : list (string * TypeSchema)) : list string :=
  map fst (List.filter (fun e => isTopLevel e && isRecord e) schema).

(** Every parent named by an entry with properties is itself an entry
    with properties. *)
Definition parentsHaveProperties (schema : list (string * TypeSchema)) : Prop :=
  forall e parentType,
    e ∈ schema -> hasProperties e = true ->
    ts_parentType e.2 = Some parentType -> parentType <> "" ->
    exists e', e' ∈ schema /\ e'.1 = parentType /\ hasProperties e' = true.

(** No entry carries an empty property map. *)
Definition noEmptyPropertyList (schema : list (string * TypeSchema)) : Prop :=
  forall e, e ∈ schema -> ts_properties e.2 <> Some [].

(** The line of the [i]-th disjunct of the union. *)
Definition disjunctLine (names : list string) (i : nat) : Line :=
  let n := default "" (names !! i) in
  if (i =? 0)%nat then Append 0 ("export type Resource = " +:+ n)
  else if negb (i =? length names - 1)%nat then Append 1 ("| " +:+ n)
  else Append 1 ("| " +:+ n +:+ ";").

(** Every parent named by an entry that declares properties is itself an
    entry that declares properties. *)
Definition parentsDeclared (schema : list (string * TypeSchema)) : Prop :=
  forall e parentType,
    e ∈ schema -> declares e = true ->
    ts_parentType e.2 = Some parentType -> Js.truthy (Some parentType) = true ->
    exists e', e' ∈ schema /\ e'.1 = parentType /\ declares e' = true.

Definition typed (code max : string) : ElementDefinition :=
  {| ed_definition := None; ed_contentReference := None; ed_max := Some max;
     ed_type := Some [{| edt_code := code; edt_targetProfile := None |}];
     ed_binding := None |}.

Definition referenceTo (target max : string) : ElementDefinition :=
  {| ed_definition := None; ed_contentReference := None; ed_max := Some max;
     ed_type := Some [{| edt_code := "Reference";
                         edt_targetProfile :=
                           Some ["http://hl7.org/fhir/StructureDefinition/" +:+ target] |}];
     ed_binding := None |}.

Definition typeSchema (parentType : option string)
  (properties : list (string * ElementDefinition)) : TypeSchema :=
  {| ts_description := None; ts_parentType := parentType;
     ts_properties := Some properties |}.

Definition resourceMarkers : list (string * ElementDefinition) :=
  [("id", typed "string" "1"); ("meta", typed "Meta" "1");
   ("implicitRules", typed "uri" "1"); ("language", typed "code" "1")].

(** A record type with a nested type, the reference carrier, a plain data
    type, one of the two aliased names and an abstract marker. *)
Definition sampleSchema : list (string * TypeSchema) :=
  [ ("Patient",
     typeSchema None
       (resourceMarkers ++
        [("contact", typed "BackboneElement" "*");
         ("managingOrganization", referenceTo "Organization" "1")]));
    ("PatientContact",
     typeSchema (Some "Patient")
       [("name", typed "string" "1");
        ("organization", referenceTo "Organization" "1")]);
    ("Reference",
     typeSchema None
       [("reference", typed "string" "1"); ("display", typed "string" "1")]);
    ("Period", typeSchema None [("start", typed "dateTime" "1")]);
    ("MoneyQuantity", typeSchema None [("value", typed "decimal" "1")]);
    ("Element",
     {| ts_description := None; ts_parentType := None; ts_properties := None |}) ].

Definition sampleState : ModuleState := foldl addType initialState sampleSchema.

(** The store of the sample after the nesting pass. *)
Definition sampleStore : list FhirType :=
  match nestTypes (fhirTypesMap sampleState) (fhirTypes sampleState) with
  | Done store => store
  | _ => []
  end.

(** Stand-ins for the two functions the emitter is parameterized by: no
    wrapping, and comparison by code units. *)
Definition noWrap (text : string) (width : nat) : list string := [text].
Definition compareCodeUnits (s1 s2 : string) : Z :=
  match String.compare s1 s2 with
  | Lt => (-1)%Z
  | Eq => 0%Z
  | Gt => 1%Z
  end.

Definition referenceType : FhirType :=
  {| ft_definition :=
       typeSchema None
         [("reference", typed "string" "1"); ("display", typed "string" "1")];
     ft_inputName := "Reference"; ft_parentType := None;
     ft_outputName := "Reference";
     ft_properties := [propertyOf "Reference" ("reference", typed "string" "1");
                       propertyOf "Reference" ("display", typed "string" "1")];
     ft_subTypes := []; ft_resource := false; ft_domainResource := false |}.

(** A schema with one nested type. *)
Definition nestedSchema : list (string * TypeSchema) :=
  [ ("Plan", typeSchema None [("title", typed "string" "1")]);
    ("PlanStep", typeSchema (Some "Plan") [("note", typed "string" "1")]) ].

(** A second run of [main] in the same process: it starts from the module
    state the first run left. *)
Definition rerun (wordWrap : string -> nat -> list string)
  (localeCompare : string -> string -> Z) (fuel : nat)
  (schema : list (string * TypeSchema)) (bundle : list BundleResource)
  : list File * outcome ModuleState :=
  match (main wordWrap localeCompare fuel initialState schema bundle).2 with
  | Done st => main wordWrap localeCompare fuel st schema bundle
  | Raise e => ([], Raise e)
  | Fuel => ([], Fuel)
  end.

Definition flatSchema : list (string * TypeSchema) :=
  [ ("Plan", typeSchema None (resourceMarkers ++ [("title", typed "string" "1")]));
    ("Period", typeSchema None [("start", typed "dateTime" "1")]) ].

(** [n] is a clean name of a field of one of the properties of [fhirType]
    that the generic-carrier rule does not take. *)
Definition contributes (valueSets : gmap string BundleResource)
  (fhirType : FhirType) (n : string) : Prop :=
  exists fuel property fields field,
    property ∈ ft_properties fhirType /\
    isGenericResource property = false /\
    isBundleEntry property = false /\
    getTypeScriptProperties fuel valueSets property = Done fields /\
    field ∈ fields /\
    n ∈ cleanReferencedType (typeName field).

(** The included and the referenced names of the sample's [Patient] and
    [Reference] units. *)
Definition patientSets : gset string * gset string :=
  ({["Patient"; "PatientContact"]},
   {["Meta"; "PatientContact"; "Reference"; "Organization"]}).

Definition referenceSets : gset string * gset string :=
  ({["Reference"]}, {["Resource"]}).

(** * Further vocabulary *)

(** No character of [s] is [c]. *)
Fixpoint lacks (c : ascii) (s : string) : bool :=
  match s with
  | EmptyString => true
  | String a s' => negb (Ascii.eqb a c) && lacks c s'
  end.

(** The codes an inclusion rule lists itself. *)
Definition listedCodes (include : ValueSetComposeInclude) : list string :=
  omap (fun c => if Js.truthy (vsc_code c) then vsc_code c else None)
       (default [] (vsi_concept include)).

(** The codes of a concept and of the concepts below it, the concept
    first. *)
Fixpoint conceptCodes (c : CodeSystemConcept) : list string :=
  match c with
  | Concept code sub =>
      (if Js.truthy code then option_list code else [])
      ++ match sub with
         | None => []
         | Some cs => flat_map conceptCodes cs
         end
  end.

(** A set of value-set keys from which resolution never comes back: the
    value set of each starts with a rule that names, without listing
    concepts, a url whose key is in the set again. *)
Definition inclusionCycle (valueSets : gmap string BundleResource)
  (keys : string -> Prop) : Prop :=
  forall key, keys key ->
    exists url system rest,
      valueSets !! key
      = Some (ValueSet url
                (Some {| vs_include :=
                           Some ({| vsi_system := Some system; vsi_concept := None |}
                                 :: rest) |})) /\
      Js.truthy (Some system) = true /\
      keys (stripVersion system).

(** A value set that includes itself by reference. *)
Definition selfIncluding : gmap string BundleResource :=
  {[ "http://example.org/vs/loop" :=
       ValueSet (Some "http://example.org/vs/loop")
         (Some {| vs_include := Some [
            {| vsi_system := Some "http://example.org/vs/loop|1";
               vsi_concept := None |} ] |}) ]}.

(** [value[x]] with two alternatives. *)
Definition valueChoice : Property :=
  {| p_resourceType := "Observation"; p_name := "value[x]";
     p_definition :=
       {| ed_definition := None; ed_contentReference := None;
          ed_max := Some "1";
          ed_type := Some [ {| edt_code := "string"; edt_targetProfile := None |};
                            {| edt_code := "Quantity"; edt_targetProfile := None |} ];
          ed_binding := None |} |}.

(** A property without declared type. *)
Definition untypedProperty : Property :=
  {| p_resourceType := "Observation"; p_name := "note";
     p_definition :=
       {| ed_definition := None; ed_contentReference := None;
          ed_max := Some "1"; ed_type := None; ed_binding := None |} |}.

(** A name that the rendering of a reference type can carry: not empty,
    and free of the characters the rendering itself is made of. *)
Definition plainName (s : string) : bool :=
  negb (String.eqb s "") && lacks " " s && lacks "<" s && lacks ">" s
  && lacks "'" s.

(** The last path segment of a profile url. *)
Definition targetName (targetProfile : string) : string :=
  Js.pop (Js.split targetProfile "/").

(** A reference to patients or groups, as many as wanted. *)
Definition subjectReference : Property :=
  {| p_resourceType := "Observation"; p_name := "subject";
     p_definition :=
       {| ed_definition := None; ed_contentReference := None;
          ed_max := Some "*";
          ed_type := Some [ {| edt_code := "Reference";
                               edt_targetProfile :=
                                 Some ["http://hl7.org/fhir/StructureDefinition/Patient";
                                       "http://hl7.org/fhir/StructureDefinition/Group"] |} ];
          ed_binding := None |} |}.

(** Character-wise substitution. *)
Fixpoint substitute (f : ascii -> string) (s : string) : string :=
  match s with
  | EmptyString => EmptyString
  | String a s' => f a +:+ substitute f s'
  end.

(** The entity that stands for a character of markup, the character
    itself otherwise. *)
Definition escapeChar (a : ascii) : string :=
  if Ascii.eqb a "&" then "&amp;"
  else if Ascii.eqb a "<" then "&lt;"
  else if Ascii.eqb a ">" then "&gt;"
  else if Ascii.eqb a (ascii_of_nat 34) then "&quot;"
  else String a EmptyString.

(** Every character of [s] is below 128. *)
Fixpoint isAsciiText (s : string) : bool :=
  match s with
  | EmptyString => true
  | String a s' => (nat_of_ascii a <? 128)%nat && isAsciiText s'
  end.

(** [i] is the last index of the store at which a node named [n] sits. *)
Definition lastNamed (store : list FhirType) (n : string) (i : nat) : Prop :=
  ft_outputName <$> store !! i = Some n /\
  forall j fhirType,
    i < j -> store !! j = Some fhirType -> ft_outputName fhirType <> n.

(** The index the map gives for the parent a node names. *)
Definition parentIndex (typesMap : gmap string nat) (fhirType : FhirType)
  : option nat :=
  match ft_parentType fhirType with
  | Some parentType =>
      if Js.truthy (ft_parentType fhirType) then typesMap !! parentType else None
  | None => None
  end.

(** The indices of the nodes whose parent is found at index [j], in the
    order of the store. *)
Definition childrenOf (typesMap : gmap string nat) (store : list FhirType)
  (j : nat) : list nat :=
  map fst (filter (fun e : nat * FhirType => parentIndex typesMap e.2 = Some j)
                  (imap pair store)).

(** The store of the nested schema after the nesting pass. *)
Definition nestedStore : list FhirType :=
  match nestTypes (fhirTypesMap (foldl addType initialState nestedSchema))
                  (built nestedSchema) with
  | Done store => store
  | _ => []
  end.

(** A schema in which a type names a parent that declares nothing. *)
Definition orphanSchema : list (string * TypeSchema) :=
  [ ("Plan", {| ts_description := None; ts_parentType := None;
                ts_properties := None |});
    ("PlanStep", typeSchema (Some "Plan") [("note", typed "string" "1")]) ].

(** A type name as the schema writes the names of its complex types: an
    upper-case first letter, and none of the characters the renderings of
    the resolver add. *)
Definition complexTypeName (s : string) : bool :=
  match s with
  | EmptyString => false
  | String c _ =>
      Js.is_upper c && negb (String.eqb s "T")
      && lacks "[" s && lacks "<" s && lacks "'" s
  end.

(** The first character is below 128 and no upper-case letter, or the
    text is empty. *)
Definition startsLowerCase (s : string) : bool :=
  match s with
  | EmptyString => true
  | String c _ => (nat_of_ascii c <? 128)%nat && negb (Js.is_upper c)
  end.

(** A type without properties of its own that carries a nested type. *)
Definition shellSchema : list (string * TypeSchema) :=
  [ ("Shell", typeSchema None []);
    ("ShellPart", typeSchema (Some "Shell") [("owner", referenceTo "Organization" "1")]) ].

Definition shellStore : list FhirType :=
  match nestTypes (fhirTypesMap (foldl addType initialState shellSchema))
                  (built shellSchema) with
  | Done store => store
  | _ => []
  end.

(** The codes one inclusion rule contributes. *)
Definition includeValues (fuel : nat) (valueSets : gmap string BundleResource)
  (include : ValueSetComposeInclude) : outcome (list string) :=
  buildValueSetInclude (getValueSetValues fuel valueSets) [] include.

(** A line of a documentation block: written unwrapped at indentation
    [indent], starting with [ *] and free of markup characters. *)
Definition javadocLine (indent : Z) (line : Line) : Prop :=
  exists text,
    line = AppendNoWrap indent text /\
    Js.startsWith text " *" = true /\
    lacks "<" text = true /\ lacks ">" text = true /\
    lacks (ascii_of_nat 34) text = true.

(** A schema with an entry whose property map is empty. *)
Definition emptyEntrySchema : list (string * TypeSchema) :=
  [ ("Empty", typeSchema None []);
    ("Period", typeSchema None [("start", typed "dateTime" "1")]) ].

(** * Vocabulary of the import rules *)

(** [n] is a clean referenced name of a resolved field of one of the
    properties of [fhirType]. *)
Definition refersTo (valueSets : gmap string BundleResource)
  (fhirType : FhirType) (n : string) : Prop :=
  exists fuel property fields field,
    property ∈ ft_properties fhirType /\
    getTypeScriptProperties fuel valueSets property = Done fields /\
    field ∈ fields /\
    n ∈ cleanReferencedType (typeName field).

(** A generic type with a field declared of the type parameter itself. *)
Definition genericLinkSchema : list (string * TypeSchema) :=
  [ ("Bundle", typeSchema None [("link", typed "T" "*")]) ].

(** [b'] holds the lines of [b] followed by further lines, whatever the
    indentation. *)
Definition grows (b b' : FileBuilder) : Prop :=
  exists extra, fb_lines b' = fb_lines b ++ extra.

(** A line that is no import line: not a line at the left margin whose
    text starts with [import ]. *)
Definition notImport (line : Line) : Prop :=
  forall text, line = Append 0 text -> Js.startsWith text "import " = false.

(** [b'] is [b] with further lines, none of which is an import line, at
    the same indentation. *)
Definition emits (b b' : FileBuilder) : Prop :=
  indentCount b' = indentCount b /\
  exists extra, fb_lines b' = fb_lines b ++ extra /\ Forall notImport extra.
(** * Properties *)

(** ** The string operations on sample inputs *)

Example split_dots : Js.split "Container.item.detail" "." = ["Container"; "item"; "detail"].
Proof. reflexivity. Qed.
Example split_union : Js.split "Patient | Group" " | " = ["Patient"; "Group"].
Proof. reflexivity. Qed.
Example split_trailing : Js.split "a." "." = ["a"; ""].
Proof. reflexivity. Qed.
Example split_empty : Js.split "" "." = [""].
Proof. reflexivity. Qed.
Example replace_first : Js.replace "a[x]b[x]" "[x]" "" = "ab[x]".
Proof. reflexivity. Qed.
Example replaceAll_amp : Js.replaceAll "a<b<c" "<" "&lt;" = "a&lt;b&lt;c".
Proof. reflexivity. Qed.
Example trim_ex : Js.trim "  a b  " = "a b".
Proof. reflexivity. Qed.
Example substring_swap : Js.substring "Reference<" 10 (-1) = "Reference<".
Proof. reflexivity. Qed.
Example pop_url : Js.pop (Js.split "http://hl7.org/fhir/StructureDefinition/Patient" "/") = "Patient".
Proof. reflexivity. Qed.

(** ** Facts about the string operations *)

Lemma endsWith_unfold s p :
  Js.endsWith s p =
  String.eqb s p || match s with
                    | EmptyString => false
                    | String _ s' => Js.endsWith s' p
                    end.
Proof. destruct s; reflexivity. Qed.

Lemma endsWith_refl s : Js.endsWith s s = true.
Proof. rewrite endsWith_unfold, String.eqb_refl. reflexivity. Qed.

Lemma endsWith_app_r a b p : Js.endsWith b p = true -> Js.endsWith (a +:+ b) p = true.
Proof.
  intros Hb. induction a as [|c a IH]; [exact Hb|].
  change (String c a +:+ b) with (String c (a +:+ b)).
  rewrite endsWith_unfold, IH. apply orb_true_r.
Qed.

Lemma endsWith_suffix a p : Js.endsWith (a +:+ p) p = true.
Proof. apply endsWith_app_r, endsWith_refl. Qed.

Lemma truthy_Some o : Js.truthy o = true -> exists s, o = Some s /\ s <> "".
Proof.
  destruct o as [s|]; simpl; [|discriminate].
  intros H. exists s. split; [reflexivity|].
  intros ->. discriminate.
Qed.

(** ** Property resolver: sample resolutions *)

Example status_values :
  getValueSetValues 2 statusCorpus "http://example.org/vs/status|4.0.1"
  = Done ["active"; "inactive"; "active"; "suspended"; "inactive"].
Proof. vm_compute. reflexivity. Qed.

Example status_field :
  getTypeScriptProperties 2 statusCorpus
    (boundCode "Sample" "status" "http://example.org/vs/status" "1")
  = Done [{| name := "status";
             typeName := "'active' | 'inactive' | 'active' | 'suspended' | 'inactive'" |}].
Proof. vm_compute. reflexivity. Qed.

Example status_field_many :
  getTypeScriptProperties 2 statusCorpus
    (boundCode "Sample" "status" "http://example.org/vs/status" "*")
  = Done [{| name := "status";
             typeName := "('active' | 'inactive' | 'active' | 'suspended' | 'inactive')[]" |}].
Proof. vm_compute. reflexivity. Qed.

Example status_no_fuel :
  getTypeScriptProperties 1 statusCorpus
    (boundCode "Sample" "status" "http://example.org/vs/status" "1") = Fuel.
Proof. vm_compute. reflexivity. Qed.

(** ** Reasoning about outcomes *)

Lemma bind_Done {A B} (m : outcome A) (f : A -> outcome B) b :
  m ≫= f = Done b -> exists a, m = Done a /\ f a = Done b.
Proof. destruct m as [a| |]; simpl; [eauto|discriminate|discriminate]. Qed.

Lemma mapM_Done_elem {A B} (f : A -> outcome B) l ys :
  mapM f l = Done ys ->
  forall y, y ∈ ys -> exists x, x ∈ l /\ f x = Done y.
Proof.
  revert ys. induction l as [|x l IH]; intros ys H y Hy; simpl in H.
  - injection H as <-. inversion Hy.
  - apply bind_Done in H as (y0 & Hx & H).
    apply bind_Done in H as (ys0 & Hl & H).
    injection H as <-.
    apply elem_of_cons in Hy as [->|Hy].
    + exists x. split; [left|exact Hx].
    + destruct (IH _ Hl _ Hy) as (x' & Hin & Hf).
      exists x'. split; [right; exact Hin|exact Hf].
Qed.

Lemma mapM_Done_length {A B} (f : A -> outcome B) l ys :
  mapM f l = Done ys -> length ys = length l.
Proof.
  revert ys. induction l as [|x l IH]; intros ys H; simpl in H.
  - injection H as <-. reflexivity.
  - apply bind_Done in H as (y0 & Hx & H).
    apply bind_Done in H as (ys0 & Hl & H).
    injection H as <-. simpl. f_equal. exact (IH _ Hl).
Qed.

(** ** Splitting and joining *)

Lemma append_nil_r s : s +:+ "" = s.
Proof.
  induction s as [|a s IH]; [reflexivity|].
  change (String a (s +:+ "") = String a s). f_equal. exact IH.
Qed.

Lemma append_assoc s t u : (s +:+ t) +:+ u = s +:+ (t +:+ u).
Proof.
  induction s as [|a s IH]; [reflexivity|].
  change (String a ((s +:+ t) +:+ u) = String a (s +:+ (t +:+ u))).
  f_equal. exact IH.
Qed.

Lemma prefix_nil s : String.prefix "" s = true.
Proof. destruct s; reflexivity. Qed.

Lemma prefix_app p rest : String.prefix p (p +:+ rest) = true.
Proof.
  induction p as [|a p IH]; [apply prefix_nil|].
  change (String a p +:+ rest) with (String a (p +:+ rest)). cbn [String.prefix].
  destruct (ascii_dec a a) as [_|Hne]; [exact IH|contradiction].
Qed.

Lemma prefix_head c p a s : a <> c -> String.prefix (String c p) (String a s) = false.
Proof.
  intros Hne. cbn [String.prefix].
  destruct (ascii_dec c a) as [->|_]; [contradiction|reflexivity].
Qed.

Lemma lacks_cons c a s : lacks c (String a s) = true -> a <> c /\ lacks c s = true.
Proof.
  cbn [lacks]. intros H. apply andb_true_iff in H as [Ha Hs]. split; [|exact Hs].
  intros ->. rewrite Ascii.eqb_refl in Ha. discriminate Ha.
Qed.

Lemma lacks_app c s t : lacks c (s +:+ t) = lacks c s && lacks c t.
Proof.
  induction s as [|a s IH]; [reflexivity|].
  change (String a s +:+ t) with (String a (s +:+ t)). cbn [lacks].
  rewrite IH, andb_assoc. reflexivity.
Qed.

Lemma split_aux_skip sep : forall s acc rest,
  Js.split_aux sep (String.length s) acc (s +:+ rest) = Js.split_aux sep 0 acc rest.
Proof.
  induction s as [|a s IH]; intros acc rest; [reflexivity|].
  change (String a s +:+ rest) with (String a (s +:+ rest)).
  cbn [String.length Js.split_aux]. apply IH.
Qed.

Lemma split_aux_segment c sep' : forall seg acc rest,
  lacks c seg = true ->
  Js.split_aux (String c sep') 0 acc (seg +:+ rest)
  = Js.split_aux (String c sep') 0 (acc +:+ seg) rest.
Proof.
  induction seg as [|a seg IH]; intros acc rest Hl.
  - change ("" +:+ rest) with rest. rewrite append_nil_r. reflexivity.
  - apply lacks_cons in Hl as [Hne Hl].
    change (String a seg +:+ rest) with (String a (seg +:+ rest)).
    cbn [Js.split_aux]. rewrite (prefix_head _ _ _ _ Hne).
    rewrite (IH _ _ Hl), append_assoc. reflexivity.
Qed.

Lemma split_aux_separator c sep' acc rest :
  Js.split_aux (String c sep') 0 acc (String c sep' +:+ rest)
  = acc :: Js.split_aux (String c sep') 0 "" rest.
Proof.
  change (String c sep' +:+ rest) with (String c (sep' +:+ rest)).
  cbn [Js.split_aux].
  change (String c (sep' +:+ rest)) with (String c sep' +:+ rest).
  rewrite prefix_app. f_equal.
  replace (String.length (String c sep') - 1) with (String.length sep')
    by (cbn [String.length]; lia).
  apply split_aux_skip.
Qed.

Lemma split_aux_join c sep' : forall more seg acc,
  Forall (fun s => lacks c s = true) (seg :: more) ->
  Js.split_aux (String c sep') 0 acc (Js.join (seg :: more) (String c sep'))
  = (acc +:+ seg) :: more.
Proof.
  unfold Js.join.
  induction more as [|next more IH]; intros seg acc Hall.
  - apply Forall_cons in Hall as [Hseg _].
    change (String.concat (String c sep') [seg]) with seg.
    rewrite <- (append_nil_r seg) at 1.
    rewrite (split_aux_segment _ _ _ _ _ Hseg). reflexivity.
  - apply Forall_cons in Hall as [Hseg Hall].
    change (String.concat (String c sep') (seg :: next :: more))
      with (seg +:+ (String c sep' +:+ String.concat (String c sep') (next :: more))).
    rewrite (split_aux_segment _ _ _ _ _ Hseg), split_aux_separator.
    rewrite (IH _ _ Hall). reflexivity.
Qed.

(** Splitting what was joined gives the pieces back, when no piece holds
    the first character of the separator. *)
Lemma split_join c sep' seg more :
  Forall (fun s => lacks c s = true) (seg :: more) ->
  Js.split (Js.join (seg :: more) (String c sep')) (String c sep') = seg :: more.
Proof. intros Hall. unfold Js.split. rewrite (split_aux_join _ _ _ _ _ Hall). reflexivity. Qed.

Lemma includes_lacks c p s : lacks c s = true -> Js.includes s (String c p) = false.
Proof.
  induction s as [|a s IH]; intros Hl; [reflexivity|].
  apply lacks_cons in Hl as [Hne Hl].
  cbn [Js.includes]. rewrite (prefix_head _ _ _ _ Hne), (IH Hl). reflexivity.
Qed.

Lemma includes_unfold s p :
  Js.includes s p
  = String.prefix p s || match s with
                         | EmptyString => false
                         | String _ s' => Js.includes s' p
                         end.
Proof. destruct s; reflexivity. Qed.

Lemma includes_app_r s p rest : Js.includes (s +:+ p +:+ rest) p = true.
Proof.
  induction s as [|a s IH].
  - change ("" +:+ p +:+ rest) with (p +:+ rest).
    rewrite includes_unfold, prefix_app. reflexivity.
  - change (String a s +:+ p +:+ rest) with (String a (s +:+ p +:+ rest)).
    rewrite includes_unfold, IH. apply orb_true_r.
Qed.

(** ** The name a content reference stands for *)

Lemma replace_unfold s pat rep :
  Js.replace s pat rep
  = if String.prefix pat s then rep +:+ Js.drop (String.length pat) s
    else match s with
         | EmptyString => EmptyString
         | String c s' => String c (Js.replace s' pat rep)
         end.
Proof. destruct s; reflexivity. Qed.

Lemma contentReferenceName_path seg more :
  Forall (fun s => lacks "." s = true) (seg :: more) ->
  contentReferenceName ("#" +:+ Js.join (seg :: more) ".")
  = Js.join (map capitalize (seg :: more)) "".
Proof.
  intros Hall. unfold contentReferenceName.
  rewrite replace_unfold, prefix_app.
  change ("" +:+ Js.drop (String.length "#") ("#" +:+ Js.join (seg :: more) "."))
    with (Js.join (seg :: more) ".").
  rewrite (split_join "." "" _ _ Hall). reflexivity.
Qed.

(** ** Content references (C1, C2) *)

Lemma isGenericResource_spec property :
  isGenericResource property = true <->
  p_name property = "resource" /\
  p_resourceType property ∈ ["BundleEntry"; "OperationOutcome"; "Reference"].
Proof.
  unfold isGenericResource, oneOf, genericResourceOwners. cbn [existsb].
  rewrite andb_true_iff, !orb_true_iff, !String.eqb_eq, !elem_of_cons, elem_of_nil.
  intuition discriminate.
Qed.

Lemma isBundleEntry_spec property :
  isBundleEntry property = true <->
  p_resourceType property = "Bundle" /\ p_name property = "entry".
Proof.
  unfold isBundleEntry. rewrite andb_true_iff, !String.eqb_eq. reflexivity.
Qed.

(** C1, as the code has it: the resolver has no validation and no error
    path for a content reference or a generic-carrier pair. Whatever the
    path or pair, it returns exactly one declaration, named after the
    property. Its type is [T] for [resource] on one of the three owners,
    [BundleEntry<T>[]] for [Bundle.entry], and otherwise the name the
    content reference stands for, followed by [[]] when max is [*]; for a
    reference [#] followed by dot-separated segments that name is the
    segments, each capitalized, put together. *)
Theorem convention_never_aborts fuel valueSets property :
  conventionHandled property ->
  exists field,
    getTypeScriptProperties fuel valueSets property = Done [field] /\
    name field = p_name property /\
    typeName field
    = (if decide (p_name property = "resource" /\
                  p_resourceType property
                    ∈ ["BundleEntry"; "OperationOutcome"; "Reference"])
       then "T"
       else if decide (p_resourceType property = "Bundle" /\
                       p_name property = "entry")
       then "BundleEntry<T>[]"
       else contentReferenceName
              (default "" (ed_contentReference (p_definition property)))
            +:+ (if decide (ed_max (p_definition property) = Some "*")
                 then "[]" else "")) /\
    forall seg more,
      ed_contentReference (p_definition property)
        = Some ("#" +:+ Js.join (seg :: more) ".") ->
      Forall (fun s => lacks "." s = true) (seg :: more) ->
      contentReferenceName
        (default "" (ed_contentReference (p_definition property)))
      = String.concat "" (map capitalize (seg :: more)).
Proof.
  intros H.
  assert (forall seg more,
            ed_contentReference (p_definition property)
              = Some ("#" +:+ Js.join (seg :: more) ".") ->
            Forall (fun s => lacks "." s = true) (seg :: more) ->
            contentReferenceName
              (default "" (ed_contentReference (p_definition property)))
            = String.concat "" (map capitalize (seg :: more))) as Hpath.
  { intros seg more -> Hall. exact (contentReferenceName_path seg more Hall). }
  unfold getTypeScriptProperties.
  destruct (isGenericResource property) eqn:Hg.
  { pose proof (proj1 (isGenericResource_spec property) Hg) as Hspec.
    eexists. split; [reflexivity|]. cbn [name typeName].
    rewrite decide_True by exact Hspec.
    split; [symmetry; apply Hspec|]. split; [reflexivity|exact Hpath]. }
  assert (~ (p_name property = "resource" /\
             p_resourceType property
               ∈ ["BundleEntry"; "OperationOutcome"; "Reference"])) as Hng.
  { intros Hspec. apply isGenericResource_spec in Hspec. congruence. }
  destruct (isBundleEntry property) eqn:Hb.
  { pose proof (proj1 (isBundleEntry_spec property) Hb) as Hspec.
    eexists. split; [reflexivity|]. cbn [name typeName].
    rewrite decide_False by exact Hng. rewrite decide_True by exact Hspec.
    split; [symmetry; apply Hspec|]. split; [reflexivity|exact Hpath]. }
  assert (~ (p_resourceType property = "Bundle" /\ p_name property = "entry"))
    as Hnb.
  { intros Hspec. apply isBundleEntry_spec in Hspec. congruence. }
  destruct H as [H|[H|H]]; [|congruence|congruence].
  rewrite H. eexists. split; [reflexivity|]. cbn [name typeName].
  rewrite decide_False by exact Hng. rewrite decide_False by exact Hnb.
  split; [reflexivity|]. split; [|exact Hpath].
  unfold isMany. destruct (decide (ed_max (p_definition property) = Some "*")) as [E|E].
  - rewrite bool_decide_eq_true_2 by exact E. reflexivity.
  - rewrite bool_decide_eq_false_2 by exact E. rewrite append_nil_r. reflexivity.
Qed.

Lemma convention_never_aborts_witness :
  conventionHandled containerItem /\
  exists field,
    getTypeScriptProperties 0 ∅ containerItem = Done [field] /\
    name field = "item" /\
    typeName field
    = contentReferenceName "#Container.item.detail" +:+ "[]" /\
    forall seg more,
      ed_contentReference (p_definition containerItem)
        = Some ("#" +:+ Js.join (seg :: more) ".") ->
      Forall (fun s => lacks "." s = true) (seg :: more) ->
      contentReferenceName
        (default "" (ed_contentReference (p_definition containerItem)))
      = String.concat "" (map capitalize (seg :: more)).
Proof.
  split; [left; reflexivity|].
  apply (convention_never_aborts 0 ∅ containerItem). left. reflexivity.
Defined.

(** C1 fails as stated: a content reference with an empty path matches no
    fragment, yet the resolver returns a declaration (with an empty type
    name) and raises nothing. *)
Lemma unmatched_reference_is_emitted :
  getTypeScriptProperties 0 ∅ danglingItem
    = Done [{| name := "item"; typeName := "" |}] /\
  ~ (exists what, getTypeScriptProperties 0 ∅ danglingItem = Raise what).
Proof.
  assert (getTypeScriptProperties 0 ∅ danglingItem
          = Done [{| name := "item"; typeName := "" |}]) as E by reflexivity.
  split; [exact E|]. rewrite E. intros [what H]. discriminate H.
Qed.

(** C2 fails as stated: every segment of the path takes part in the name,
    so the field is a sequence of [ContainerItemDetail], not of
    [ContainerItem]. *)
Lemma container_item_is_not_ContainerItem :
  getTypeScriptProperties 0 ∅ containerItem
    <> Done [{| name := "item"; typeName := "ContainerItem[]" |}] /\
  getTypeScriptProperties 0 ∅ containerItem
    = Done [{| name := "item"; typeName := "ContainerItemDetail[]" |}].
Proof.
  assert (getTypeScriptProperties 0 ∅ containerItem
          = Done [{| name := "item"; typeName := "ContainerItemDetail[]" |}])
    as E by reflexivity.
  split; [|exact E]. rewrite E. intros H. discriminate H.
Qed.

(** C2, as the code has it: a property [item] with upper cardinality [*]
    and content reference [#Container.item.detail] resolves to exactly one
    field [item] whose type is the sequence of the name built from all the
    segments of the path. *)
Theorem content_reference_item fuel valueSets property :
  p_name property = "item" ->
  ed_max (p_definition property) = Some "*" ->
  ed_contentReference (p_definition property) = Some "#Container.item.detail" ->
  getTypeScriptProperties fuel valueSets property
    = Done [{| name := "item"; typeName := "ContainerItemDetail[]" |}].
Proof.
  intros Hn Hmax Href. unfold getTypeScriptProperties.
  unfold isGenericResource, isBundleEntry, isMany.
  rewrite Hn, Href, Hmax. simpl String.eqb. rewrite andb_false_r. simpl.
  reflexivity.
Qed.

Lemma content_reference_item_witness :
  getTypeScriptProperties 3 ∅ containerItem
    = Done [{| name := "item"; typeName := "ContainerItemDetail[]" |}].
Proof.
  apply (content_reference_item 3 ∅ containerItem); reflexivity.
Defined.

(** ** Cardinality (C7) *)

Lemma withCardinality_many d base :
  isMany d = true ->
  sequenceOf base (withCardinality d base) /\
  Js.endsWith (withCardinality d base) "[]" = true.
Proof.
  intros H. unfold withCardinality, sequenceOf. rewrite H.
  destruct (Js.includes base "' | '") eqn:Hi.
  - split; [right; split; reflexivity|].
    apply endsWith_app_r. apply (endsWith_app_r base ")[]" "[]"). reflexivity.
  - split; [left; split; reflexivity|]. apply endsWith_suffix.
Qed.

Lemma withCardinality_one d base : isMany d = false -> withCardinality d base = base.
Proof. intros H. unfold withCardinality. rewrite H. reflexivity. Qed.

(** C7 fails as stated: the generic-carrier rule ignores the cardinality.
    [Bundle.entry] declared 0..1 still resolves to a sequence. *)
Lemma bundle_entry_ignores_cardinality :
  ed_max (p_definition bundleEntryOne) = Some "1" /\
  getTypeScriptProperties 0 ∅ bundleEntryOne
    = Done [{| name := "entry"; typeName := "BundleEntry<T>[]" |}] /\
  Js.endsWith "BundleEntry<T>[]" "[]" = true.
Proof. repeat split. Qed.

(** C7, as the code has it: for a property the generic-carrier rule does
    not take, every resolved field has a base type (the name its content
    reference stands for, or the mapping of one of its declared types).
    When max is [*] the field type is the sequence wrapper of the base
    type: for a content reference the base followed by [[]]; for a
    declared type the base followed by [[]] when it holds no [' | '], and
    the parenthesized base followed by [[]] when it does. Otherwise the
    field type is the base type itself, with nothing appended. *)
Theorem cardinality_faithful fuel valueSets property fields :
  isGenericResource property = false ->
  isBundleEntry property = false ->
  getTypeScriptProperties fuel valueSets property = Done fields ->
  forall field, field ∈ fields ->
  exists base,
    resolvesTo fuel valueSets property base /\
    if decide (ed_max (p_definition property) = Some "*")
    then (if Js.truthy (ed_contentReference (p_definition property))
          then typeName field = base +:+ "[]"
          else sequenceOf base (typeName field)) /\
         Js.endsWith (typeName field) "[]" = true
    else typeName field = base.
Proof.
  intros Hg Hb H field Hin. unfold getTypeScriptProperties in H.
  rewrite Hg, Hb in H.
  assert (isMany (p_definition property)
          = if decide (ed_max (p_definition property) = Some "*")
            then true else false) as Hmany.
  { unfold isMany. destruct (decide (ed_max (p_definition property) = Some "*")) as [E|E].
    - apply bool_decide_eq_true_2, E.
    - apply bool_decide_eq_false_2, E. }
  destruct (Js.truthy (ed_contentReference (p_definition property))) eqn:Hc.
  { injection H as <-. apply list_elem_of_singleton in Hin as ->. cbn [typeName].
    eexists. split; [left; split; [exact Hc|reflexivity]|].
    rewrite Hmany.
    destruct (decide (ed_max (p_definition property) = Some "*")).
    - split; [reflexivity|apply endsWith_suffix].
    - reflexivity. }
  assert (forall alternatives alternative typeName0,
            ed_type (p_definition property) = Some alternatives ->
            alternative ∈ alternatives ->
            getTypeScriptTypeForProperty fuel valueSets property alternative
              = Done typeName0 ->
            exists base,
              resolvesTo fuel valueSets property base /\
              if decide (ed_max (p_definition property) = Some "*")
              then sequenceOf base typeName0 /\ Js.endsWith typeName0 "[]" = true
              else typeName0 = base) as Hone.
  { intros alts alt tn Halts Halt Htn.
    unfold getTypeScriptTypeForProperty in Htn.
    apply bind_Done in Htn as (base & Hbase & Htn). injection Htn as <-.
    exists base. split.
    - right. split; [exact Hc|]. exists alts, alt. auto.
    - destruct (decide (ed_max (p_definition property) = Some "*")).
      + apply withCardinality_many, Hmany.
      + apply withCardinality_one, Hmany. }
  destruct (Js.endsWith (p_name property) "[x]").
  - destruct (ed_type (p_definition property)) as [alts|] eqn:Halts;
      [|discriminate H].
    destruct (mapM_Done_elem _ _ _ H _ Hin) as (alt & Halt & Hf).
    apply bind_Done in Hf as (tn & Htn & Hf). injection Hf as <-. cbn [typeName].
    exact (Hone _ _ _ eq_refl Halt Htn).
  - destruct (ed_type (p_definition property)) as [[|alt alts]|] eqn:Halts;
      [discriminate H| |discriminate H].
    apply bind_Done in H as (tn & Htn & H). injection H as <-.
    apply list_elem_of_singleton in Hin as ->. cbn [typeName].
    refine (Hone _ _ _ eq_refl _ Htn). left.
Qed.

Lemma cardinality_faithful_witness :
  getTypeScriptProperties 2 statusCorpus
    (boundCode "Sample" "status" "http://example.org/vs/status" "*")
  = Done [{| name := "status";
             typeName := "('active' | 'inactive' | 'active' | 'suspended' | 'inactive')[]" |}] /\
  exists base,
    resolvesTo 2 statusCorpus
      (boundCode "Sample" "status" "http://example.org/vs/status" "*") base /\
    sequenceOf base
      "('active' | 'inactive' | 'active' | 'suspended' | 'inactive')[]" /\
    Js.endsWith
      "('active' | 'inactive' | 'active' | 'suspended' | 'inactive')[]" "[]" = true.
Proof.
  assert (getTypeScriptProperties 2 statusCorpus
            (boundCode "Sample" "status" "http://example.org/vs/status" "*")
          = Done [{| name := "status";
                     typeName := "('active' | 'inactive' | 'active' | 'suspended' | 'inactive')[]" |}])
    as Hrun by (vm_compute; reflexivity).
  split; [exact Hrun|].
  exact (cardinality_faithful 2 statusCorpus
           (boundCode "Sample" "status" "http://example.org/vs/status" "*")
           _ eq_refl eq_refl Hrun _ (list_elem_of_here _ _)).
Defined.

(** ** Enumeration substitution (C3, C8) *)

Lemma literalUnion_three a b c :
  literalUnion [a; b; c] = "'" +:+ (a +:+ "' | '" +:+ b +:+ "' | '" +:+ c) +:+ "'".
Proof. reflexivity. Qed.

(** Explicitly listed codes are appended in order, one entry per listed
    code: nothing is dropped but empty codes, nothing is merged. *)
Lemma pushConceptCodes result concepts :
  foldl pushConceptCode result concepts
  = result ++ omap (fun c => if Js.truthy (vsc_code c) then vsc_code c else None)
                   concepts.
Proof.
  revert result. induction concepts as [|c cs IH]; intros result; simpl.
  - rewrite app_nil_r. reflexivity.
  - rewrite IH. unfold pushConceptCode.
    destruct (vsc_code c) as [v|]; [|reflexivity].
    destruct (Js.truthy (Some v)); [|reflexivity].
    rewrite <- app_assoc. reflexivity.
Qed.

(** The resolver is monotone in its recursive call. *)
Section ValueSetMono.
Variables g1 g2 : string -> outcome (list string).
Hypothesis g12 : forall url values, g1 url = Done values -> g2 url = Done values.

Lemma buildValueSetInclude_mono result include r :
  buildValueSetInclude g1 result include = Done r ->
  buildValueSetInclude g2 result include = Done r.
Proof.
  unfold buildValueSetInclude.
  destruct (vsi_concept include); [auto|].
  destruct (vsi_system include) as [system|]; [|auto].
  destruct (Js.truthy (Some system)); [|auto].
  intros H. apply bind_Done in H as (vals & Hv & H).
  rewrite (g12 _ _ Hv). exact H.
Qed.

Lemma buildValueSetIncludes_mono includes : forall result r,
  foldM (buildValueSetInclude g1) result includes = Done r ->
  foldM (buildValueSetInclude g2) result includes = Done r.
Proof.
  induction includes as [|inc includes IH]; intros result r H; [exact H|].
  cbn [foldM] in *. apply bind_Done in H as (r1 & H1 & H2).
  rewrite (buildValueSetInclude_mono _ _ _ H1). exact (IH _ _ H2).
Qed.

Lemma buildValueSetValues_mono valueSets url result r :
  buildValueSetValues g1 valueSets url result = Done r ->
  buildValueSetValues g2 valueSets url result = Done r.
Proof.
  unfold buildValueSetValues, buildValueSetComposeValues.
  destruct (valueSets !! stripVersion url) as [[u cs|u compose|rt]|]; auto.
  destruct compose as [[[includes|]]|]; auto.
  apply buildValueSetIncludes_mono.
Qed.
End ValueSetMono.

(** More fuel does not change a result. *)
Lemma getValueSetValues_fuel_mono valueSets fuel :
  forall url values,
    getValueSetValues fuel valueSets url = Done values ->
    getValueSetValues (S fuel) valueSets url = Done values.
Proof.
  induction fuel as [|fuel IH]; intros url values H; [discriminate H|].
  change (buildValueSetValues (getValueSetValues (S fuel) valueSets)
            valueSets url [] = Done values).
  change (buildValueSetValues (getValueSetValues fuel valueSets)
            valueSets url [] = Done values) in H.
  exact (buildValueSetValues_mono _ _ IH _ _ _ _ H).
Qed.

(** C3 fails as stated: the resource-types value set flattens to a
    non-empty code list, yet a required binding to it resolves to the name
    [ResourceType], not to the literal union of the codes. *)
Lemma resource_types_binding_is_not_a_union :
  getValueSetValues 1 resourceTypesCorpus
    "http://hl7.org/fhir/ValueSet/resource-types|4.0.1"
    = Done ["Patient"; "Observation"] /\
  getTypeScriptTypeForProperty 1 resourceTypesCorpus
    (boundCode "Sample" "kind"
       "http://hl7.org/fhir/ValueSet/resource-types|4.0.1" "1") codeType
    = Done "ResourceType" /\
  getTypeScriptTypeForProperty 1 resourceTypesCorpus
    (boundCode "Sample" "kind"
       "http://hl7.org/fhir/ValueSet/resource-types|4.0.1" "1") codeType
    <> Done "'Patient' | 'Observation'".
Proof.
  assert (getTypeScriptTypeForProperty 1 resourceTypesCorpus
            (boundCode "Sample" "kind"
               "http://hl7.org/fhir/ValueSet/resource-types|4.0.1" "1") codeType
          = Done "ResourceType") as E by (vm_compute; reflexivity).
  split; [vm_compute; reflexivity|]. split; [exact E|].
  rewrite E. intros H. discriminate H.
Qed.

Lemma oneOf_elem s l : oneOf s l = true <-> s ∈ l.
Proof.
  unfold oneOf. induction l as [|x l IH]; cbn [existsb].
  - rewrite elem_of_nil. split; [discriminate|contradiction].
  - rewrite orb_true_iff, IH, String.eqb_eq, elem_of_cons. reflexivity.
Qed.

Lemma requiredValueSet_binding d url :
  ed_binding d = Some {| edb_strength := Some "required"; edb_valueSet := Some url |} ->
  url <> "" ->
  requiredValueSet d = Some url.
Proof.
  intros Hb Hne. unfold requiredValueSet. rewrite Hb. cbn [edb_valueSet edb_strength].
  apply String.eqb_neq in Hne. cbn [Js.truthy]. rewrite Hne. reflexivity.
Qed.

(** Two codes or more: the union text holds the separator. *)
Lemma union_of_several a b rest :
  Js.includes ("'" +:+ String.concat "' | '" (a :: b :: rest) +:+ "'") "' | '" = true.
Proof.
  change (String.concat "' | '" (a :: b :: rest))
    with (a +:+ "' | '" +:+ String.concat "' | '" (b :: rest)).
  rewrite !append_assoc.
  rewrite <- (append_assoc "'" a). apply includes_app_r.
Qed.

Lemma includes_closing_quote p a :
  lacks "'" a = true ->
  Js.includes (a +:+ "'") (String "'" (String " " p)) = false.
Proof.
  induction a as [|c a IH]; intros Hl; [reflexivity|].
  apply lacks_cons in Hl as [Hne Hl].
  change (String c a +:+ "'") with (String c (a +:+ "'")).
  rewrite includes_unfold, (prefix_head _ _ _ _ Hne), (IH Hl). reflexivity.
Qed.

(** A single code without quote or space: the union text holds no
    separator. *)
Lemma union_of_one a :
  lacks "'" a = true -> lacks " " a = true ->
  Js.includes ("'" +:+ String.concat "' | '" [a] +:+ "'") "' | '" = false.
Proof.
  intros Hq Hs. change (String.concat "' | '" [a]) with a.
  change ("'" +:+ a +:+ "'") with (String "'" (a +:+ "'")).
  rewrite includes_unfold, (includes_closing_quote _ a Hq), orb_false_r.
  cbn [String.prefix]. destruct (ascii_dec "'" "'") as [_|E]; [|contradiction].
  destruct a as [|c a]; [reflexivity|].
  apply lacks_cons in Hs as [Hne _].
  change (String c a +:+ "'") with (String c (a +:+ "'")).
  apply prefix_head. exact Hne.
Qed.

(** C3, as the code has it: for a string-flavoured type code with a
    required binding to a url other than the three exempted ones, whose
    value set flattens to a non-empty code list, the type is the literal
    union of those codes, each between single quotes, in that order and
    with duplicates kept, separated by [ | ]. When max is [*] the union is
    followed by [[]], parenthesized first when its text holds [' | ']:
    always so with two codes or more, never so with a single code free of
    quote and space. *)
Theorem enumeration_substitution fuel valueSets property typeDefinition url values :
  edt_code typeDefinition
    ∈ ["base64Binary"; "canonical"; "code"; "id"; "markdown"; "oid"; "string";
       "uri"; "url"; "uuid"; "xhtml"; "http://hl7.org/fhirpath/System.String"] ->
  ed_binding (p_definition property)
    = Some {| edb_strength := Some "required"; edb_valueSet := Some url |} ->
  url <> "" ->
  url <> "http://hl7.org/fhir/ValueSet/resource-types|4.0.1" ->
  url <> "http://hl7.org/fhir/ValueSet/all-types|4.0.1" ->
  url <> "http://hl7.org/fhir/ValueSet/defined-types|4.0.1" ->
  getValueSetValues fuel valueSets url = Done values ->
  values <> [] ->
  let union := "'" +:+ String.concat "' | '" values +:+ "'" in
  getTypeScriptTypeForProperty fuel valueSets property typeDefinition
    = Done (if decide (ed_max (p_definition property) = Some "*")
            then if Js.includes union "' | '"
                 then "(" +:+ union +:+ ")[]" else union +:+ "[]"
            else union) /\
  (2 <= length values -> Js.includes union "' | '" = true) /\
  (forall a, values = [a] -> lacks "'" a = true -> lacks " " a = true ->
             Js.includes union "' | '" = false).
Proof.
  intros Hcode Hbinding Hurl H1 H2 H3 Hvals Hne union.
  split; [|split].
  - unfold getTypeScriptTypeForProperty, baseTypeOf.
    rewrite (proj2 (oneOf_elem _ stringCodes) Hcode).
    unfold stringBaseType.
    rewrite (requiredValueSet_binding _ _ Hbinding Hurl).
    apply String.eqb_neq in H1, H2, H3.
    unfold resourceTypesUrl, allTypesUrl, definedTypesUrl.
    rewrite H1, H2, H3. cbn [negb andb]. cbv iota. rewrite Hvals.
    destruct values as [|v values]; [contradiction|].
    cbn [mbind outcome_bind]. unfold withCardinality, isMany.
    change (literalUnion (v :: values)) with union.
    destruct (decide (ed_max (p_definition property) = Some "*")) as [E|E].
    + rewrite bool_decide_eq_true_2 by exact E. reflexivity.
    + rewrite bool_decide_eq_false_2 by exact E. reflexivity.
  - intros Hlen. destruct values as [|a [|b rest]]; cbn [length] in Hlen; [lia|lia|].
    apply union_of_several.
  - intros a -> Hq Hs. exact (union_of_one a Hq Hs).
Qed.

Lemma enumeration_substitution_witness :
  getTypeScriptTypeForProperty 2 statusCorpus
    (boundCode "Sample" "status" "http://example.org/vs/status" "*") codeType
  = Done "('active' | 'inactive' | 'active' | 'suspended' | 'inactive')[]".
Proof.
  apply (enumeration_substitution 2 statusCorpus
           (boundCode "Sample" "status" "http://example.org/vs/status" "*")
           codeType "http://example.org/vs/status"
           ["active"; "inactive"; "active"; "suspended"; "inactive"]).
  - repeat constructor.
  - reflexivity.
  - intros H; discriminate H.
  - intros H; discriminate H.
  - intros H; discriminate H.
  - intros H; discriminate H.
  - vm_compute. reflexivity.
  - intros H; discriminate H.
Defined.

(** C8 fails as stated: a required binding to the resource-types url
    resolves to [ResourceType] even when the corpus does not hold that
    url. *)
Lemma absent_resource_types_is_not_string :
  (∅ : gmap string BundleResource) !! stripVersion resourceTypesUrl = None /\
  getTypeScriptTypeForProperty 1 ∅
    (boundCode "Sample" "kind" resourceTypesUrl "1") codeType
    = Done "ResourceType" /\
  getTypeScriptTypeForProperty 1 ∅
    (boundCode "Sample" "kind" resourceTypesUrl "1") codeType
    <> Done "string".
Proof.
  assert (getTypeScriptTypeForProperty 1 ∅
            (boundCode "Sample" "kind" resourceTypesUrl "1") codeType
          = Done "ResourceType") as E by (vm_compute; reflexivity).
  split; [apply lookup_empty|]. split; [exact E|].
  rewrite E. intros H. discriminate H.
Qed.

(** C8, as the code has it: for a string-flavoured type code with a
    required binding to a url other than the resource-types one, when the
    url is absent from the corpus or flattens to no code, the resolver
    returns normally and the base type is [string], to which the
    cardinality wrapper is applied. *)
Theorem unresolved_enumeration_is_string fuel valueSets property typeDefinition url :
  oneOf (edt_code typeDefinition) stringCodes = true ->
  requiredValueSet (p_definition property) = Some url ->
  url <> resourceTypesUrl ->
  valueSets !! stripVersion url = None \/
    getValueSetValues (S fuel) valueSets url = Done [] ->
  getTypeScriptTypeForProperty (S fuel) valueSets property typeDefinition
    = Done (withCardinality (p_definition property) "string").
Proof.
  intros Hcode Hreq H1 Hcase.
  assert (getValueSetValues (S fuel) valueSets url = Done []) as Hvals.
  { destruct Hcase as [Habsent|Hzero]; [|exact Hzero].
    simpl. unfold buildValueSetValues. rewrite Habsent. reflexivity. }
  unfold getTypeScriptTypeForProperty, baseTypeOf. rewrite Hcode.
  unfold stringBaseType. rewrite Hreq.
  apply String.eqb_neq in H1. rewrite H1.
  destruct (negb (url =? allTypesUrl)%string && negb (url =? definedTypesUrl)%string);
    [|reflexivity].
  rewrite Hvals. reflexivity.
Qed.

Lemma unresolved_enumeration_is_string_witness :
  getTypeScriptTypeForProperty 1 statusCorpus
    (boundCode "Sample" "status" "http://example.org/vs/unknown|4.0.1" "*") codeType
  = Done (withCardinality
            (p_definition (boundCode "Sample" "status" "http://example.org/vs/unknown|4.0.1" "*"))
            "string").
Proof.
  apply (unresolved_enumeration_is_string 0 statusCorpus
           (boundCode "Sample" "status" "http://example.org/vs/unknown|4.0.1" "*")
           codeType "http://example.org/vs/unknown|4.0.1").
  - reflexivity.
  - reflexivity.
  - intros H; discriminate H.
  - left. vm_compute. reflexivity.
Defined.

(** ** Underscore properties (C10) *)

Lemma addProperty_foldl resourceType entries : forall acc,
  foldl (addProperty resourceType) acc entries
  = (acc.1 ++ map (propertyOf resourceType) (List.filter keepsProperty entries),
     keptNames entries ∪ acc.2).
Proof.
  unfold keptNames.
  induction entries as [|[n d] entries IH]; intros [ps names].
  - simpl. rewrite app_nil_r. f_equal. set_solver.
  - cbn [foldl List.filter]. rewrite IH.
    change (keepsProperty (n, d)) with (negb (Js.startsWith n "_")).
    unfold addProperty.
    destruct (Js.startsWith n "_"); cbn [negb fst snd map]; [reflexivity|].
    rewrite <- app_assoc. f_equal. set_solver.
Qed.



Example shadowed_built :
  buildType "Shadowed" shadowedSchema
  = Some {| ft_definition := shadowedSchema; ft_inputName := "Shadowed";
            ft_parentType := None; ft_outputName := "Shadowed";
            ft_properties := [propertyOf "Shadowed" ("id", stringProperty)];
            ft_subTypes := []; ft_resource := false; ft_domainResource := false |}.
Proof. vm_compute. reflexivity. Qed.


(** ** Import resolver (C5, C6) *)

Lemma foldM_Done_cons {A B} (f : B -> A -> outcome B) b x l r :
  foldM f b (x :: l) = Done r -> exists b', f b x = Done b' /\ foldM f b' l = Done r.
Proof. simpl. apply bind_Done. Qed.

Lemma buildImports_included valueSets store : forall fuel id sets sets',
  buildImports fuel valueSets store id sets = Done sets' ->
  sets.1 ⊆ sets'.1 /\
  forall id' fhirType',
    inUnit store id id' -> store !! id' = Some fhirType' ->
    ft_outputName fhirType' ∈ sets'.1.
Proof.
  induction fuel as [|fuel IH]; intros id sets sets' H; [discriminate H|].
  cbn [buildImports] in H.
  destruct (store !! id) as [fhirType|] eqn:Hid; [|discriminate H].
  apply bind_Done in H as (referenced & _ & H).
  apply bind_Done in H as (s2 & Hsubs & H). injection H as <-. cbn [fst].
  assert (forall subs s0 s2,
            foldM (fun s subType => buildImports fuel valueSets store subType s) s0 subs
              = Done s2 ->
            s0.1 ⊆ s2.1 /\
            forall subType, subType ∈ subs ->
              forall id' fhirType',
                inUnit store subType id' -> store !! id' = Some fhirType' ->
                ft_outputName fhirType' ∈ s2.1) as Hloop.
  { clear -IH. induction subs as [|sub subs IHs]; intros s0 s2 H.
    - injection H as <-. split; [reflexivity|]. intros ? Hin. inversion Hin.
    - apply foldM_Done_cons in H as (s1 & H1 & H2).
      destruct (IH _ _ _ H1) as [Hmono1 Hunit1].
      destruct (IHs _ _ H2) as [Hmono2 Hunit2].
      split; [etrans; eassumption|].
      intros subType Hin id' fhirType' Hu Hl.
      apply elem_of_cons in Hin as [->|Hin].
      + apply Hmono2. eapply Hunit1; eassumption.
      + eapply Hunit2; eassumption. }
  destruct (Hloop _ _ _ Hsubs) as [Hmono Hunit]. cbn [fst] in Hmono.
  split; [set_solver|].
  intros id' fhirType' Hu Hl. inversion Hu as [|? ft0 subType ? Hid0 Hin Hu']; subst.
  - assert (fhirType' = fhirType) as -> by congruence. set_solver.
  - assert (ft0 = fhirType) as -> by congruence.
    eapply Hunit; eassumption.
Qed.

Lemma StronglySorted_filter {A} (R : relation A) (P : A -> Prop)
  `{forall x, Decision (P x)} l :
  StronglySorted R l -> StronglySorted R (filter P l).
Proof.
  induction 1 as [|x l Hs IH Hall]; [constructor|].
  rewrite filter_cons. destruct (decide (P x)); [|exact IH].
  constructor; [exact IH|].
  apply Forall_forall. intros y Hy. apply list_elem_of_filter in Hy as [_ Hy].
  rewrite Forall_forall in Hall. exact (Hall _ Hy).
Qed.

Lemma importedNames_sorted included referenced :
  StronglySorted String.le (importedNames included referenced).
Proof. apply StronglySorted_filter, StronglySorted_merge_sort; apply _. Qed.

Lemma importedNames_NoDup included referenced :
  NoDup (importedNames included referenced).
Proof.
  apply NoDup_filter. rewrite merge_sort_Permutation. apply NoDup_elements.
Qed.

Lemma elem_of_importedNames included referenced n :
  n ∈ importedNames included referenced <-> n ∈ referenced /\ n ∉ included.
Proof.
  unfold importedNames. rewrite list_elem_of_filter, merge_sort_Permutation.
  rewrite elem_of_elements. tauto.
Qed.

(** The names the generic-carrier rule produces are type-parameter
    references; none of them reaches the referenced names as such. *)
Lemma type_parameter_not_referenced fuel valueSets property fields field n :
  isGenericResource property = true \/ isBundleEntry property = true ->
  getTypeScriptProperties fuel valueSets property = Done fields ->
  field ∈ fields ->
  n ∈ cleanReferencedType (typeName field) ->
  n = "Resource".
Proof.
  intros Hg H Hin Hn. unfold getTypeScriptProperties in H.
  destruct (isGenericResource property).
  - injection H as <-. apply list_elem_of_singleton in Hin as ->.
    apply list_elem_of_singleton in Hn. exact Hn.
  - destruct Hg as [Hg|Hg]; [discriminate Hg|]. rewrite Hg in H.
    injection H as <-. apply list_elem_of_singleton in Hin as ->.
    inversion Hn.
Qed.

Lemma addFieldImports_elem field n : forall referenced,
  n ∈ addFieldImports referenced field ->
  n ∈ referenced \/ n ∈ cleanReferencedType (typeName field).
Proof.
  unfold addFieldImports.
  induction (cleanReferencedType (typeName field)) as [|c cs IH];
    intros referenced H; [left; exact H|].
  simpl in H. destruct (IH _ H) as [Hin|Hin]; [|right; right; exact Hin].
  apply elem_of_union in Hin as [Hin|Hin]; [|left; exact Hin].
  apply elem_of_singleton in Hin as ->. right. left.
Qed.

Lemma addFieldsImports_elem n : forall fields referenced,
  n ∈ foldl addFieldImports referenced fields ->
  n ∈ referenced \/
  exists field, field ∈ fields /\ n ∈ cleanReferencedType (typeName field).
Proof.
  induction fields as [|f fields IH]; intros referenced H; [left; exact H|].
  simpl in H. destruct (IH _ H) as [Hin|(field & Hf & Hn)].
  - destruct (addFieldImports_elem _ _ _ Hin) as [Hr|Hc]; [left; exact Hr|].
    right. exists f. split; [left|exact Hc].
  - right. exists field. split; [right; exact Hf|exact Hn].
Qed.

(** Where the referenced names of a list of properties come from. *)
Lemma propertyImports_only fuel valueSets n : forall properties referenced result,
  propertyImports fuel valueSets referenced properties = Done result ->
  n ∈ result ->
  n ∈ referenced \/
  exists property fields field,
    property ∈ properties /\
    getTypeScriptProperties fuel valueSets property = Done fields /\
    field ∈ fields /\ n ∈ cleanReferencedType (typeName field).
Proof.
  unfold propertyImports.
  induction properties as [|p properties IH]; intros referenced result H Hn.
  - injection H as <-. left. exact Hn.
  - apply foldM_Done_cons in H as (r1 & H1 & H2).
    destruct (IH _ _ H2 Hn) as [Hin|(property & fields & field & Hp & Hf & Hfield & Hc)].
    + unfold addPropertyImports in H1.
      apply bind_Done in H1 as (fields & Hf & H1). injection H1 as <-.
      destruct (addFieldsImports_elem _ _ _ Hin) as [Hr|(field & Hfield & Hc)];
        [left; exact Hr|].
      right. exists p, fields, field. split; [left|auto].
    + right. exists property, fields, field. split; [right; exact Hp|auto].
Qed.

(** Where the referenced names of a unit come from: apart from the names
    there at the start and from [Resource], each is a clean name of a
    field of a type of the unit, resolved outside the generic-carrier
    rule. *)
Lemma buildImports_referenced_only valueSets store n : forall fuel id sets sets',
  buildImports fuel valueSets store id sets = Done sets' ->
  n ∈ sets'.2 ->
  n ∈ sets.2 \/ n = "Resource" \/
  exists id' fhirType',
    inUnit store id id' /\ store !! id' = Some fhirType' /\
    contributes valueSets fhirType' n.
Proof.
  induction fuel as [|fuel IH]; intros id sets sets' H Hn; [discriminate H|].
  cbn [buildImports] in H.
  destruct (store !! id) as [fhirType|] eqn:Hid; [|discriminate H].
  apply bind_Done in H as (referenced & Hprops & H).
  apply bind_Done in H as (s2 & Hsubs & H). injection H as <-. cbn [snd] in Hn.
  assert (n ∈ s2.2 \/ n = "Resource") as [Hn2|Hres]; [| |right; left; exact Hres].
  { destruct (String.eqb (ft_outputName fhirType) "Reference"); [|left; exact Hn].
    apply elem_of_union in Hn as [Hn|Hn]; [|left; exact Hn].
    apply elem_of_singleton in Hn. right. exact Hn. }
  assert (forall subs s0 s2,
            foldM (fun s subType => buildImports fuel valueSets store subType s) s0 subs
              = Done s2 ->
            n ∈ s2.2 ->
            n ∈ s0.2 \/ n = "Resource" \/
            exists subType id' fhirType',
              subType ∈ subs /\ inUnit store subType id' /\
              store !! id' = Some fhirType' /\
              contributes valueSets fhirType' n) as Hloop.
  { clear -IH. induction subs as [|sub subs IHs]; intros s0 s2 H Hn.
    - injection H as <-. left. exact Hn.
    - apply foldM_Done_cons in H as (s1 & H1 & H2).
      destruct (IHs _ _ H2 Hn)
        as [Hn1|[Hres|(subType & id' & ft' & Hin & Hu & Hl & Hc)]].
      + destruct (IH _ _ _ H1 Hn1) as [Hn0|[Hres|(id' & ft' & Hu & Hl & Hc)]].
        * left. exact Hn0.
        * right. left. exact Hres.
        * right. right. exists sub, id', ft'. split; [left|auto].
      + right. left. exact Hres.
      + right. right. exists subType, id', ft'. split; [right; exact Hin|auto]. }
  destruct (Hloop _ _ _ Hsubs Hn2)
    as [Hn0|[Hres|(subType & id' & ft' & Hin & Hu & Hl & Hc)]].
  - cbn [snd] in Hn0.
    destruct (propertyImports_only _ _ _ _ _ _ Hprops Hn0)
      as [Hstart|(property & fields & field & Hp & Hf & Hfield & Hc)];
      [left; exact Hstart|].
    destruct (isGenericResource property) eqn:Hg.
    { right. left.
      eapply type_parameter_not_referenced; [left; exact Hg|eassumption..]. }
    destruct (isBundleEntry property) eqn:Hb.
    { right. left.
      eapply type_parameter_not_referenced; [right; exact Hb|eassumption..]. }
    right. right. exists id, fhirType. split; [constructor|]. split; [exact Hid|].
    exists (S fuel), property, fields, field. auto 10.
  - right. left. exact Hres.
  - right. right. exists id', ft'. split; [|auto].
    econstructor; eassumption.
Qed.

(** The import list of a unit holds no name declared in the unit, and is
    sorted without repetition. *)
Lemma importedNames_minimal fuel valueSets store id sets :
  buildImports fuel valueSets store id (∅, ∅) = Done sets ->
  let imports := importedNames sets.1 sets.2 in
  (forall id' fhirType',
     inUnit store id id' -> store !! id' = Some fhirType' ->
     ft_outputName fhirType' ∉ imports) /\
  StronglySorted String.le imports /\
  NoDup imports.
Proof.
  intros H imports.
  destruct (buildImports_included _ _ _ _ _ _ H) as [_ Hunit].
  split; [|split].
  - intros id' fhirType' Hu Hl Hin.
    apply elem_of_importedNames in Hin as [_ Hnot].
    exact (Hnot (Hunit _ _ Hu Hl)).
  - apply importedNames_sorted.
  - apply importedNames_NoDup.
Qed.

Lemma buildImports_included_only valueSets store : forall fuel id sets sets' n,
  buildImports fuel valueSets store id sets = Done sets' ->
  n ∈ sets'.1 ->
  n ∈ sets.1 \/
  exists id' fhirType',
    inUnit store id id' /\ store !! id' = Some fhirType' /\
    ft_outputName fhirType' = n.
Proof.
  induction fuel as [|fuel IH]; intros id sets sets' n H Hn; [discriminate H|].
  cbn [buildImports] in H.
  destruct (store !! id) as [fhirType|] eqn:Hid; [|discriminate H].
  apply bind_Done in H as (referenced & _ & H).
  apply bind_Done in H as (s2 & Hsubs & H). injection H as <-. cbn [fst] in Hn.
  assert (forall subs s0 s2,
            foldM (fun s subType => buildImports fuel valueSets store subType s) s0 subs
              = Done s2 ->
            n ∈ s2.1 ->
            n ∈ s0.1 \/
            exists subType id' fhirType',
              subType ∈ subs /\ inUnit store subType id' /\
              store !! id' = Some fhirType' /\ ft_outputName fhirType' = n) as Hloop.
  { clear -IH. induction subs as [|sub subs IHs]; intros s0 s2 H Hn.
    - injection H as <-. left. exact Hn.
    - apply foldM_Done_cons in H as (s1 & H1 & H2).
      destruct (IHs _ _ H2 Hn) as [Hn1|(subType & id' & ft' & Hin & Hu & Hl & Hname)].
      + destruct (IH _ _ _ _ H1 Hn1) as [Hn0|(id' & ft' & Hu & Hl & Hname)];
          [left; exact Hn0|].
        right. exists sub, id', ft'. split; [left|auto].
      + right. exists subType, id', ft'. split; [right; exact Hin|auto]. }
  destruct (Hloop _ _ _ Hsubs Hn) as [Hn0|(subType & id' & ft' & Hin & Hu & Hl & Hname)].
  - cbn [fst] in Hn0. apply elem_of_union in Hn0 as [Hn0|Hn0]; [|left; exact Hn0].
    apply elem_of_singleton in Hn0. right. exists id, fhirType.
    split; [constructor|auto].
  - right. exists id', ft'. split; [|auto].
    econstructor; eassumption.
Qed.

Lemma foldM_buildImports_referenced valueSets store fuel n : forall subs s0 s2,
  foldM (fun s subType => buildImports fuel valueSets store subType s) s0 subs
    = Done s2 ->
  (forall id sets sets', buildImports fuel valueSets store id sets = Done sets' ->
                         n ∈ sets.2 -> n ∈ sets'.2) ->
  n ∈ s0.2 -> n ∈ s2.2.
Proof.
  induction subs as [|sub subs IHs]; intros s0 s2 H IH Hn.
  - injection H as <-. exact Hn.
  - apply foldM_Done_cons in H as (s1 & H1 & H2).
    eapply IHs; [exact H2|exact IH|]. eapply IH; eassumption.
Qed.

(** What [buildImports] adds for the type named [Reference]. *)
Lemma buildImports_Reference valueSets store fuel id fhirType sets sets' :
  store !! id = Some fhirType ->
  ft_outputName fhirType = "Reference" ->
  buildImports fuel valueSets store id sets = Done sets' ->
  "Resource" ∈ sets'.2.
Proof.
  intros Hid Hname H. destruct fuel as [|fuel]; [discriminate H|].
  cbn [buildImports] in H. rewrite Hid in H.
  apply bind_Done in H as (referenced & _ & H).
  apply bind_Done in H as (s2 & _ & H). injection H as <-.
  rewrite Hname. cbn [snd]. simpl String.eqb. cbv iota. set_solver.
Qed.

(** ** Emitter (C5) *)

Lemma continues_refl b : continues b b.
Proof. split; [reflexivity|]. exists []. rewrite app_nil_r. reflexivity. Qed.

Lemma continues_trans b1 b2 b3 : continues b1 b2 -> continues b2 b3 -> continues b1 b3.
Proof.
  intros [Hi1 [e1 H1]] [Hi2 [e2 H2]]. split; [congruence|].
  exists (e1 ++ e2). rewrite H2, H1, app_assoc. reflexivity.
Qed.

Lemma continues_append b text : continues b (append b text).
Proof. split; [reflexivity|]. eexists. reflexivity. Qed.

Lemma continues_appendNoWrap b text : continues b (appendNoWrap b text).
Proof. split; [reflexivity|]. eexists. reflexivity. Qed.

Lemma continues_newLine b : continues b (newLine b).
Proof. split; [reflexivity|]. eexists. reflexivity. Qed.

Lemma continues_foldl {A} (f : FileBuilder -> A -> FileBuilder) l :
  (forall b x, continues b (f b x)) -> forall b, continues b (foldl f b l).
Proof.
  intros Hf. induction l as [|x l IH]; intros b; [apply continues_refl|].
  simpl. eapply continues_trans; [apply Hf|apply IH].
Qed.

Lemma continues_foldM {A} (f : FileBuilder -> A -> outcome FileBuilder) l :
  (forall b x b', f b x = Done b' -> continues b b') ->
  forall b b', foldM f b l = Done b' -> continues b b'.
Proof.
  intros Hf. induction l as [|x l IH]; intros b b' H.
  - injection H as <-. apply continues_refl.
  - apply foldM_Done_cons in H as (b1 & H1 & H2).
    eapply continues_trans; [eapply Hf; exact H1|eapply IH; exact H2].
Qed.

Lemma fb_lines_append b text :
  fb_lines (append b text) = fb_lines b ++ [Append (indentCount b) text].
Proof. reflexivity. Qed.

Lemma indentCount_append b text : indentCount (append b text) = indentCount b.
Proof. reflexivity. Qed.

Lemma fb_lines_indentBy b n : fb_lines (indentBy b n) = fb_lines b.
Proof. reflexivity. Qed.

Lemma indentCount_indentBy b n : indentCount (indentBy b n) = (indentCount b + n)%Z.
Proof. reflexivity. Qed.

Section EmitterFacts.
Variable wordWrap : string -> nat -> list string.
Variable localeCompare : string -> string -> Z.

Lemma continues_generateJavadoc b text : continues b (generateJavadoc wordWrap b text).
Proof.
  unfold generateJavadoc. destruct text as [t|]; [|apply continues_refl].
  destruct (Js.truthy (Some t)); [|apply continues_refl].
  eapply continues_trans; [apply continues_append|].
  eapply continues_trans; [|apply continues_append].
  apply continues_foldl. intros b0 textLine.
  apply continues_foldl. intros b1 javadocLine. apply continues_appendNoWrap.
Qed.

Lemma continues_writeInterfaceProperty fuel valueSets b property b' :
  writeInterfaceProperty wordWrap fuel valueSets b property = Done b' ->
  continues b b'.
Proof.
  unfold writeInterfaceProperty. intros H.
  apply bind_Done in H as (fields & _ & H). injection H as <-.
  apply continues_foldl. intros b0 field.
  eapply continues_trans; [apply continues_newLine|].
  eapply continues_trans; [apply continues_generateJavadoc|].
  apply continues_append.
Qed.

(** The shape of a declaration: the header at the indentation of the
    builder, and the closing brace as last line. For the type named
    [Reference], the line before the closing brace is the extra
    field. *)
Lemma writeDeclaration_shape fuel valueSets b fhirType b' :
  writeDeclaration wordWrap fuel valueSets b fhirType = Done b' ->
  indentCount b' = indentCount b /\
  exists before body,
    fb_lines b'
    = fb_lines b ++ before
      ++ [Append (indentCount b)
            ("export interface " +:+ ft_outputName fhirType
             +:+ (if oneOf (ft_outputName fhirType) genericTypes
                  then genericClause else "") +:+ " {")]
      ++ body ++ [Append (indentCount b) "}"] /\
    (ft_outputName fhirType = "Reference" ->
     exists body', body = body' ++ [Append (indentCount b + 1)%Z "resource?: T;"]).
Proof.
  unfold writeDeclaration.
  generalize (Some "Optional Resource referred to by this reference.") as note.
  intros note H.
  apply bind_Done in H as (b6 & Hprops & H). injection H as <-.
  pose proof (continues_trans _ _ _ (continues_newLine b)
                (continues_generateJavadoc (newLine b)
                   (ts_description (ft_definition fhirType))))
    as [Hi2 [before H2]].
  set (b2 := generateJavadoc wordWrap (newLine b)
               (ts_description (ft_definition fhirType))) in *.
  set (header := "export interface " +:+ ft_outputName fhirType
             +:+ (if oneOf (ft_outputName fhirType) genericTypes
                  then genericClause else "") +:+ " {") in *.
  set (b4 := indentBy (append b2 header) 1) in *.
  set (b5 := if ft_resource fhirType then _ else b4) in *.
  assert (continues b4 b5) as H45.
  { subst b5. destruct (ft_resource fhirType); [|apply continues_refl].
    eapply continues_trans; [apply continues_newLine|].
    eapply continues_trans; [apply continues_generateJavadoc|].
    apply continues_append. }
  assert (continues b5 b6) as H56.
  { eapply continues_foldM; [|exact Hprops]. intros b0 property b0' H0.
    eapply continues_trans; [apply continues_newLine|].
    eapply continues_writeInterfaceProperty; exact H0. }
  destruct (continues_trans _ _ _ H45 H56) as [Hi6 [body6 H6]].
  assert (indentCount b4 = indentCount b + 1)%Z as Hi4.
  { subst b4. simpl. rewrite Hi2. reflexivity. }
  assert (fb_lines b4 = fb_lines b ++ before ++ [Append (indentCount b) header])
    as H4.
  { subst b4. simpl. rewrite H2, Hi2, <- app_assoc. reflexivity. }
  destruct (String.eqb (ft_outputName fhirType) "Reference") eqn:Href.
  - destruct (continues_trans _ _ _ (continues_newLine b6)
                (continues_generateJavadoc (newLine b6) note))
      as [Hi7 [doc H7]].
    cbn [append indentBy fb_lines indentCount]. split; [rewrite Hi7, Hi6, Hi4; lia|].
    exists before, ((body6 ++ doc) ++ [Append (indentCount b + 1)%Z "resource?: T;"]).
    split.
    + rewrite H7, H6, H4, Hi7, Hi6, Hi4.
      replace (indentCount b + 1 + -1)%Z with (indentCount b) by lia.
      rewrite <- !app_assoc. reflexivity.
    + intros _. eexists. reflexivity.
  - cbn [append indentBy fb_lines indentCount].
    split; [rewrite Hi6, Hi4; lia|].
    exists before, body6. split.
    + rewrite H6, H4, Hi6, Hi4.
      replace (indentCount b + 1 + -1)%Z with (indentCount b) by lia.
      rewrite <- !app_assoc. reflexivity.
    + intros Hname. rewrite Hname in Href. discriminate Href.
Qed.

Lemma writeInterface_continues valueSets : forall fuel acc id r,
  writeInterface wordWrap localeCompare fuel valueSets acc id = Done r ->
  continues acc.2 r.2.
Proof.
  induction fuel as [|fuel IH]; intros [store b] id r H; [discriminate H|].
  cbn [writeInterface] in H.
  destruct (store !! id) as [fhirType|]; [|discriminate H].
  destruct (ft_properties fhirType) as [|p ps] eqn:Hps.
  { injection H as <-. apply continues_refl. }
  apply bind_Done in H as (b1 & Hdecl & H).
  destruct (writeDeclaration_shape _ _ _ _ _ Hdecl) as (Hi & before & body & Hl & _).
  assert (continues b b1) as Hb1.
  { split; [exact Hi|]. eexists. exact Hl. }
  cbn [snd]. eapply continues_trans; [exact Hb1|].
  revert H. generalize (<[id:=withSubTypes fhirType
      (stableSort (fun t1 t2 => localeCompare (outputNameAt store t1)
                                              (outputNameAt store t2))
                  (ft_subTypes fhirType))]> store) as store1.
  generalize (stableSort (fun t1 t2 => localeCompare (outputNameAt store t1)
                                              (outputNameAt store t2))
                  (ft_subTypes fhirType)) as subs.
  clear -IH. intros subs. revert b1.
  induction subs as [|sub subs IHs]; intros b1 store1 H.
  - injection H as <-. apply continues_refl.
  - apply foldM_Done_cons in H as ([store2 b2] & H1 & H2).
    eapply continues_trans; [exact (IH _ _ _ H1)|]. exact (IHs _ _ H2).
Qed.
End EmitterFacts.

Lemma importLines_foldl names : forall b,
  fb_lines (foldl (fun b referencedType => append b (importLine referencedType)) b names)
  = fb_lines b ++ map (fun n => Append (indentCount b) (importLine n)) names.
Proof.
  induction names as [|n names IH]; intros b; simpl.
  - rewrite app_nil_r. reflexivity.
  - rewrite IH. simpl. rewrite <- app_assoc. reflexivity.
Qed.

Section Units.
Variable wordWrap : string -> nat -> list string.
Variable localeCompare : string -> string -> Z.

Lemma writeInterfaces_continues fuel valueSets : forall subTypes acc r,
  foldM (writeInterface wordWrap localeCompare fuel valueSets) acc subTypes = Done r ->
  continues acc.2 r.2.
Proof.
  induction subTypes as [|sub subs IH]; intros acc r H.
  - injection H as <-. apply continues_refl.
  - apply foldM_Done_cons in H as (acc1 & H1 & H2).
    eapply continues_trans;
      [exact (writeInterface_continues _ _ _ _ _ _ _ H1)|exact (IH _ _ H2)].
Qed.

(** A written unit starts with one import line per imported name, in the
    order of [importedNames]. *)
Lemma writeInterfaceFile_imports fuel valueSets store id store' file sets :
  writeInterfaceFile wordWrap localeCompare fuel valueSets store id
    = Done (store', Some file) ->
  buildImports fuel valueSets store id (∅, ∅) = Done sets ->
  exists declarations,
    file.2 = map (fun n => Append 0 (importLine n)) (importedNames sets.1 sets.2)
             ++ declarations.
Proof.
  unfold writeInterfaceFile. intros H Hsets.
  destruct (store !! id) as [fhirType|]; [|discriminate H].
  assert (forall m,
            (sets0 ← buildImports fuel valueSets store id (∅, ∅);
             r ← writeInterface wordWrap localeCompare fuel valueSets
                   (store, foldl (fun b n => append b (importLine n))
                                 newFileBuilder (importedNames sets0.1 sets0.2)) id;
             Done (r.1, Some (m, fb_lines r.2))) = Done (store', Some file) ->
            exists declarations,
              file.2 = map (fun n => Append 0 (importLine n))
                           (importedNames sets.1 sets.2) ++ declarations) as Hcase.
  { intros m H0. rewrite Hsets in H0. simpl in H0.
    apply bind_Done in H0 as (r & Hr & H0). injection H0 as _ <-.
    destruct (writeInterface_continues _ _ _ _ _ _ _ Hr) as [_ [extra He]].
    exists extra. simpl in *. rewrite He, importLines_foldl. reflexivity. }
  destruct (ft_properties fhirType) as [|p ps];
    [destruct (ft_subTypes fhirType) as [|sub subs]; [discriminate H|]|];
    exact (Hcase _ H).
Qed.

End Units.

(** ** Type graph builder *)

Lemma buildType_Some resourceType definition fhirType :
  buildType resourceType definition = Some fhirType ->
  ft_outputName fhirType = resourceType /\
  ft_parentType fhirType = ts_parentType definition /\
  ft_definition fhirType = definition /\
  ft_subTypes fhirType = [] /\
  exists entries,
    ts_properties definition = Some entries /\
    ft_properties fhirType
      = map (propertyOf resourceType) (List.filter keepsProperty entries) /\
    ft_resource fhirType = containsAll (keptNames entries) baseResourceProperties.
Proof.
  unfold buildType. destruct (ts_properties definition) as [entries|];
    [|discriminate].
  rewrite addProperty_foldl. intros H. injection H as <-. simpl.
  rewrite !(right_id_L ∅ (∪)). eauto 10.
Qed.

Lemma buildType_is_Some resourceType definition :
  is_Some (buildType resourceType definition) <-> is_Some (ts_properties definition).
Proof.
  unfold buildType. destruct (ts_properties definition) as [entries|].
  - destruct (foldl _ _ _). split; eauto.
  - split; intros [? H]; discriminate H.
Qed.

Lemma addType_foldl schema : forall st,
  fhirTypes (foldl addType st schema) = fhirTypes st ++ built schema /\
  valueSets (foldl addType st schema) = valueSets st.
Proof.
  unfold built.
  induction schema as [|e schema IH]; intros st; simpl.
  - rewrite app_nil_r. auto.
  - destruct (IH (addType st e)) as [-> ->]. unfold addType.
    destruct (buildType e.1 e.2) as [fhirType|]; simpl; [|auto].
    rewrite <- app_assoc. auto.
Qed.

Lemma addType_mapCovers st e : mapCovers st -> mapCovers (addType st e).
Proof.
  intros Hc. unfold addType.
  destruct (buildType e.1 e.2) as [new|]; [|exact Hc].
  intros fhirType Hin. simpl in *. rewrite length_app. simpl.
  destruct (decide (ft_outputName new = ft_outputName fhirType)) as [Heq|Hne].
  - exists (length (fhirTypes st)). rewrite Heq, lookup_insert_eq. split; [auto|lia].
  - rewrite lookup_insert_ne by exact Hne.
    apply elem_of_app in Hin as [Hin|Hin].
    + destruct (Hc _ Hin) as (i & Hi & Hlt). exists i. split; [exact Hi|lia].
    + apply list_elem_of_singleton in Hin. congruence.
Qed.

Lemma addType_foldl_mapCovers schema : forall st,
  mapCovers st -> mapCovers (foldl addType st schema).
Proof.
  induction schema as [|e schema IH]; intros st Hc; [exact Hc|].
  simpl. apply IH, addType_mapCovers, Hc.
Qed.

Lemma withSubTypes_self fhirType : withSubTypes fhirType (ft_subTypes fhirType) = fhirType.
Proof. destruct fhirType. reflexivity. Qed.

Lemma sameNodes_refl store : sameNodes store store.
Proof.
  apply Forall2_same_length_lookup_2; [reflexivity|].
  intros i a b Ha Hb. rewrite Ha in Hb. injection Hb as <-.
  symmetry. apply withSubTypes_self.
Qed.

Lemma sameNodes_lookup store store' i b :
  sameNodes store store' -> store' !! i = Some b ->
  exists a, store !! i = Some a /\ b = withSubTypes a (ft_subTypes b).
Proof.
  intros Hs Hb. destruct (Forall2_lookup_r _ _ _ _ _ Hs Hb) as (a & Ha & Hab).
  eauto.
Qed.

Lemma sameNodes_resource store store' i :
  sameNodes store store' ->
  ft_resource <$> store' !! i = ft_resource <$> store !! i.
Proof.
  intros Hs. destruct (store' !! i) as [b|] eqn:Hb.
  - destruct (sameNodes_lookup _ _ _ _ Hs Hb) as (a & -> & ->). reflexivity.
  - apply Forall2_length in Hs. apply lookup_ge_None in Hb.
    rewrite (proj2 (lookup_ge_None store i)) by lia. reflexivity.
Qed.

Lemma nestType_sameNodes typesMap store0 store e store' :
  sameNodes store0 store ->
  nestType typesMap store e = Done store' ->
  sameNodes store0 store'.
Proof.
  intros Hs. unfold nestType.
  destruct (ft_parentType e.2) as [parentType|]; [|intros [= <-]; exact Hs].
  destruct (Js.truthy (Some parentType)); [|intros [= <-]; exact Hs].
  destruct (typesMap !! parentType) as [parent|]; [|discriminate].
  destruct (store !! parent) as [parentFhirType|] eqn:Hp; [|discriminate].
  intros [= <-].
  destruct (sameNodes_lookup _ _ _ _ Hs Hp) as (a & Ha & Hab).
  rewrite <- (list_insert_id _ _ _ Ha).
  apply Forall2_insert; [exact Hs|].
  rewrite Hab. reflexivity.
Qed.

(** The nesting pass completes when every parent named by a type is in
    the map, and it changes nothing but [subTypes]. *)
Lemma nestTypes_Done typesMap store0 :
  (forall fhirType parentType,
     fhirType ∈ store0 -> ft_parentType fhirType = Some parentType ->
     Js.truthy (Some parentType) = true ->
     exists j, typesMap !! parentType = Some j /\ j < length store0) ->
  exists store', nestTypes typesMap store0 = Done store' /\ sameNodes store0 store'.
Proof.
  intros Hparents. unfold nestTypes.
  assert (forall entries store,
            (forall e, e ∈ entries -> e.2 ∈ store0) ->
            sameNodes store0 store ->
            exists store',
              foldM (nestType typesMap) store entries = Done store' /\
              sameNodes store0 store') as Hloop.
  { induction entries as [|e entries IH]; intros store Hin Hs.
    - exists store. split; [reflexivity|exact Hs].
    - assert (exists store1, nestType typesMap store e = Done store1) as [store1 H1].
      { unfold nestType.
        destruct (ft_parentType e.2) as [parentType|] eqn:Hp; [|eauto].
        destruct (Js.truthy (Some parentType)) eqn:Ht; [|eauto].
        destruct (Hparents e.2 parentType) as (j & -> & Hj); auto.
        { apply Hin. left. }
        apply Forall2_length in Hs.
        destruct (lookup_lt_is_Some_2 store j) as [pft ->]; [lia|]. eauto. }
      destruct (IH store1) as (store' & H2 & Hs').
      { intros e' He'. apply Hin. right. exact He'. }
      { eapply nestType_sameNodes; eassumption. }
      exists store'. split; [|exact Hs']. simpl. rewrite H1. exact H2. }
  apply Hloop; [|apply sameNodes_refl].
  intros e He. apply elem_of_lookup_imap_1 in He as (i & x & -> & Hx).
  simpl. eapply list_elem_of_lookup_2. exact Hx.
Qed.

(** ** Aggregate artifacts (C4) *)

Lemma objSet_fresh {V} (o : list (string * V)) k v :
  k ∉ map fst o -> objSet o k v = o ++ [(k, v)].
Proof.
  induction o as [|[k' v'] o IH]; intros Hk; [reflexivity|].
  simpl in *. apply not_elem_of_cons in Hk as [Hne Hk].
  destruct (String.eqb_spec k' k) as [->|_]; [contradiction|].
  rewrite IH by exact Hk. reflexivity.
Qed.

Lemma parentTypes_foldl : forall entries acc,
  NoDup (map fst acc ++ map (fun e => ft_outputName e.2) entries) ->
  foldl addParentType acc entries
  = acc ++ map parentEntry (filter (fun e => isTopNode e.2) entries).
Proof.
  induction entries as [|e entries IH]; intros acc Hnd.
  - simpl. rewrite app_nil_r. reflexivity.
  - simpl in Hnd. apply NoDup_app in Hnd as (Hacc & Hdisj & Hnd).
    apply NoDup_cons in Hnd as [Hfresh Hnd].
    assert (ft_outputName e.2 ∉ map fst acc) as Hfresh'.
    { intros Hin. apply (Hdisj _ Hin). left. }
    simpl. unfold addParentType at 2. rewrite filter_cons.
    destruct (decide (isTopNode e.2)) as [Ht|Ht]; unfold isTopNode in Ht.
    2: { apply not_false_iff_true in Ht. rewrite Ht. apply IH.
      apply NoDup_app. split; [exact Hacc|]. split; [|exact Hnd].
      intros x Hx Hx'. apply (Hdisj _ Hx). right. exact Hx'. }
    + rewrite Ht.
      rewrite objSet_fresh by exact Hfresh'. rewrite IH.
      * simpl. rewrite <- app_assoc. reflexivity.
      * rewrite map_app. simpl. rewrite <- app_assoc. simpl.
        apply NoDup_app. split; [exact Hacc|]. split.
        -- intros x Hx Hx'. apply (Hdisj _ Hx). exact Hx'.
        -- apply NoDup_cons. split; assumption.
Qed.

Lemma parentTypesOf_NoDup store :
  NoDup (map ft_outputName store) ->
  parentTypesOf store
  = map parentEntry (filter (fun e => isTopNode e.2) (imap pair store)).
Proof.
  intros Hnd. unfold parentTypesOf. rewrite parentTypes_foldl; [reflexivity|].
  simpl. change (map (fun e : nat * FhirType => ft_outputName e.2) (imap pair store))
    with ((fun e : nat * FhirType => ft_outputName e.2) <$> imap pair store).
  rewrite fmap_imap.
  rewrite (imap_ext _ (const ft_outputName)) by reflexivity.
  rewrite imap_const. exact Hnd.
Qed.

(** Filtering the indexed nodes on a property of the node alone. *)
Lemma filter_imap_snd {B} (f : FhirType -> B) (Q : FhirType -> Prop)
  `{forall x, Decision (Q x)} l : forall g : nat -> nat,
  (fun e : nat * FhirType => f e.2)
    <$> filter (fun e => Q e.2) (imap (fun i x => (g i, x)) l)
  = f <$> filter Q l.
Proof.
  induction l as [|x l IH]; intros g; [reflexivity|].
  rewrite imap_cons, !filter_cons. cbn [snd].
  specialize (IH (g ∘ S)).
  destruct (decide (Q x)); [rewrite !fmap_cons; cbn [snd]; f_equal|]; exact IH.
Qed.

Lemma imap_pair_lookup (store : list FhirType) e :
  e ∈ imap pair store -> store !! e.1 = Some e.2.
Proof.
  intros He. apply elem_of_lookup_imap_1 in He as (i & x & -> & Hx). exact Hx.
Qed.

Lemma resource_filter store0 store' : forall entries,
  sameNodes store0 store' ->
  (forall e, e ∈ entries -> store0 !! e.1 = Some e.2) ->
  map fst (filter (fun e : string * nat => ft_resource <$> store' !! e.2 = Some true)
                  (map parentEntry entries))
  = (fun e : nat * FhirType => ft_outputName e.2)
      <$> filter (fun e => ft_resource e.2 = true) entries.
Proof.
  intros entries Hs. induction entries as [|e entries IH]; intros Hl;
    [reflexivity|].
  assert (forall e', e' ∈ entries -> store0 !! e'.1 = Some e'.2) as Hl'.
  { intros e' He'. apply Hl. right. exact He'. }
  assert (ft_resource <$> store' !! (parentEntry e).2 = Some (ft_resource e.2)) as Hr.
  { simpl. rewrite (sameNodes_resource _ _ _ Hs), (Hl e) by left. reflexivity. }
  simpl. rewrite !filter_cons.
  destruct (decide (ft_resource e.2 = true)) as [Ht|Ht].
  - rewrite decide_True by (rewrite Hr, Ht; reflexivity).
    simpl. rewrite IH by exact Hl'. reflexivity.
  - rewrite decide_False by (rewrite Hr; congruence).
    apply IH, Hl'.
Qed.

Lemma elem_of_keptNames entries n :
  n ∈ keptNames entries <-> n ∈ map fst entries /\ Js.startsWith n "_" = false.
Proof.
  unfold keptNames. rewrite elem_of_list_to_set.
  induction entries as [|[k d] entries IH]; simpl.
  - split; [intros H; inversion H|intros [H _]; inversion H].
  - unfold keepsProperty at 1. simpl.
    destruct (Js.startsWith k "_") eqn:Hk; simpl.
    + rewrite IH, elem_of_cons. split; [tauto|].
      intros [[->|Hin] Hn]; [congruence|tauto].
    + rewrite !elem_of_cons, IH. split; [|tauto].
      intros [->|[Hin Hn]]; tauto.
Qed.

Lemma containsAll_markers entries :
  containsAll (keptNames entries) baseResourceProperties
  = forallb (fun marker => bool_decide (marker ∈ map fst entries))
            baseResourceProperties.
Proof.
  assert (forall marker, Js.startsWith marker "_" = false ->
            bool_decide (marker ∈ keptNames entries)
            = bool_decide (marker ∈ map fst entries)) as Hm.
  { intros marker Hs. apply bool_decide_ext. rewrite elem_of_keptNames. tauto. }
  unfold containsAll, baseResourceProperties. cbn [forallb].
  rewrite !Hm by reflexivity. reflexivity.
Qed.

Lemma buildType_flags e fhirType :
  buildType e.1 e.2 = Some fhirType ->
  declares e = true /\
  ft_outputName fhirType = e.1 /\
  ft_parentType fhirType = ts_parentType e.2 /\
  ft_resource fhirType = isRecord e.
Proof.
  intros H. apply buildType_Some in H
    as (Hn & Hp & _ & _ & entries & He & _ & Hr).
  unfold declares, isRecord. rewrite He. simpl.
  rewrite Hr, containsAll_markers. auto.
Qed.

Lemma buildType_None e : buildType e.1 e.2 = None -> declares e = false.
Proof.
  intros H. unfold declares.
  destruct (ts_properties e.2) eqn:Hp; [|reflexivity].
  destruct (proj2 (buildType_is_Some e.1 e.2)) as [x Hx]; [rewrite Hp; eauto|].
  congruence.
Qed.

Lemma built_names schema : map ft_outputName (built schema) = map fst (List.filter declares schema).
Proof.
  unfold built. induction schema as [|e schema IH]; [reflexivity|]. simpl.
  destruct (buildType e.1 e.2) as [fhirType|] eqn:Hb.
  - destruct (buildType_flags _ _ Hb) as (-> & Hn & _). simpl. rewrite Hn.
    f_equal. exact IH.
  - rewrite (buildType_None _ Hb). exact IH.
Qed.

Lemma built_topNodeNames schema :
  ft_outputName <$> filter isTopNode (built schema) = topNodeNames schema.
Proof.
  unfold built, topNodeNames.
  induction schema as [|e schema IH]; [reflexivity|]. simpl.
  unfold buildsTopNode at 1.
  destruct (buildType e.1 e.2) as [fhirType|] eqn:Hb.
  - destruct (buildType_flags _ _ Hb) as (-> & Hn & Hp & _).
    rewrite filter_cons.
    destruct (decide (isTopNode fhirType)) as [Ht|Ht]; unfold isTopNode in Ht;
      rewrite Hp in Ht.
    + rewrite Ht. simpl. rewrite Hn. f_equal. exact IH.
    + apply not_false_iff_true in Ht. rewrite Ht. exact IH.
  - rewrite (buildType_None _ Hb). exact IH.
Qed.

Lemma built_recordNodeNames schema :
  ft_outputName
    <$> filter (fun fhirType => ft_resource fhirType = true /\ isTopNode fhirType)
               (built schema)
  = recordNodeNames schema.
Proof.
  unfold built, recordNodeNames.
  induction schema as [|e schema IH]; [reflexivity|]. simpl.
  unfold buildsTopNode at 1.
  destruct (buildType e.1 e.2) as [fhirType|] eqn:Hb.
  - destruct (buildType_flags _ _ Hb) as (-> & Hn & Hp & Hr).
    rewrite filter_cons. unfold isTopNode at 1.
    destruct (decide (ft_resource fhirType = true /\
                      Js.truthy (ft_parentType fhirType) = false)) as [Ht|Ht];
      rewrite Hp, Hr in Ht.
    + destruct Ht as [-> ->]. simpl. rewrite Hn. f_equal. exact IH.
    + destruct (Js.truthy (ts_parentType e.2)); [exact IH|].
      destruct (isRecord e); [|exact IH]. exfalso. apply Ht. auto.
  - rewrite (buildType_None _ Hb). exact IH.
Qed.

Lemma exportLines_foldl names : forall b,
  fb_lines (foldl (fun b resourceType =>
                     if isAliasName resourceType then b
                     else append b (exportLine resourceType)) b names)
  = fb_lines b
    ++ map (fun n => Append (indentCount b) (exportLine n))
           (filter (fun n => isAliasName n = false) names).
Proof.
  induction names as [|n names IH]; intros b.
  - simpl. rewrite app_nil_r. reflexivity.
  - cbn [foldl]. rewrite filter_cons, IH.
    destruct (decide (isAliasName n = false)) as [Ha|Ha].
    + rewrite Ha. simpl. rewrite <- app_assoc. reflexivity.
    + apply not_false_iff_true in Ha. rewrite Ha. reflexivity.
Qed.

Lemma writeIndexFile_lines names :
  writeIndexFile names
  = (distPath "index.d.ts",
     map (fun n => Append 0 (exportLine n))
         (filter (fun n => isAliasName n = false)
                 (merge_sort String.le (names ++ ["Resource"; "ResourceType"])))).
Proof. unfold writeIndexFile. rewrite exportLines_foldl. reflexivity. Qed.

Lemma disjunctLines_foldl names : forall count start b,
  (start = 0 -> indentCount b = 0%Z) ->
  (start <> 0 -> indentCount b = 1%Z) ->
  fb_lines (foldl (writeResourceDisjunct names) b (seq start count))
  = fb_lines b ++ map (disjunctLine names) (seq start count).
Proof.
  induction count as [|count IH]; intros start b H0 H1.
  - simpl. rewrite app_nil_r. reflexivity.
  - cbn [seq foldl map]. rewrite IH.
    + unfold writeResourceDisjunct, disjunctLine.
      destruct start as [|start].
      * simpl. rewrite H0 by reflexivity. rewrite <- app_assoc. reflexivity.
      * change (S start =? 0)%nat with false. cbv iota.
        destruct (negb (S start =? length names - 1)%nat);
          rewrite fb_lines_append, H1 by discriminate;
          rewrite <- app_assoc; reflexivity.
    + discriminate.
    + intros _. unfold writeResourceDisjunct.
      destruct start as [|start].
      * simpl. rewrite H0 by reflexivity. reflexivity.
      * change (S start =? 0)%nat with false. cbv iota.
        destruct (negb (S start =? length names - 1)%nat);
          rewrite indentCount_append; apply H1; discriminate.
Qed.

Lemma importLines_indent names : forall b,
  indentCount (foldl (fun b referencedType => append b (importLine referencedType))
                     b names)
  = indentCount b.
Proof.
  induction names as [|n names IH]; intros b; [reflexivity|].
  simpl. rewrite IH. reflexivity.
Qed.

Lemma writeResourceFile_lines names :
  writeResourceFile names
  = (distPath "Resource.d.ts",
     map (fun n => Append 0 (importLine n)) names ++ [NewLine]
     ++ map (disjunctLine names) (seq 0 (length names))).
Proof.
  unfold writeResourceFile. rewrite disjunctLines_foldl.
  - simpl. rewrite importLines_foldl. simpl. rewrite <- app_assoc. reflexivity.
  - intros _. simpl. apply importLines_indent.
  - intros H. contradiction.
Qed.

Lemma NoDup_map_filter {A B} (f : A -> B) (p : A -> bool) l :
  NoDup (map f l) -> NoDup (map f (List.filter p l)).
Proof.
  induction l as [|x l IH]; simpl; intros H; [constructor|].
  apply NoDup_cons in H as [Hx H].
  destruct (p x); [|apply IH, H]. simpl. apply NoDup_cons. split; [|apply IH, H].
  intros Hin. apply Hx.
  apply list_elem_of_fmap in Hin as (y & -> & Hy).
  apply list_elem_of_In, filter_In in Hy as [Hy _].
  apply list_elem_of_fmap_2, list_elem_of_In, Hy.
Qed.

Lemma isAliasName_false n :
  isAliasName n = false <-> n <> "MoneyQuantity" /\ n <> "SimpleQuantity".
Proof.
  unfold isAliasName. rewrite orb_false_iff, !String.eqb_neq. reflexivity.
Qed.

(** Sorting a list whose front part is already sorted, as [writeIndexFile]
    does with the sorted names it receives. *)
Lemma merge_sort_presorted l k :
  merge_sort String.le (merge_sort String.le l ++ k) = merge_sort String.le (l ++ k).
Proof.
  apply (Sorted_unique String.le).
  - apply Sorted_merge_sort, _.
  - apply Sorted_merge_sort, _.
  - rewrite !merge_sort_Permutation. reflexivity.
Qed.

(** The nesting pass of a run from the initial state completes. *)
Lemma nestTypes_built schema valueSets0 :
  parentsDeclared schema ->
  let st := foldl addType {| fhirTypes := []; fhirTypesMap := ∅;
                             valueSets := valueSets0 |} schema in
  fhirTypes st = built schema /\
  exists store,
    nestTypes (fhirTypesMap st) (fhirTypes st) = Done store /\
    sameNodes (built schema) store.
Proof.
  intros Hpd st.
  destruct (addType_foldl schema {| fhirTypes := []; fhirTypesMap := ∅;
                                    valueSets := valueSets0 |}) as [Hft _].
  fold st in Hft. simpl in Hft. split; [exact Hft|]. rewrite Hft.
  apply nestTypes_Done. intros fhirType parentType Hin Hp Ht.
  apply list_elem_of_omap in Hin as (e & He & Hb).
  destruct (buildType_flags _ _ Hb) as (Hd & _ & Hpar & _).
  destruct (Hpd e parentType He Hd) as (e' & He' & Hn' & Hd'); [congruence|exact Ht|].
  destruct (proj2 (buildType_is_Some e'.1 e'.2)) as [ft' Hb'].
  { unfold declares in Hd'. destruct (ts_properties e'.2); [eauto|discriminate]. }
  assert (ft' ∈ fhirTypes st) as Hin'.
  { rewrite Hft. apply list_elem_of_omap. eauto. }
  assert (mapCovers st) as Hc.
  { apply addType_foldl_mapCovers. intros x Hx. inversion Hx. }
  destruct (Hc _ Hin') as (j & Hj & Hlt).
  destruct (buildType_flags _ _ Hb') as (_ & Hname & _).
  exists j. rewrite <- Hn', <- Hname, <- Hft. auto.
Qed.

(** The two aggregate files of a run from the initial state, in terms of
    the nodes the code builds. *)
Lemma aggregates_of_nodes wordWrap localeCompare fuel schema bundle :
  NoDup (map fst schema) ->
  parentsDeclared schema ->
  let files := (main wordWrap localeCompare fuel initialState schema bundle).1 in
  let exports :=
    filter (fun n => isAliasName n = false)
           (merge_sort String.le (topNodeNames schema ++ ["Resource"; "ResourceType"])) in
  let disjuncts := merge_sort String.le (recordNodeNames schema) in
  files !! 0 = Some (distPath "index.d.ts",
                     map (fun n => Append 0 (exportLine n)) exports) /\
  files !! 1 = Some (distPath "Resource.d.ts",
                     map (fun n => Append 0 (importLine n)) disjuncts ++ [NewLine]
                     ++ map (disjunctLine disjuncts) (seq 0 (length disjuncts))) /\
  StronglySorted String.le exports /\
  StronglySorted String.le disjuncts /\
  (forall n, n ∈ disjuncts <-> n ∈ recordNodeNames schema) /\
  (forall n, n ∈ exports <->
             (n ∈ topNodeNames schema \/ n = "Resource" \/ n = "ResourceType") /\
             n <> "MoneyQuantity" /\ n <> "SimpleQuantity").
Proof.
  intros Hnd Hpd files exports disjuncts.
  assert (StronglySorted String.le exports) as Hse.
  { apply StronglySorted_filter, StronglySorted_merge_sort; apply _. }
  assert (StronglySorted String.le disjuncts) as Hsd.
  { apply StronglySorted_merge_sort; apply _. }
  assert (forall n, n ∈ disjuncts <-> n ∈ recordNodeNames schema) as Hmd.
  { intros n. unfold disjuncts. rewrite merge_sort_Permutation. reflexivity. }
  assert (forall n, n ∈ exports <->
             (n ∈ topNodeNames schema \/ n = "Resource" \/ n = "ResourceType") /\
             n <> "MoneyQuantity" /\ n <> "SimpleQuantity") as Hme.
  { intros n. unfold exports.
    rewrite list_elem_of_filter, merge_sort_Permutation, isAliasName_false.
    rewrite elem_of_app, !elem_of_cons, elem_of_nil. tauto. }
  cut (files !! 0 = Some (writeIndexFile (merge_sort String.le (topNodeNames schema))) /\
       files !! 1 = Some (writeResourceFile disjuncts)).
  { rewrite writeIndexFile_lines, writeResourceFile_lines, merge_sort_presorted.
    tauto. }
  subst files. unfold main.
  set (vs := foldl loadValueSet (valueSets initialState) bundle).
  destruct (nestTypes_built schema vs Hpd) as (Hft & store & Hnest & Hsame).
  change (fhirTypes initialState) with (@nil FhirType).
  change (fhirTypesMap initialState) with (∅ : gmap string nat).
  cbv zeta. rewrite Hnest, Hft.
  destruct (writeInterfaceFiles _ _ _ _ _ _) as [units r].
  cbn [fst lookup list_lookup app].
  assert (NoDup (map ft_outputName (built schema))) as Hnb.
  { rewrite built_names. apply NoDup_map_filter, Hnd. }
  rewrite (parentTypesOf_NoDup _ Hnb).
  split; do 2 f_equal.
  - unfold indexNames. f_equal.
    rewrite <- built_topNodeNames, map_map.
    exact (filter_imap_snd ft_outputName isTopNode (built schema) id).
  - unfold resourceNames, disjuncts. f_equal.
    rewrite (resource_filter (built schema) store _ Hsame).
    + rewrite list_filter_filter, <- built_recordNodeNames.
      exact (filter_imap_snd ft_outputName
               (fun x => ft_resource x = true /\ isTopNode x) (built schema) id).
    + intros e He. apply list_elem_of_filter in He as [_ He].
      apply imap_pair_lookup, He.
Qed.

Lemma filter_hasProperties schema (p : string * TypeSchema -> bool) :
  noEmptyPropertyList schema ->
  List.filter (fun e => hasProperties e && p e) schema
  = List.filter (fun e => declares e && p e) schema.
Proof.
  intros Hne. induction schema as [|e schema IH]; [reflexivity|].
  assert (hasProperties e = declares e) as He.
  { unfold hasProperties, declares.
    destruct (ts_properties e.2) as [[|x xs]|] eqn:E; try reflexivity.
    exfalso. apply (Hne e); [left|exact E]. }
  cbn [List.filter]. rewrite He, IH; [reflexivity|].
  intros e' He'. apply Hne. right. exact He'.
Qed.

Lemma hasProperties_declares schema e :
  noEmptyPropertyList schema -> e ∈ schema -> hasProperties e = declares e.
Proof.
  intros Hne He. unfold hasProperties, declares.
  destruct (ts_properties e.2) as [[|x xs]|] eqn:E; try reflexivity.
  exfalso. exact (Hne e He E).
Qed.

Lemma parentsHaveProperties_declared schema :
  noEmptyPropertyList schema -> parentsHaveProperties schema ->
  parentsDeclared schema.
Proof.
  intros Hne Hparents e parentType He Hd Hp Ht.
  rewrite <- (hasProperties_declares schema e Hne He) in Hd.
  assert (parentType <> "") as Hnonempty.
  { intros ->. discriminate Ht. }
  destruct (Hparents e parentType He Hd Hp Hnonempty) as (e' & He' & Hn & Hd').
  exists e'. split; [exact He'|]. split; [exact Hn|].
  rewrite <- (hasProperties_declares schema e' Hne He'). exact Hd'.
Qed.

Lemma topLevelNames_nodes schema :
  noEmptyPropertyList schema ->
  topLevelNames schema = topNodeNames schema /\
  recordNames schema = recordNodeNames schema.
Proof.
  intros Hne. unfold topLevelNames, topNodeNames, recordNames, recordNodeNames.
  split; f_equal.
  - exact (filter_hasProperties schema
             (fun e => negb (Js.truthy (ts_parentType e.2))) Hne).
  - pose proof (filter_hasProperties schema
                  (fun e => negb (Js.truthy (ts_parentType e.2)) && isRecord e) Hne)
      as H.
    unfold isTopLevel, buildsTopNode.
    erewrite (List.filter_ext _ (fun e => hasProperties e && _)); [rewrite H|].
    + apply List.filter_ext. intros e. apply andb_assoc.
    + intros e. symmetry. apply andb_assoc.
Qed.

(** C4 fails as stated, for two kinds of schema index. When an entry
    names a parent that declares nothing, the run stops before any file is
    written, so that there is no index at all. When an entry has an empty
    property map, the index exports its name although it is no top-level
    type (no node is to be built for it) and no file is written for it. *)
Lemma aggregates_fail_on_some_schemas :
  (topLevelNames orphanSchema = [] /\
   (main noWrap compareCodeUnits 3 initialState orphanSchema []).1 = []) /\
  (topLevelNames emptyEntrySchema = ["Period"] /\
   (main noWrap compareCodeUnits 3 initialState emptyEntrySchema []).1
   = [ ("../../fhirtypes/dist/index.d.ts",
        [Append 0 "export * from './Empty';";
         Append 0 "export * from './Period';";
         Append 0 "export * from './Resource';";
         Append 0 "export * from './ResourceType';"]);
       ("../../fhirtypes/dist/Resource.d.ts", [NewLine]);
       ("../../fhirtypes/dist/ResourceType.d.ts",
        [Append 0 "import { Resource } from './Resource';"; NewLine;
         Append 0 "export type ResourceType = Resource['resourceType'];";
         Append 0 "export type ExtractResource<K extends ResourceType> = Extract<Resource, { resourceType: K }>;"]);
       ("../../fhirtypes/dist/Period.d.ts",
        [NewLine; Append 0 "export interface Period {"; NewLine; NewLine;
         Append 1 "start?: string;"; Append 0 "}"]) ]).
Proof. split; split; vm_compute; reflexivity. Qed.

(** C4, as the code has it: in a run from the initial state, on a schema
    whose entries have distinct names, of which none has an empty property
    map and in which every parent named by an entry with properties is an
    entry with properties too, the first file written is the index, with one
    export line per name of the sorted list of the top-level type names
    plus [Resource] and [ResourceType], the two aliases [MoneyQuantity] and
    [SimpleQuantity] left out; the second is the union type, whose import
    lines and disjuncts are the record-classified top-level type names in
    sorted order. *)
Theorem aggregate_completeness wordWrap localeCompare fuel schema bundle :
  NoDup (map fst schema) ->
  noEmptyPropertyList schema ->
  parentsHaveProperties schema ->
  let files := (main wordWrap localeCompare fuel initialState schema bundle).1 in
  let exports :=
    filter (fun n => n <> "MoneyQuantity" /\ n <> "SimpleQuantity")
           (merge_sort String.le (topLevelNames schema ++ ["Resource"; "ResourceType"])) in
  let disjuncts := merge_sort String.le (recordNames schema) in
  files !! 0
  = Some ("../../fhirtypes/dist/index.d.ts",
          map (fun n => Append 0 ("export * from './" +:+ n +:+ "';")) exports) /\
  files !! 1
  = Some ("../../fhirtypes/dist/Resource.d.ts",
          map (fun n => Append 0 ("import { " +:+ n +:+ " } from './" +:+ n +:+ "';"))
              disjuncts
          ++ [NewLine]
          ++ map (disjunctLine disjuncts) (seq 0 (length disjuncts))) /\
  StronglySorted String.le exports /\
  StronglySorted String.le disjuncts /\
  (forall n, n ∈ disjuncts <-> n ∈ recordNames schema) /\
  (forall n, n ∈ exports <->
             (n ∈ topLevelNames schema \/ n = "Resource" \/ n = "ResourceType") /\
             n <> "MoneyQuantity" /\ n <> "SimpleQuantity").
Proof.
  intros Hnd Hne Hparents files exports disjuncts.
  pose proof (parentsHaveProperties_declared schema Hne Hparents) as Hpd.
  destruct (topLevelNames_nodes schema Hne) as [Htop Hrec].
  destruct (aggregates_of_nodes wordWrap localeCompare fuel schema bundle Hnd Hpd)
    as (Hindex & Hunion & Hse & Hsd & Hmd & Hme).
  assert (exports
          = filter (fun n => isAliasName n = false)
                   (merge_sort String.le
                      (topNodeNames schema ++ ["Resource"; "ResourceType"]))) as Hexports.
  { unfold exports. rewrite Htop. apply list_filter_iff. intros n.
    symmetry. apply isAliasName_false. }
  cbv zeta in Hindex, Hunion, Hse, Hsd, Hmd, Hme.
  rewrite <- Hrec in Hunion, Hsd, Hmd. rewrite <- Hexports in Hindex, Hse, Hme.
  rewrite <- Htop in Hme.
  split; [exact Hindex|]. split; [exact Hunion|]. split; [exact Hse|].
  split; [exact Hsd|]. split; [exact Hmd|exact Hme].
Qed.

(** ** The sample schema, generated *)

Lemma sampleSchema_NoDup : NoDup (map fst sampleSchema).
Proof. apply (bool_decide_unpack _). vm_compute. exact I. Qed.

Lemma sampleSchema_parentsDeclared : parentsDeclared sampleSchema.
Proof.
  intros e parentType He Hd Hp Ht. unfold sampleSchema in He.
  repeat (apply elem_of_cons in He as [->|He]); try discriminate Hp;
    [|inversion He].
  injection Hp as <-.
  eexists. split; [left|]. split; reflexivity.
Qed.

Example sampleStore_Reference : sampleStore !! 2 = Some referenceType.
Proof. vm_compute. reflexivity. Qed.

Example sample_Patient_unit :
  (main noWrap compareCodeUnits 3 initialState sampleSchema []).1 !! 3
  = Some ("../../fhirtypes/dist/Patient.d.ts",
          [Append 0 "import { Meta } from './Meta';";
           Append 0 "import { Organization } from './Organization';";
           Append 0 "import { Reference } from './Reference';"; NewLine;
           Append 0 "export interface Patient {"; NewLine;
           Append 1 "/**"; AppendNoWrap 1 " * This is a Patient resource";
           Append 1 " */"; Append 1 "readonly resourceType: 'Patient';";
           NewLine; NewLine; Append 1 "id?: string;"; NewLine; NewLine;
           Append 1 "meta?: Meta;"; NewLine; NewLine;
           Append 1 "implicitRules?: string;"; NewLine; NewLine;
           Append 1 "language?: string;"; NewLine; NewLine;
           Append 1 "contact?: PatientContact[];"; NewLine; NewLine;
           Append 1 "managingOrganization?: Reference<Organization>;";
           Append 0 "}"; NewLine;
           Append 0 "export interface PatientContact {"; NewLine; NewLine;
           Append 1 "name?: string;"; NewLine; NewLine;
           Append 1 "organization?: Reference<Organization>;";
           Append 0 "}"]).
Proof. vm_compute. reflexivity. Qed.

Lemma sampleSchema_parentsHaveProperties : parentsHaveProperties sampleSchema.
Proof.
  intros e parentType He Hd Hp Ht. unfold sampleSchema in He.
  repeat (apply elem_of_cons in He as [->|He]); try discriminate Hp;
    [|inversion He].
  injection Hp as <-.
  eexists. split; [left|]. split; reflexivity.
Qed.

Lemma sampleSchema_noEmptyPropertyList : noEmptyPropertyList sampleSchema.
Proof.
  intros e He. unfold sampleSchema in He.
  repeat (apply elem_of_cons in He as [->|He]); try discriminate.
  apply elem_of_nil in He. contradiction.
Qed.

Lemma aggregate_completeness_witness :
  (main noWrap compareCodeUnits 3 initialState sampleSchema []).1 !! 0
  = Some ("../../fhirtypes/dist/index.d.ts",
          [Append 0 "export * from './Patient';";
           Append 0 "export * from './Period';";
           Append 0 "export * from './Reference';";
           Append 0 "export * from './Resource';";
           Append 0 "export * from './ResourceType';"]) /\
  (main noWrap compareCodeUnits 3 initialState sampleSchema []).1 !! 1
  = Some ("../../fhirtypes/dist/Resource.d.ts",
          [Append 0 "import { Patient } from './Patient';"; NewLine;
           Append 0 "export type Resource = Patient"]).
Proof.
  destruct (aggregate_completeness noWrap compareCodeUnits 3 sampleSchema []
              sampleSchema_NoDup sampleSchema_noEmptyPropertyList
              sampleSchema_parentsHaveProperties)
    as (Hindex & Hunion & _).
  split; [exact Hindex|exact Hunion].
Defined.

Example sample_Reference_unit :
  (main noWrap compareCodeUnits 3 initialState sampleSchema []).1 !! 4
  = Some ("../../fhirtypes/dist/Reference.d.ts",
          [Append 0 "import { Resource } from './Resource';"; NewLine;
           Append 0 "export interface Reference<T extends Resource = Resource> {";
           NewLine; NewLine; Append 1 "reference?: string;"; NewLine; NewLine;
           Append 1 "display?: string;"; NewLine; Append 1 "/**";
           AppendNoWrap 1 " * Optional Resource referred to by this reference.";
           Append 1 " */"; Append 1 "resource?: T;";
           Append 0 "}"]).
Proof. vm_compute. reflexivity. Qed.

(** C5 fails as stated: the unit of [Patient] has properties of type
    [Reference<Organization>], and imports [Reference] and [Organization],
    not [Resource]. *)
Lemma referring_unit_does_not_import_Resource :
  getTypeScriptProperties 3 ∅
    (propertyOf "Patient" ("managingOrganization", referenceTo "Organization" "1"))
  = Done [{| name := "managingOrganization";
             typeName := "Reference<Organization>" |}] /\
  (sets ← buildImports 3 ∅ sampleStore 0 (∅, ∅);
   Done (importedNames sets.1 sets.2))
  = Done ["Meta"; "Organization"; "Reference"] /\
  "Resource" ∉ ["Meta"; "Organization"; "Reference"].
Proof.
  split; [vm_compute; reflexivity|]. split; [vm_compute; reflexivity|].
  intros H. repeat (apply elem_of_cons in H as [H|H]; [discriminate H|]).
  inversion H.
Qed.

(** ** Running the generator twice (C9) *)

(** C9 fails as stated: on the schema of [Plan] with its nested type
    [PlanStep], a second run that shares the module state of the first
    writes another file for [Plan]: the types of the first run are still in
    [fhirTypes], both copies of [PlanStep] are added to the new [Plan], and
    its unit declares [PlanStep] twice. *)
Lemma shared_state_rerun_differs :
  (main noWrap compareCodeUnits 3 initialState nestedSchema []).1 !! 3
  = Some ("../../fhirtypes/dist/Plan.d.ts",
          [NewLine; Append 0 "export interface Plan {"; NewLine; NewLine;
           Append 1 "title?: string;"; Append 0 "}";
           NewLine; Append 0 "export interface PlanStep {"; NewLine; NewLine;
           Append 1 "note?: string;"; Append 0 "}"]) /\
  (rerun noWrap compareCodeUnits 3 nestedSchema []).1 !! 3
  = Some ("../../fhirtypes/dist/Plan.d.ts",
          [NewLine; Append 0 "export interface Plan {"; NewLine; NewLine;
           Append 1 "title?: string;"; Append 0 "}";
           NewLine; Append 0 "export interface PlanStep {"; NewLine; NewLine;
           Append 1 "note?: string;"; Append 0 "}";
           NewLine; Append 0 "export interface PlanStep {"; NewLine; NewLine;
           Append 1 "note?: string;"; Append 0 "}"]) /\
  (rerun noWrap compareCodeUnits 3 nestedSchema []).1
  <> (main noWrap compareCodeUnits 3 initialState nestedSchema []).1.
Proof.
  assert ((main noWrap compareCodeUnits 3 initialState nestedSchema []).1 !! 3
          = Some ("../../fhirtypes/dist/Plan.d.ts",
                  [NewLine; Append 0 "export interface Plan {"; NewLine; NewLine;
                   Append 1 "title?: string;"; Append 0 "}";
                   NewLine; Append 0 "export interface PlanStep {"; NewLine; NewLine;
                   Append 1 "note?: string;"; Append 0 "}"])) as H1
    by (vm_compute; reflexivity).
  assert ((rerun noWrap compareCodeUnits 3 nestedSchema []).1 !! 3
          = Some ("../../fhirtypes/dist/Plan.d.ts",
                  [NewLine; Append 0 "export interface Plan {"; NewLine; NewLine;
                   Append 1 "title?: string;"; Append 0 "}";
                   NewLine; Append 0 "export interface PlanStep {"; NewLine; NewLine;
                   Append 1 "note?: string;"; Append 0 "}";
                   NewLine; Append 0 "export interface PlanStep {"; NewLine; NewLine;
                   Append 1 "note?: string;"; Append 0 "}"])) as H2
    by (vm_compute; reflexivity).
  split; [exact H1|]. split; [exact H2|].
  intros H. rewrite H, H1 in H2. discriminate H2.
Qed.

(** Loading the value sets again changes nothing. *)
Lemma loadValueSets_union bundle : forall m,
  foldl loadValueSet m bundle = foldl loadValueSet ∅ bundle ∪ m.
Proof.
  induction bundle as [|r bundle IH]; intros m; simpl.
  - rewrite (left_id_L ∅ (∪)). reflexivity.
  - rewrite (IH (loadValueSet m r)), (IH (loadValueSet ∅ r)).
    rewrite <- (assoc_L (∪)). f_equal.
    destruct r as [[u|] cs|[u|] compose|rt]; simpl;
      rewrite ?(left_id_L ∅ (∪)); try reflexivity;
      rewrite insert_empty; apply insert_union_singleton_l.
Qed.

Lemma loadValueSets_twice bundle m :
  foldl loadValueSet (foldl loadValueSet m bundle) bundle = foldl loadValueSet m bundle.
Proof.
  rewrite (loadValueSets_union bundle (foldl loadValueSet m bundle)).
  rewrite (loadValueSets_union bundle m).
  rewrite (assoc_L (∪)), (idemp_L (∪)). reflexivity.
Qed.

Lemma nestType_top typesMap store e :
  isTopNode e.2 -> nestType typesMap store e = Done store.
Proof.
  unfold nestType, isTopNode.
  destruct (ft_parentType e.2) as [parentType|]; [|reflexivity].
  intros ->. reflexivity.
Qed.

(** Without parents the nesting pass changes nothing. *)
Lemma nestTypes_flat typesMap store :
  (forall fhirType, fhirType ∈ store -> isTopNode fhirType) ->
  nestTypes typesMap store = Done store.
Proof.
  intros Htop. unfold nestTypes.
  assert (forall entries : list (nat * FhirType),
            (forall e, e ∈ entries -> isTopNode e.2) ->
            foldM (nestType typesMap) store entries = Done store) as Hloop.
  { induction entries as [|e entries IH]; intros He; [reflexivity|].
    cbn [foldM]. rewrite nestType_top by (apply He; left).
    simpl. apply IH. intros e' He'. apply He. right. exact He'. }
  apply Hloop. intros e He.
  apply imap_pair_lookup in He. apply Htop.
  eapply list_elem_of_lookup_2. exact He.
Qed.

Lemma objSet_present {V} (before : list (string * V)) k v0 v after :
  k ∉ map fst before ->
  objSet (before ++ (k, v0) :: after) k v = before ++ (k, v) :: after.
Proof.
  induction before as [|[k' v'] before IH]; intros Hk; simpl.
  - rewrite String.eqb_refl. reflexivity.
  - simpl in Hk. apply not_elem_of_cons in Hk as [Hne Hk].
    destruct (String.eqb_spec k' k) as [->|_]; [contradiction|].
    rewrite IH by exact Hk. reflexivity.
Qed.

(** Going again over the same nodes, under other indices, replaces the
    index of each key and keeps the order of the keys. *)
Lemma parentTypes_again : forall entries1 entries2 before,
  map snd entries1 = map snd entries2 ->
  NoDup (map fst before ++ map (fun e => ft_outputName e.2) entries1) ->
  foldl addParentType
        (before ++ map parentEntry (filter (fun e => isTopNode e.2) entries1))
        entries2
  = before ++ map parentEntry (filter (fun e => isTopNode e.2) entries2).
Proof.
  induction entries1 as [|[i1 x] entries1 IH]; intros [|[i2 x2] entries2] before Hs Hnd;
    try discriminate Hs; [reflexivity|].
  simpl in Hs. injection Hs as <- Hs.
  simpl in Hnd. apply NoDup_app in Hnd as (Hb & Hdisj & Hnd).
  apply NoDup_cons in Hnd as [Hfresh Hnd].
  assert (ft_outputName x ∉ map fst before) as Hfresh'.
  { intros Hin. apply (Hdisj _ Hin). left. }
  rewrite !filter_cons. cbn [snd foldl].
  destruct (decide (isTopNode x)) as [Ht|Ht].
  - unfold addParentType at 2. cbn [snd fst]. unfold isTopNode in Ht. rewrite Ht.
    cbn [map]. unfold parentEntry at 1. cbn [snd fst].
    rewrite objSet_present by exact Hfresh'.
    change (before ++ (ft_outputName x, i2) :: map parentEntry
              (filter (fun e => isTopNode e.2) entries1))
      with (before ++ [(ft_outputName x, i2)] ++ map parentEntry
              (filter (fun e => isTopNode e.2) entries1)).
    rewrite (assoc_L (++)), IH.
    + rewrite <- (assoc_L (++)). reflexivity.
    + exact Hs.
    + rewrite map_app. simpl. rewrite <- (assoc_L (++)). simpl.
      apply NoDup_app. split; [exact Hb|]. split.
      * intros y Hy Hy'. apply (Hdisj _ Hy). exact Hy'.
      * apply NoDup_cons. split; assumption.
  - unfold addParentType at 2. cbn [snd fst]. unfold isTopNode in Ht.
    apply not_false_iff_true in Ht. rewrite Ht.
    apply IH; [exact Hs|].
    apply NoDup_app. split; [exact Hb|]. split; [|exact Hnd].
    intros y Hy Hy'. apply (Hdisj _ Hy). right. exact Hy'.
Qed.

Lemma imap_snd {A} (g : nat -> nat) (l : list A) :
  map snd (imap (fun i x => (g i, x)) l) = l.
Proof.
  revert g. induction l as [|x l IH]; intros g; [reflexivity|].
  rewrite imap_cons. simpl. f_equal. exact (IH (g ∘ S)).
Qed.

(** The parents of a store that holds the same nodes twice are those of
    the second copy. *)
Lemma parentTypesOf_twice store :
  NoDup (map ft_outputName store) ->
  parentTypesOf (store ++ store)
  = map parentEntry
        (filter (fun e => isTopNode e.2)
                (imap (fun i x => (length store + i, x)) store)).
Proof.
  intros Hnd. unfold parentTypesOf.
  rewrite imap_app, foldl_app.
  change (foldl addParentType [] (imap pair store)) with (parentTypesOf store).
  rewrite (parentTypesOf_NoDup _ Hnd).
  apply (parentTypes_again _ _ []).
  - rewrite (imap_snd (fun i => length store + i)).
    exact (imap_snd id store).
  - simpl.
    change (map (fun e : nat * FhirType => ft_outputName e.2) (imap pair store))
      with ((fun e : nat * FhirType => ft_outputName e.2) <$> imap pair store).
    rewrite fmap_imap.
    rewrite (imap_ext _ (const ft_outputName)) by reflexivity.
    rewrite imap_const. exact Hnd.
Qed.

Lemma buildImports_leaf valueSets fuel store store2 id id2 fhirType sets :
  store !! id = Some fhirType -> store2 !! id2 = Some fhirType ->
  ft_subTypes fhirType = [] ->
  buildImports fuel valueSets store id sets
  = buildImports fuel valueSets store2 id2 sets.
Proof.
  intros H1 H2 Hs. destruct fuel as [|fuel]; [reflexivity|].
  cbn [buildImports]. rewrite H1, H2, Hs. reflexivity.
Qed.

Lemma parentIds_related (P : nat -> nat -> Prop) (l : list FhirType) :
  forall g1 g2 : nat -> nat,
    (forall i x, l !! i = Some x -> P (g1 i) (g2 i)) ->
    Forall2 P
      (map snd (map parentEntry
         (filter (fun e => isTopNode e.2) (imap (fun i x => (g1 i, x)) l))))
      (map snd (map parentEntry
         (filter (fun e => isTopNode e.2) (imap (fun i x => (g2 i, x)) l)))).
Proof.
  induction l as [|x l IH]; intros g1 g2 HP; [constructor|].
  rewrite !imap_cons, !filter_cons. cbn [snd].
  assert (Forall2 P
      (map snd (map parentEntry
         (filter (fun e => isTopNode e.2) (imap (fun i x => ((g1 ∘ S) i, x)) l))))
      (map snd (map parentEntry
         (filter (fun e => isTopNode e.2) (imap (fun i x => ((g2 ∘ S) i, x)) l)))))
    as Hrest.
  { apply IH. intros i y Hy. apply (HP (S i) y). exact Hy. }
  destruct (decide (isTopNode x)); [|exact Hrest].
  simpl. constructor; [|exact Hrest]. apply (HP 0 x). reflexivity.
Qed.

Section Rerun.
Variable wordWrap : string -> nat -> list string.
Variable localeCompare : string -> string -> Z.

(** The unit of a type without nested types depends on the type alone,
    and writing it leaves the store as it is. *)
Lemma writeInterface_leaf fuel valueSets store store2 id id2 fhirType b :
  store !! id = Some fhirType -> store2 !! id2 = Some fhirType ->
  ft_subTypes fhirType = [] ->
  (r ← writeInterface wordWrap localeCompare fuel valueSets (store, b) id; Done r.2)
  = (r ← writeInterface wordWrap localeCompare fuel valueSets (store2, b) id2; Done r.2)
  /\ forall r, writeInterface wordWrap localeCompare fuel valueSets (store, b) id = Done r ->
               r.1 = store.
Proof.
  intros H1 H2 Hs. destruct fuel as [|fuel]; [split; [reflexivity|discriminate]|].
  cbn [writeInterface]. rewrite H1, H2.
  destruct (ft_properties fhirType) as [|p ps].
  { split; [reflexivity|]. intros r [= <-]. reflexivity. }
  destruct (writeDeclaration wordWrap (S fuel) valueSets b fhirType) as [b1| |];
    simpl; [|split; [reflexivity|discriminate]..].
  rewrite Hs. simpl. split; [reflexivity|]. intros r [= <-]. simpl.
  apply list_insert_id. rewrite H1. f_equal.
  rewrite <- Hs. symmetry. apply withSubTypes_self.
Qed.

Lemma writeInterfaceFile_leaf fuel valueSets store store2 id id2 fhirType :
  store !! id = Some fhirType -> store2 !! id2 = Some fhirType ->
  ft_subTypes fhirType = [] ->
  (r ← writeInterfaceFile wordWrap localeCompare fuel valueSets store id; Done r.2)
  = (r ← writeInterfaceFile wordWrap localeCompare fuel valueSets store2 id2; Done r.2)
  /\ forall r, writeInterfaceFile wordWrap localeCompare fuel valueSets store id = Done r ->
               r.1 = store.
Proof.
  intros H1 H2 Hs. unfold writeInterfaceFile. rewrite H1, H2, Hs.
  destruct (ft_properties fhirType) as [|p ps] eqn:Hps.
  { split; [reflexivity|]. intros r [= <-]. reflexivity. }
  rewrite (buildImports_leaf _ _ _ _ _ _ _ _ H1 H2 Hs).
  destruct (buildImports fuel valueSets store2 id2 (∅, ∅)) as [sets| |];
    simpl; [|split; [reflexivity|discriminate]..].
  match goal with
  | |- context [writeInterface _ _ _ _ (store, ?b0) id] =>
      destruct (writeInterface_leaf fuel valueSets store store2 id id2 fhirType b0
                  H1 H2 Hs) as [Heq Hstore]
  end.
  destruct (writeInterface wordWrap localeCompare fuel valueSets (store, _) id)
    as [r1| |] eqn:E1;
    destruct (writeInterface wordWrap localeCompare fuel valueSets (store2, _) id2)
      as [r2| |] eqn:E2; simpl in *; try discriminate Heq.
  - injection Heq as Heq. rewrite Heq. split; [reflexivity|].
    intros r [= <-]. simpl. apply Hstore. reflexivity.
  - injection Heq as ->. split; [reflexivity|discriminate].
  - split; [reflexivity|discriminate].
Qed.

Lemma writeInterfaceFiles_leaves fuel valueSets store store2 : forall ids ids2,
  Forall2 (fun i i2 => exists fhirType,
             store !! i = Some fhirType /\ store2 !! i2 = Some fhirType /\
             ft_subTypes fhirType = []) ids ids2 ->
  (writeInterfaceFiles wordWrap localeCompare fuel valueSets store ids).1
  = (writeInterfaceFiles wordWrap localeCompare fuel valueSets store2 ids2).1 /\
  forall s,
    (writeInterfaceFiles wordWrap localeCompare fuel valueSets store ids).2 = Done s ->
    s = store /\
    (writeInterfaceFiles wordWrap localeCompare fuel valueSets store2 ids2).2
    = Done store2.
Proof.
  induction 1 as [|i i2 ids ids2 (fhirType & H1 & H2 & Hs) _ IH].
  { split; [reflexivity|]. intros s [= <-]. auto. }
  cbn [writeInterfaceFiles].
  destruct (writeInterfaceFile_leaf fuel valueSets store store2 i i2 fhirType H1 H2 Hs)
    as [Heq Hstore].
  destruct (writeInterfaceFile_leaf fuel valueSets store2 store i2 i fhirType H2 H1 Hs)
    as [_ Hstore2].
  destruct (writeInterfaceFile wordWrap localeCompare fuel valueSets store i)
    as [[s1 f1]| |] eqn:E1;
    destruct (writeInterfaceFile wordWrap localeCompare fuel valueSets store2 i2)
      as [[s2 f2]| |] eqn:E2; simpl in Heq; try discriminate Heq.
  - injection Heq as ->.
    pose proof (Hstore _ eq_refl) as Hs1. pose proof (Hstore2 _ eq_refl) as Hs2.
    simpl in Hs1, Hs2. subst s1 s2.
    destruct IH as [IH1 IH2].
    destruct (writeInterfaceFiles wordWrap localeCompare fuel valueSets store ids)
      as [files r].
    destruct (writeInterfaceFiles wordWrap localeCompare fuel valueSets store2 ids2)
      as [files2 r2].
    simpl in *. subst files2. split; [reflexivity|exact IH2].
  - split; [reflexivity|]. intros s Hd. discriminate Hd.
  - split; [reflexivity|]. intros s Hd. discriminate Hd.
Qed.

(** [main] on a state and a schema without nested types. *)
Lemma main_flat fuel st0 schema bundle :
  (forall fhirType, fhirType ∈ fhirTypes st0 -> isTopNode fhirType) ->
  (forall e, e ∈ schema -> Js.truthy (ts_parentType e.2) = false) ->
  let vs := foldl loadValueSet (valueSets st0) bundle in
  let st := foldl addType {| fhirTypes := fhirTypes st0;
                             fhirTypesMap := fhirTypesMap st0;
                             valueSets := vs |} schema in
  let store := fhirTypes st0 ++ built schema in
  let parentTypes := parentTypesOf store in
  main wordWrap localeCompare fuel st0 schema bundle
  = ([writeIndexFile (indexNames parentTypes);
      writeResourceFile (resourceNames store parentTypes);
      writeResourceTypeFile]
     ++ (writeInterfaceFiles wordWrap localeCompare fuel vs store
           (map snd parentTypes)).1,
     store' ← (writeInterfaceFiles wordWrap localeCompare fuel vs store
                 (map snd parentTypes)).2;
     Done {| fhirTypes := store'; fhirTypesMap := fhirTypesMap st;
             valueSets := vs |}).
Proof.
  intros Htop0 Hflat vs st store parentTypes. unfold main.
  fold vs. fold st.
  destruct (addType_foldl schema {| fhirTypes := fhirTypes st0;
                                    fhirTypesMap := fhirTypesMap st0;
                                    valueSets := vs |}) as [Hft _].
  fold st in Hft. simpl in Hft. rewrite Hft. fold store. fold parentTypes.
  rewrite nestTypes_flat.
  - destruct (writeInterfaceFiles _ _ _ _ _ _) as [files r]. reflexivity.
  - intros fhirType Hin. apply elem_of_app in Hin as [Hin|Hin]; [auto|].
    apply list_elem_of_omap in Hin as (e & He & Hb).
    destruct (buildType_flags _ _ Hb) as (_ & _ & Hp & _).
    unfold isTopNode. rewrite Hp. auto.
Qed.
End Rerun.

Lemma parentEntry_names (entries : list (nat * FhirType)) :
  map fst (map parentEntry entries)
  = (fun e : nat * FhirType => ft_outputName e.2) <$> entries.
Proof. rewrite map_map. reflexivity. Qed.

Lemma twice_lookup (store : list FhirType) e :
  e ∈ imap (fun i x => (length store + i, x)) store ->
  (store ++ store) !! e.1 = Some e.2.
Proof.
  intros He. apply elem_of_lookup_imap_1 in He as (i & x & -> & Hx). simpl.
  rewrite lookup_app_r by lia.
  replace (length store + i - length store) with i by lia. exact Hx.
Qed.

Lemma indexNames_twice store :
  NoDup (map ft_outputName store) ->
  indexNames (parentTypesOf (store ++ store)) = indexNames (parentTypesOf store).
Proof.
  intros Hnd. unfold indexNames. f_equal.
  rewrite (parentTypesOf_twice _ Hnd), (parentTypesOf_NoDup _ Hnd).
  rewrite !parentEntry_names.
  transitivity (ft_outputName <$> filter isTopNode store).
  - exact (filter_imap_snd ft_outputName isTopNode store (fun i => length store + i)).
  - symmetry. exact (filter_imap_snd ft_outputName isTopNode store id).
Qed.

Lemma resourceNames_twice store :
  NoDup (map ft_outputName store) ->
  resourceNames (store ++ store) (parentTypesOf (store ++ store))
  = resourceNames store (parentTypesOf store).
Proof.
  intros Hnd. unfold resourceNames. f_equal.
  rewrite (parentTypesOf_twice _ Hnd), (parentTypesOf_NoDup _ Hnd).
  rewrite (resource_filter (store ++ store) (store ++ store) _ (sameNodes_refl _)).
  2: { intros e He. apply list_elem_of_filter in He as [_ He].
       apply twice_lookup, He. }
  rewrite (resource_filter store store _ (sameNodes_refl _)).
  2: { intros e He. apply list_elem_of_filter in He as [_ He].
       apply imap_pair_lookup, He. }
  rewrite !list_filter_filter.
  transitivity (ft_outputName
                  <$> filter (fun x => ft_resource x = true /\ isTopNode x) store).
  - exact (filter_imap_snd ft_outputName
             (fun x => ft_resource x = true /\ isTopNode x) store
             (fun i => length store + i)).
  - symmetry.
    exact (filter_imap_snd ft_outputName
             (fun x => ft_resource x = true /\ isTopNode x) store id).
Qed.

Lemma built_leaves schema fhirType :
  fhirType ∈ built schema -> ft_subTypes fhirType = [].
Proof.
  intros Hin. apply list_elem_of_omap in Hin as (e & _ & Hb).
  apply buildType_Some in Hb as (_ & _ & _ & Hs & _). exact Hs.
Qed.

(** C9, as the code has it: on a schema whose entries have distinct names
    and of which none has a parent type, when a first run from the initial
    module state completes, a second run that shares the module state the
    first one left writes exactly the same files again: the types of the
    first run are still in [fhirTypes], but each is shadowed by its
    copy. *)
Theorem rerun_without_nesting wordWrap localeCompare fuel schema bundle st1 :
  NoDup (map fst schema) ->
  (forall e, e ∈ schema -> Js.truthy (ts_parentType e.2) = false) ->
  (main wordWrap localeCompare fuel initialState schema bundle).2 = Done st1 ->
  exists st2,
    rerun wordWrap localeCompare fuel schema bundle
    = ((main wordWrap localeCompare fuel initialState schema bundle).1, Done st2).
Proof.
  intros Hnd Hflat Hdone. unfold rerun. rewrite Hdone.
  assert (forall fhirType, fhirType ∈ fhirTypes initialState -> isTopNode fhirType)
    as Hempty by (intros x Hx; inversion Hx).
  pose proof (main_flat wordWrap localeCompare fuel initialState schema bundle
                Hempty Hflat) as Hrun1.
  cbv zeta in Hrun1.
  change (fhirTypes initialState) with (@nil FhirType) in Hrun1.
  change (fhirTypesMap initialState) with (∅ : gmap string nat) in Hrun1.
  change (valueSets initialState) with (∅ : gmap string BundleResource) in Hrun1.
  rewrite app_nil_l in Hrun1.
  set (vs := foldl loadValueSet ∅ bundle) in *.
  set (store0 := built schema) in *.
  assert (NoDup (map ft_outputName store0)) as Hnb.
  { unfold store0. rewrite built_names. apply NoDup_map_filter, Hnd. }
  assert (forall fhirType, fhirType ∈ store0 -> isTopNode fhirType) as Htop.
  { intros fhirType Hin. apply list_elem_of_omap in Hin as (e & He & Hb).
    destruct (buildType_flags _ _ Hb) as (_ & _ & Hp & _).
    unfold isTopNode. rewrite Hp. auto. }
  assert (Forall2 (fun i i2 => exists fhirType,
             store0 !! i = Some fhirType /\
             (store0 ++ store0) !! i2 = Some fhirType /\
             ft_subTypes fhirType = [])
            (map snd (parentTypesOf store0))
            (map snd (parentTypesOf (store0 ++ store0)))) as Hids.
  { rewrite (parentTypesOf_twice _ Hnb), (parentTypesOf_NoDup _ Hnb).
    apply (parentIds_related _ store0 id (fun i => length store0 + i)).
    intros i x Hx. exists x. split; [exact Hx|]. split.
    - rewrite lookup_app_r by lia.
      replace (length store0 + i - length store0) with i by lia. exact Hx.
    - apply (built_leaves schema). eapply list_elem_of_lookup_2. exact Hx. }
  destruct (writeInterfaceFiles_leaves wordWrap localeCompare fuel vs _ _ _ _ Hids)
    as [Hfiles Houtcome].
  rewrite Hrun1 in Hdone |- *. cbn [fst snd] in Hdone |- *.
  destruct ((writeInterfaceFiles wordWrap localeCompare fuel vs store0
               (map snd (parentTypesOf store0))).2) as [store'| |] eqn:E1;
    try discriminate Hdone.
  destruct (Houtcome _ eq_refl) as [-> E2].
  simpl in Hdone. injection Hdone as <-.
  pose proof (main_flat wordWrap localeCompare fuel
                {| fhirTypes := store0;
                   fhirTypesMap :=
                     fhirTypesMap
                       (foldl addType {| fhirTypes := []; fhirTypesMap := ∅;
                                         valueSets := vs |} schema);
                   valueSets := vs |} schema bundle Htop Hflat) as Hrun2.
  cbv zeta in Hrun2. cbn [fhirTypes fhirTypesMap valueSets] in Hrun2.
  assert (foldl loadValueSet vs bundle = vs) as Hvs
    by (unfold vs; apply loadValueSets_twice).
  rewrite !Hvs in Hrun2. fold store0 in Hrun2.
  rewrite Hrun2, E2, <- Hfiles.
  rewrite (indexNames_twice _ Hnb), (resourceNames_twice _ Hnb).
  eexists. reflexivity.
Qed.

Lemma rerun_without_nesting_witness :
  exists st2,
    rerun noWrap compareCodeUnits 3 flatSchema []
    = ((main noWrap compareCodeUnits 3 initialState flatSchema []).1, Done st2).
Proof.
  destruct (main noWrap compareCodeUnits 3 initialState flatSchema []).2
    as [st1|what|] eqn:E;
    [|vm_compute in E; discriminate E|vm_compute in E; discriminate E].
  apply (rerun_without_nesting noWrap compareCodeUnits 3 flatSchema [] st1).
  - apply (bool_decide_unpack _). vm_compute. exact I.
  - intros e He. unfold flatSchema in He.
    repeat (apply elem_of_cons in He as [->|He]); try reflexivity.
    inversion He.
  - exact E.
Defined.

(** * Further properties of the generator *)

(** ** Content references: the naming rule *)

(** X1: the type of a content-reference field is named after the whole
    path: the segments between the dots, each with its first letter
    capitalized, put together; [[]] is appended when max is [*]. *)
Theorem content_reference_naming fuel valueSets property seg more :
  isGenericResource property = false ->
  isBundleEntry property = false ->
  ed_contentReference (p_definition property)
    = Some ("#" +:+ Js.join (seg :: more) ".") ->
  Forall (fun s => lacks "." s = true) (seg :: more) ->
  getTypeScriptProperties fuel valueSets property
  = Done [{| name := p_name property;
             typeName :=
               if isMany (p_definition property)
               then Js.join (map capitalize (seg :: more)) "" +:+ "[]"
               else Js.join (map capitalize (seg :: more)) "" |}].
Proof.
  intros Hg Hb Href Hall. unfold getTypeScriptProperties.
  rewrite Hg, Hb, Href.
  change (Js.truthy (Some ("#" +:+ Js.join (seg :: more) "."))) with true.
  change (default "" (Some ("#" +:+ Js.join (seg :: more) ".")))
    with ("#" +:+ Js.join (seg :: more) ".").
  cbv iota. rewrite (contentReferenceName_path _ _ Hall). reflexivity.
Qed.

Lemma content_reference_naming_witness :
  getTypeScriptProperties 0 ∅ containerItem
  = Done [{| name := "item"; typeName := "ContainerItemDetail[]" |}].
Proof.
  apply (content_reference_naming 0 ∅ containerItem "Container" ["item"; "detail"]).
  - reflexivity.
  - reflexivity.
  - reflexivity.
  - repeat constructor.
Defined.

(** ** Value sets: the version suffix *)

Lemma stripVersion_versioned url version :
  lacks "|" url = true -> stripVersion (url +:+ "|" +:+ version) = url.
Proof.
  intros Hl. unfold stripVersion. rewrite includes_app_r.
  unfold Js.split. rewrite (split_aux_segment _ _ _ _ _ Hl).
  rewrite (split_aux_separator "|" ""). reflexivity.
Qed.

Lemma stripVersion_plain url : lacks "|" url = true -> stripVersion url = url.
Proof. intros Hl. unfold stripVersion. rewrite (includes_lacks _ _ _ Hl). reflexivity. Qed.

(** X2: a url with a version suffix resolves as the url without it. *)
Theorem versioned_url_resolves_alike fuel valueSets url version :
  lacks "|" url = true ->
  getValueSetValues fuel valueSets (url +:+ "|" +:+ version)
  = getValueSetValues fuel valueSets url.
Proof.
  intros Hl. destruct fuel as [|fuel]; [reflexivity|].
  cbn [getValueSetValues]. unfold buildValueSetValues.
  rewrite (stripVersion_versioned _ _ Hl), (stripVersion_plain _ Hl). reflexivity.
Qed.

Lemma versioned_url_resolves_alike_witness :
  getValueSetValues 2 statusCorpus ("http://example.org/vs/status" +:+ "|" +:+ "4.0.1")
  = getValueSetValues 2 statusCorpus "http://example.org/vs/status".
Proof.
  apply (versioned_url_resolves_alike 2 statusCorpus "http://example.org/vs/status" "4.0.1").
  reflexivity.
Defined.

(** ** Choice fields and untyped properties *)

Lemma mapM_Done_Forall2 {A B} (f : A -> outcome B) l ys :
  mapM f l = Done ys -> Forall2 (fun x y => f x = Done y) l ys.
Proof.
  revert ys. induction l as [|x l IH]; intros ys H; simpl in H.
  - injection H as <-. constructor.
  - apply bind_Done in H as (y0 & Hx & H).
    apply bind_Done in H as (ys0 & Hl & H).
    injection H as <-. constructor; [exact Hx|exact (IH _ Hl)].
Qed.

Lemma drop_app s rest : Js.drop (String.length s) (s +:+ rest) = rest.
Proof.
  induction s as [|a s IH]; [destruct rest; reflexivity|].
  change (String a s +:+ rest) with (String a (s +:+ rest)).
  cbn [String.length Js.drop]. exact IH.
Qed.

(** Removing the first occurrence of a pattern that the text before it
    does not start. *)
Lemma replace_first_at c pat base rest :
  lacks c base = true ->
  Js.replace (base +:+ String c pat +:+ rest) (String c pat) ""
  = base +:+ rest.
Proof.
  intros Hl. induction base as [|a base IH].
  - change ("" +:+ String c pat +:+ rest) with (String c pat +:+ rest).
    rewrite replace_unfold, prefix_app, drop_app. reflexivity.
  - apply lacks_cons in Hl as [Hne Hl].
    change (String a base +:+ String c pat +:+ rest)
      with (String a (base +:+ String c pat +:+ rest)).
    rewrite replace_unfold, (prefix_head _ _ _ _ Hne), (IH Hl). reflexivity.
Qed.

(** X3: a choice field [base[x]] expands into one field per declared type
    alternative, in order: the field of an alternative is named [base]
    followed by the capitalized type code, and its type is the type
    resolved for that alternative alone. *)
Theorem choice_expansion fuel valueSets property base alternatives fields :
  p_name property = base +:+ "[x]" ->
  lacks "[" base = true ->
  isGenericResource property = false ->
  isBundleEntry property = false ->
  Js.truthy (ed_contentReference (p_definition property)) = false ->
  ed_type (p_definition property) = Some alternatives ->
  getTypeScriptProperties fuel valueSets property = Done fields ->
  length fields = length alternatives /\
  Forall2 (fun alternative field =>
             name field = base +:+ capitalize (edt_code alternative) /\
             getTypeScriptTypeForProperty fuel valueSets property alternative
             = Done (typeName field))
          alternatives fields.
Proof.
  intros Hname Hbase Hg Hb Hc Htype H. unfold getTypeScriptProperties in H.
  rewrite Hg, Hb, Hc, Hname, endsWith_suffix, Htype in H.
  pose proof (replace_first_at "[" "x]" base "" Hbase) as Hr.
  rewrite !append_nil_r in Hr. rewrite Hr in H.
  apply mapM_Done_Forall2 in H.
  split; [symmetry; exact (Forall2_length _ _ _ H)|].
  eapply Forall2_impl; [exact H|]. intros alternative field Hf.
  apply bind_Done in Hf as (t & Ht & Hf). injection Hf as <-.
  split; [reflexivity|exact Ht].
Qed.

Lemma choice_expansion_witness :
  length [ {| name := "valueString"; typeName := "string" |};
           {| name := "valueQuantity"; typeName := "Quantity" |} ] = 2 /\
  Forall2 (fun alternative field =>
             name field = "value" +:+ capitalize (edt_code alternative) /\
             getTypeScriptTypeForProperty 0 ∅ valueChoice alternative
             = Done (typeName field))
          [ {| edt_code := "string"; edt_targetProfile := None |};
            {| edt_code := "Quantity"; edt_targetProfile := None |} ]
          [ {| name := "valueString"; typeName := "string" |};
            {| name := "valueQuantity"; typeName := "Quantity" |} ].
Proof.
  apply (choice_expansion 0 ∅ valueChoice "value"
           [ {| edt_code := "string"; edt_targetProfile := None |};
             {| edt_code := "Quantity"; edt_targetProfile := None |} ]
           [ {| name := "valueString"; typeName := "string" |};
             {| name := "valueQuantity"; typeName := "Quantity" |} ]);
    reflexivity.
Defined.

(** X4: a property with neither content reference nor declared type makes
    the resolver throw. With an empty list of types an ordinary property
    throws as well, while a choice field expands into no field at all. *)
Theorem untyped_property fuel valueSets property :
  isGenericResource property = false ->
  isBundleEntry property = false ->
  Js.truthy (ed_contentReference (p_definition property)) = false ->
  (ed_type (p_definition property) = None ->
   getTypeScriptProperties fuel valueSets property = Raise TypeError) /\
  (ed_type (p_definition property) = Some [] ->
   getTypeScriptProperties fuel valueSets property
   = if Js.endsWith (p_name property) "[x]" then Done [] else Raise TypeError).
Proof.
  intros Hg Hb Hc. unfold getTypeScriptProperties. rewrite Hg, Hb, Hc.
  split; intros ->; destruct (Js.endsWith (p_name property) "[x]"); reflexivity.
Qed.

Lemma untyped_property_witness :
  getTypeScriptProperties 5 ∅ untypedProperty = Raise TypeError.
Proof.
  destruct (untyped_property 5 ∅ untypedProperty eq_refl eq_refl eq_refl) as [H _].
  apply H. reflexivity.
Defined.

(** ** Value sets: listed codes, hierarchies and cycles *)

Lemma buildValueSetIncludes_listed getValues : forall includes result,
  Forall (fun include => is_Some (vsi_concept include)) includes ->
  foldM (buildValueSetInclude getValues) result includes
  = Done (result ++ flat_map listedCodes includes).
Proof.
  induction includes as [|include includes IH]; intros result Hall.
  - simpl. rewrite app_nil_r. reflexivity.
  - apply Forall_cons in Hall as [[concepts Hc] Hall].
    assert (buildValueSetInclude getValues result include
            = Done (result ++ listedCodes include)) as Hstep.
    { unfold buildValueSetInclude, listedCodes. rewrite Hc.
      rewrite pushConceptCodes. reflexivity. }
    cbn [foldM flat_map]. rewrite Hstep. cbn [mbind outcome_bind].
    change (foldM (buildValueSetInclude getValues) (result ++ listedCodes include)
              includes
            = Done (result ++ listedCodes include ++ flat_map listedCodes includes)).
    rewrite (IH _ Hall), <- app_assoc. reflexivity.
Qed.

(** X5: a value set whose inclusion rules all list their concepts
    flattens, with one unit of fuel, to the listed non-empty codes in
    order. A rule that lists concepts never consults its system, not even
    when the list is empty. *)
Theorem listed_concepts_flatten fuel valueSets url u includes :
  valueSets !! stripVersion url
    = Some (ValueSet u (Some {| vs_include := Some includes |})) ->
  Forall (fun include => is_Some (vsi_concept include)) includes ->
  getValueSetValues (S fuel) valueSets url = Done (flat_map listedCodes includes).
Proof.
  intros Hl Hall. cbn [getValueSetValues]. unfold buildValueSetValues.
  rewrite Hl. unfold buildValueSetComposeValues. cbn [vs_include].
  rewrite (buildValueSetIncludes_listed _ _ _ Hall). reflexivity.
Qed.

Lemma listed_concepts_flatten_witness :
  getValueSetValues 1 resourceTypesCorpus resourceTypesUrl
  = Done ["Patient"; "Observation"].
Proof.
  apply (listed_concepts_flatten 0 resourceTypesCorpus resourceTypesUrl
           (Some "http://hl7.org/fhir/ValueSet/resource-types")
           [ {| vsi_system := Some "http://hl7.org/fhir/resource-types";
                vsi_concept := Some [ {| vsc_code := Some "Patient" |};
                                      {| vsc_code := Some "Observation" |} ] |} ]).
  - vm_compute. reflexivity.
  - repeat constructor. eexists. reflexivity.
Defined.

Lemma buildCodeSystemConceptValue_codes : forall c result,
  buildCodeSystemConceptValue c result = result ++ conceptCodes c.
Proof.
  fix IH 1. intros [code sub] result. cbn [buildCodeSystemConceptValue conceptCodes].
  assert ((match code with
           | Some v => if Js.truthy code then result ++ [v] else result
           | None => result
           end) = result ++ (if Js.truthy code then option_list code else [])) as ->.
  { destruct code as [v|]; simpl; [|rewrite app_nil_r; reflexivity].
    destruct (negb (String.eqb v "")); [reflexivity|rewrite app_nil_r; reflexivity]. }
  destruct sub as [cs|]; [|rewrite app_nil_r; reflexivity].
  rewrite app_assoc.
  generalize (result ++ (if Js.truthy code then option_list code else [])) as acc.
  induction cs as [|c' cs IHcs]; intros acc.
  - simpl. rewrite app_nil_r. reflexivity.
  - cbn [flat_map]. rewrite IH, IHcs, <- app_assoc. reflexivity.
Qed.

Lemma buildCodeSystemConceptValues_codes concepts result :
  buildCodeSystemConceptValues concepts result
  = result ++ flat_map conceptCodes (default [] concepts).
Proof.
  destruct concepts as [cs|]; simpl; [|rewrite app_nil_r; reflexivity].
  revert result. induction cs as [|c cs IH]; intros result.
  - simpl. rewrite app_nil_r. reflexivity.
  - cbn [foldl flat_map]. rewrite IH, buildCodeSystemConceptValue_codes.
    rewrite <- app_assoc. reflexivity.
Qed.

(** X6: a code system flattens, with one unit of fuel, to the codes of its
    concept hierarchy read depth first, every concept before the concepts
    below it; concepts without code are passed over but their children are
    still read. *)
Theorem code_system_flattens_depth_first fuel valueSets url u concepts :
  valueSets !! stripVersion url = Some (CodeSystem u concepts) ->
  getValueSetValues (S fuel) valueSets url
  = Done (flat_map conceptCodes (default [] concepts)).
Proof.
  intros Hl. cbn [getValueSetValues]. unfold buildValueSetValues. rewrite Hl.
  rewrite buildCodeSystemConceptValues_codes. reflexivity.
Qed.

Lemma code_system_flattens_depth_first_witness :
  getValueSetValues 1 statusCorpus "http://example.org/cs/status"
  = Done ["active"; "suspended"; "inactive"].
Proof.
  apply (code_system_flattens_depth_first 0 statusCorpus "http://example.org/cs/status"
           (Some "http://example.org/cs/status")
           (Some [Concept (Some "active") (Some [leaf "suspended"]); leaf "inactive"])).
  vm_compute. reflexivity.
Defined.

(** Along a cycle of inclusions the depth counter always runs out. *)
Lemma inclusionCycle_depth valueSets keys :
  inclusionCycle valueSets keys ->
  forall fuel url, keys (stripVersion url) ->
    getValueSetValues fuel valueSets url = Fuel.
Proof.
  intros Hcycle. induction fuel as [|fuel IH]; intros url Hkey; [reflexivity|].
  destruct (Hcycle _ Hkey) as (u & system & rest & Hl & Ht & Hnext).
  assert (buildValueSetInclude (getValueSetValues fuel valueSets) []
            {| vsi_system := Some system; vsi_concept := None |} = Fuel) as Hstep.
  { unfold buildValueSetInclude. cbn [vsi_concept vsi_system].
    rewrite Ht, (IH _ Hnext). reflexivity. }
  cbn [getValueSetValues]. unfold buildValueSetValues. rewrite Hl.
  unfold buildValueSetComposeValues. cbn [vs_include foldM].
  rewrite Hstep. reflexivity.
Qed.

(** X7: the resolver has no cycle guard. When the first inclusion rule of
    a value set names, without listing concepts, a url that leads back to
    it, directly or through other value sets of the same kind, a call of
    the resolver on it never returns a code list, however deep the
    recursion is allowed to go: each level calls the next before it has
    anything to return. (In a run the levels pile up until the call stack
    of the engine is exhausted, and the run ends with that error.) *)
Theorem inclusion_cycle_never_resolves valueSets keys :
  inclusionCycle valueSets keys ->
  forall fuel url values, keys (stripVersion url) ->
    getValueSetValues fuel valueSets url <> Done values.
Proof.
  intros Hcycle fuel url values Hkey.
  rewrite (inclusionCycle_depth _ _ Hcycle fuel url Hkey). discriminate.
Qed.

Lemma inclusion_cycle_never_resolves_witness :
  getValueSetValues 7 selfIncluding "http://example.org/vs/loop|2" <> Done [].
Proof.
  apply (inclusion_cycle_never_resolves selfIncluding
           (fun key => key = "http://example.org/vs/loop")).
  - intros key ->.
    exists (Some "http://example.org/vs/loop"), "http://example.org/vs/loop|1", [].
    split; [vm_compute; reflexivity|]. split; reflexivity.
  - reflexivity.
Defined.

(** ** Reference types and the names they import *)

Lemma take_app s rest : Js.take (String.length s) (s +:+ rest) = s.
Proof.
  induction s as [|a s IH]; [destruct rest; reflexivity|].
  change (String a s +:+ rest) with (String a (s +:+ rest)).
  cbn [String.length Js.take]. rewrite IH. reflexivity.
Qed.

Lemma string_length_app s t : String.length (s +:+ t) = (String.length s + String.length t)%nat.
Proof.
  induction s as [|a s IH]; [reflexivity|].
  change (String a s +:+ t) with (String a (s +:+ t)).
  cbn [String.length]. rewrite IH. reflexivity.
Qed.

Lemma substring_middle pre mid post :
  Js.substring (pre +:+ mid +:+ post)
    (Z.of_nat (String.length pre))
    (Z.of_nat (String.length pre + String.length mid)) = mid.
Proof.
  unfold Js.substring. rewrite !string_length_app.
  replace (Z.min (Z.max 0 (Z.min (Z.of_nat (String.length pre))
                             (Z.of_nat (String.length pre + (String.length mid + String.length post)))))
                 (Z.max 0 (Z.min (Z.of_nat (String.length pre + String.length mid))
                             (Z.of_nat (String.length pre + (String.length mid + String.length post))))))
    with (Z.of_nat (String.length pre)) by lia.
  replace (Z.max (Z.max 0 (Z.min (Z.of_nat (String.length pre))
                             (Z.of_nat (String.length pre + (String.length mid + String.length post)))))
                 (Z.max 0 (Z.min (Z.of_nat (String.length pre + String.length mid))
                             (Z.of_nat (String.length pre + (String.length mid + String.length post))))))
    with (Z.of_nat (String.length pre + String.length mid)) by lia.
  replace (Z.to_nat (Z.of_nat (String.length pre + String.length mid)
                     - Z.of_nat (String.length pre)))
    with (String.length mid) by lia.
  rewrite Nat2Z.id, drop_app, take_app. reflexivity.
Qed.

Lemma indexOf_from_lacks c pre rest : forall i,
  lacks c pre = true ->
  Js.indexOf_from i (pre +:+ String c rest) (String c "")
  = (i + Z.of_nat (String.length pre))%Z.
Proof.
  induction pre as [|a pre IH]; intros i Hl.
  - change ("" +:+ String c rest) with (String c rest).
    pose proof (prefix_app (String c "") rest) as Hp.
    change (String c "" +:+ rest) with (String c rest) in Hp.
    cbn [Js.indexOf_from]. rewrite Hp. cbn [String.length]. lia.
  - apply lacks_cons in Hl as [Hne Hl].
    change (String a pre +:+ String c rest) with (String a (pre +:+ String c rest)).
    cbn [Js.indexOf_from]. rewrite (prefix_head _ _ _ _ Hne), (IH _ Hl).
    cbn [String.length]. lia.
Qed.

Lemma endsWith_lacks c t : lacks c t = true -> Js.endsWith t (String c "") = false.
Proof.
  induction t as [|a t IH]; intros Hl; [reflexivity|].
  apply lacks_cons in Hl as [Hne Hl].
  rewrite endsWith_unfold, (IH Hl). cbn [String.eqb].
  destruct (Ascii.eqb_spec a c) as [->|_]; [contradiction|reflexivity].
Qed.

(** A text that goes on with a non-empty piece free of [c] does not end
    with [c]. *)
Lemma endsWith_app_lacks c s t :
  t <> "" -> lacks c t = true -> Js.endsWith (s +:+ t) (String c "") = false.
Proof.
  intros Hne Hl. induction s as [|a s IH]; [exact (endsWith_lacks _ _ Hl)|].
  change (String a s +:+ t) with (String a (s +:+ t)).
  rewrite endsWith_unfold, IH.
  destruct (s +:+ t) eqn:E.
  - destruct s; [simpl in E; contradiction|discriminate E].
  - cbn [String.eqb]. destruct (Ascii.eqb a c); reflexivity.
Qed.

Lemma join_cons_cons x y l sep :
  Js.join (x :: y :: l) sep = x +:+ sep +:+ Js.join (y :: l) sep.
Proof. reflexivity. Qed.

Lemma join_merge_head a t ts sep :
  Js.join ((a +:+ sep +:+ t) :: ts) sep = a +:+ sep +:+ Js.join (t :: ts) sep.
Proof.
  destruct ts as [|u us]; [reflexivity|].
  rewrite !join_cons_cons, !append_assoc. reflexivity.
Qed.

Lemma lacks_join c sep l :
  lacks c sep = true -> Forall (fun s => lacks c s = true) l ->
  lacks c (Js.join l sep) = true.
Proof.
  intros Hsep. induction l as [|x l IH]; intros Hall; [reflexivity|].
  apply Forall_cons in Hall as [Hx Hall]. destruct l as [|y l]; [exact Hx|].
  rewrite join_cons_cons, !lacks_app, Hx, Hsep, (IH Hall). reflexivity.
Qed.

(** The loop over the target profiles once the text no longer ends with
    the opening bracket. *)
Lemma referenceTargets_rest : forall profiles pre acc,
  acc <> "" -> lacks "<" acc = true ->
  Forall (fun p => lacks "<" (targetName p) = true) profiles ->
  foldl (fun baseType targetProfile =>
           (if Js.endsWith baseType "<" then baseType else baseType +:+ " | ")
           +:+ Js.pop (Js.split targetProfile "/"))
        (pre +:+ acc) profiles
  = pre +:+ Js.join (acc :: map targetName profiles) " | ".
Proof.
  induction profiles as [|p profiles IH]; intros pre acc Hne Hl Hall; [reflexivity|].
  apply Forall_cons in Hall as [Hp Hall].
  cbn [foldl map]. rewrite (endsWith_app_lacks "<" pre acc Hne Hl).
  fold (targetName p). rewrite !append_assoc.
  rewrite (IH pre (acc +:+ " | " +:+ targetName p)).
  - rewrite join_merge_head. reflexivity.
  - destruct acc; [contradiction|discriminate].
  - rewrite !lacks_app, Hl, Hp. reflexivity.
  - exact Hall.
Qed.

Lemma plainName_spec s :
  plainName s = true ->
  s <> "" /\ lacks " " s = true /\ lacks "<" s = true /\ lacks ">" s = true
  /\ lacks "'" s = true.
Proof.
  unfold plainName. rewrite !andb_true_iff. intros [[[[Hne H1] H2] H3] H4].
  repeat split; try assumption. intros ->. discriminate Hne.
Qed.

Lemma referenceBaseType_join typeDefinition profile profiles :
  edt_targetProfile typeDefinition = Some (profile :: profiles) ->
  Forall (fun p => plainName (targetName p) = true) (profile :: profiles) ->
  referenceBaseType typeDefinition
  = "Reference<" +:+ Js.join (map targetName (profile :: profiles)) " | " +:+ ">".
Proof.
  intros Ht Hall. unfold referenceBaseType. rewrite Ht.
  apply Forall_cons in Hall as [Hp Hall].
  destruct (plainName_spec _ Hp) as (Hne & _ & Hlt & _).
  cbn [foldl]. change (Js.endsWith "Reference<" "<") with true. cbv iota.
  fold (targetName profile).
  rewrite (referenceTargets_rest profiles "Reference<" (targetName profile) Hne Hlt).
  - rewrite append_assoc. reflexivity.
  - eapply Forall_impl; [exact Hall|]. intros p Hq.
    destruct (plainName_spec _ Hq) as (_ & _ & H & _). exact H.
Qed.

(** The clean names of a rendered reference type, with or without the
    sequence suffix. *)
Lemma cleanReferencedType_reference targets suffix :
  targets <> [] ->
  Forall (fun t => plainName t = true) targets ->
  cleanReferencedType ("Reference<" +:+ Js.join targets " | " +:+ ">" +:+ suffix)
  = "Reference" :: targets.
Proof.
  intros Hne Hall. destruct targets as [|t ts]; [contradiction|].
  set (J := Js.join (t :: ts) " | ").
  assert (lacks ">" J = true) as HJ.
  { apply lacks_join; [reflexivity|]. eapply Forall_impl; [exact Hall|].
    intros s Hs. destruct (plainName_spec _ Hs) as (_ & _ & _ & H & _). exact H. }
  unfold cleanReferencedType.
  assert (Js.startsWith ("Reference<" +:+ J +:+ ">" +:+ suffix) "Reference<" = true)
    as -> by apply prefix_app.
  assert (Js.indexOf ("Reference<" +:+ J +:+ ">" +:+ suffix) "<" = 9%Z) as ->.
  { change ("Reference<" +:+ J +:+ ">" +:+ suffix)
      with ("Reference" +:+ String "<" (J +:+ ">" +:+ suffix)).
    unfold Js.indexOf. rewrite indexOf_from_lacks; reflexivity. }
  assert (Js.indexOf ("Reference<" +:+ J +:+ ">" +:+ suffix) ">"
          = Z.of_nat (String.length "Reference<" + String.length J)) as ->.
  { rewrite <- (append_assoc "Reference<" J).
    change (">" +:+ suffix) with (String ">" suffix).
    unfold Js.indexOf. rewrite indexOf_from_lacks.
    - rewrite string_length_app. lia.
    - rewrite lacks_app, HJ. reflexivity. }
  change (9 + 1)%Z with (Z.of_nat (String.length "Reference<")).
  rewrite substring_middle.
  change ("Reference<" +:+ J +:+ ">" +:+ suffix)
    with (String "R" ("eference<" +:+ J +:+ ">" +:+ suffix)).
  cbn [String.eqb Ascii.eqb Bool.eqb andb orb Js.startsWith String.prefix
       Js.charAt0].
  change (isLowerCase "R") with false. cbv iota.
  unfold J. rewrite (split_join " " "| ").
  - reflexivity.
  - eapply Forall_impl; [exact Hall|].
    intros s Hs. destruct (plainName_spec _ Hs) as (_ & H & _). exact H.
Qed.

(** X8: the rendering of a reference type and the import resolver agree.
    When the last path segments of the target profiles are plain names, a
    [Reference] element resolves, whatever its cardinality, to a type from
    which the import resolver reads back [Reference] and exactly those
    segments, in order. *)
Theorem reference_targets_round_trip fuel valueSets property typeDefinition
  profile profiles :
  edt_code typeDefinition = "Reference" ->
  edt_targetProfile typeDefinition = Some (profile :: profiles) ->
  Forall (fun p => plainName (targetName p) = true) (profile :: profiles) ->
  exists typeName,
    getTypeScriptTypeForProperty fuel valueSets property typeDefinition
    = Done typeName /\
    cleanReferencedType typeName
    = "Reference" :: map targetName (profile :: profiles).
Proof.
  intros Hcode Ht Hall.
  unfold getTypeScriptTypeForProperty, baseTypeOf. rewrite Hcode.
  change (oneOf "Reference" stringCodes) with false.
  change (oneOf "Reference" dateCodes) with false.
  change (oneOf "Reference" numberCodes) with false.
  change (oneOf "Reference" elementCodes) with false.
  change (String.eqb "Reference" "ResourceList") with false.
  change (String.eqb "Reference" "Reference") with true. cbv iota.
  rewrite (referenceBaseType_join _ _ _ Ht Hall).
  cbn [mbind outcome_bind]. eexists. split; [reflexivity|].
  assert (Forall (fun t => plainName t = true) (map targetName (profile :: profiles)))
    as Hplain by (apply Forall_map; exact Hall).
  assert (map targetName (profile :: profiles) <> []) as Hne by discriminate.
  set (targets := map targetName (profile :: profiles)) in *.
  unfold withCardinality.
  assert (Js.includes ("Reference<" +:+ Js.join targets " | " +:+ ">") "' | '" = false)
    as ->.
  { apply includes_lacks. rewrite !lacks_app.
    rewrite (lacks_join "'" " | " targets); [reflexivity|reflexivity|].
    eapply Forall_impl; [exact Hplain|]. intros s Hs.
    destruct (plainName_spec _ Hs) as (_ & _ & _ & _ & H). exact H. }
  destruct (isMany (p_definition property)).
  - rewrite !append_assoc. apply cleanReferencedType_reference; assumption.
  - rewrite <- (append_nil_r ("Reference<" +:+ Js.join targets " | " +:+ ">")).
    rewrite !append_assoc. apply cleanReferencedType_reference; assumption.
Qed.

Lemma reference_targets_round_trip_witness :
  exists typeName,
    getTypeScriptTypeForProperty 0 ∅ subjectReference
      {| edt_code := "Reference";
         edt_targetProfile :=
           Some ["http://hl7.org/fhir/StructureDefinition/Patient";
                 "http://hl7.org/fhir/StructureDefinition/Group"] |}
    = Done typeName /\
    cleanReferencedType typeName
    = "Reference" :: map targetName
                       ["http://hl7.org/fhir/StructureDefinition/Patient";
                        "http://hl7.org/fhir/StructureDefinition/Group"].
Proof.
  apply (reference_targets_round_trip 0 ∅ subjectReference);
    [reflexivity|reflexivity|].
  repeat constructor.
Defined.

(** ** Escaping of documentation text *)

Lemma replaceAll_aux_lacks c pat rep :
  lacks c rep = true ->
  forall s skip, lacks c s = true ->
    lacks c (Js.replaceAll_aux pat rep skip s) = true.
Proof.
  intros Hrep. induction s as [|a s IH]; intros skip Hl; [reflexivity|].
  pose proof Hl as Hl'. cbn [lacks] in Hl'. apply andb_true_iff in Hl' as [Ha Hs].
  cbn [Js.replaceAll_aux]. destruct skip as [|k]; [|exact (IH _ Hs)].
  destruct (String.prefix pat (String a s)).
  - rewrite lacks_app, Hrep, (IH _ Hs). reflexivity.
  - cbn [lacks]. rewrite Ha, (IH _ Hs). reflexivity.
Qed.

Lemma replaceAll_keeps_lacks c pat rep s :
  lacks c rep = true -> lacks c s = true ->
  lacks c (Js.replaceAll s pat rep) = true.
Proof. intros Hrep Hs. exact (replaceAll_aux_lacks c pat rep Hrep s 0%nat Hs). Qed.

Lemma prefix_single c a s :
  String.prefix (String c "") (String a s) = Ascii.eqb a c.
Proof.
  destruct (Ascii.eqb_spec a c) as [->|Hne].
  - exact (prefix_app (String c "") s).
  - exact (prefix_head c "" a s Hne).
Qed.

(** Replacing every occurrence of a one-character pattern is a
    character-wise substitution. *)
Lemma replaceAll_single c rep s :
  Js.replaceAll s (String c "") rep
  = substitute (fun a => if Ascii.eqb a c then rep else String a "") s.
Proof.
  unfold Js.replaceAll. induction s as [|a s IH]; [reflexivity|].
  cbn [Js.replaceAll_aux substitute]. rewrite prefix_single.
  change (String.length (String c "") - 1)%nat with 0%nat. rewrite IH.
  destruct (Ascii.eqb a c); reflexivity.
Qed.

Lemma replaceAll_removes c rep s :
  lacks c rep = true -> lacks c (Js.replaceAll s (String c "") rep) = true.
Proof.
  intros Hrep. rewrite replaceAll_single.
  induction s as [|a s IH]; [reflexivity|].
  cbn [substitute]. rewrite lacks_app, IH, andb_true_r.
  destruct (Ascii.eqb a c) eqn:E; [exact Hrep|].
  cbn [lacks]. rewrite E. reflexivity.
Qed.

(** A pattern whose first character does not occur is never found. *)
Lemma replaceAll_lacks c pat rep s :
  lacks c s = true -> Js.replaceAll s (String c pat) rep = s.
Proof.
  unfold Js.replaceAll. induction s as [|a s IH]; intros Hl; [reflexivity|].
  apply lacks_cons in Hl as [Hne Hl].
  cbn [Js.replaceAll_aux]. rewrite (prefix_head _ _ _ _ Hne), (IH Hl). reflexivity.
Qed.

Lemma substitute_app f s t :
  substitute f (s +:+ t) = substitute f s +:+ substitute f t.
Proof.
  induction s as [|a s IH]; [reflexivity|].
  change (String a s +:+ t) with (String a (s +:+ t)).
  cbn [substitute]. rewrite IH, append_assoc. reflexivity.
Qed.

Lemma substitute_compose f g s :
  substitute g (substitute f s) = substitute (fun a => substitute g (f a)) s.
Proof.
  induction s as [|a s IH]; [reflexivity|].
  cbn [substitute]. rewrite substitute_app, IH. reflexivity.
Qed.

Lemma substitute_ext f g s :
  (forall a, f a = g a) -> substitute f s = substitute g s.
Proof.
  intros H. induction s as [|a s IH]; [reflexivity|].
  cbn [substitute]. rewrite H, IH. reflexivity.
Qed.

(** The four one-character passes together. *)
Lemma escape_passes s :
  Js.replaceAll
    (Js.replaceAll (Js.replaceAll (Js.replaceAll s "&" "&amp;") "<" "&lt;")
       ">" "&gt;") dquote "&quot;"
  = substitute escapeChar s.
Proof.
  unfold dquote. rewrite !replaceAll_single, !substitute_compose.
  apply substitute_ext.
  intros [[] [] [] [] [] [] [] []]; vm_compute; reflexivity.
Qed.

Lemma escapeChar_ascii a :
  (nat_of_ascii a <? 128)%nat = true ->
  lacks (ascii_of_nat 226) (escapeChar a) = true.
Proof.
  destruct a as [[] [] [] [] [] [] [] []]; vm_compute; intros H;
    first [reflexivity|discriminate H].
Qed.

Lemma substitute_escapeChar_ascii s :
  isAsciiText s = true -> lacks (ascii_of_nat 226) (substitute escapeChar s) = true.
Proof.
  induction s as [|a s IH]; intros H; [reflexivity|].
  cbn [isAsciiText] in H. apply andb_true_iff in H as [Ha Hs].
  cbn [substitute]. rewrite lacks_app, (escapeChar_ascii _ Ha), (IH Hs). reflexivity.
Qed.

Lemma escapeHtml_lacks unsafe :
  lacks "<" (escapeHtml unsafe) = true /\
  lacks ">" (escapeHtml unsafe) = true /\
  lacks (ascii_of_nat 34) (escapeHtml unsafe) = true.
Proof.
  unfold escapeHtml, dquote.
  repeat split;
    repeat first
      [ apply replaceAll_removes; reflexivity
      | apply replaceAll_keeps_lacks; [reflexivity|] ].
Qed.

(** X9: whatever the text, its escaped form holds no [<], no [>] and no
    double quote. *)
Theorem escapeHtml_leaves_no_markup unsafe :
  lacks "<" (escapeHtml unsafe) = true /\
  lacks ">" (escapeHtml unsafe) = true /\
  lacks (ascii_of_nat 34) (escapeHtml unsafe) = true.
Proof. exact (escapeHtml_lacks unsafe). Qed.

(** X10: on text of characters below 128 the nine replacement passes amount
    to one character-wise substitution: [&], [<], [>] and the double quote
    become their entities and every other character is kept. In
    particular the [&] of an entity written by a later pass is not escaped
    again. *)
Theorem escapeHtml_character_wise unsafe :
  isAsciiText unsafe = true ->
  escapeHtml unsafe = substitute escapeChar unsafe.
Proof.
  intros H. unfold escapeHtml. rewrite escape_passes.
  pose proof (substitute_escapeChar_ascii _ H) as Hl.
  do 5 rewrite (replaceAll_lacks (ascii_of_nat 226) _ _ _ Hl). reflexivity.
Qed.

Lemma escapeHtml_character_wise_witness :
  escapeHtml "a < b && c" = "a &lt; b &amp;&amp; c".
Proof.
  apply (escapeHtml_character_wise "a < b && c"). reflexivity.
Defined.

(** ** The type graph: the name map and the nesting pass *)

Lemma addType_lastNamed st e :
  (forall n i, fhirTypesMap st !! n = Some i <-> lastNamed (fhirTypes st) n i) ->
  forall n i, fhirTypesMap (addType st e) !! n = Some i
              <-> lastNamed (fhirTypes (addType st e)) n i.
Proof.
  intros Hinv n i. unfold addType.
  destruct (buildType e.1 e.2) as [node|]; [|apply Hinv].
  cbn [fhirTypes fhirTypesMap]. unfold lastNamed.
  destruct (decide (ft_outputName node = n)) as [<-|Hne].
  - rewrite lookup_insert_eq. split.
    + intros [= <-]. split.
      * rewrite list_lookup_middle by reflexivity. reflexivity.
      * intros j fhirType Hlt Hj. apply lookup_lt_Some in Hj.
        rewrite length_app in Hj. simpl in Hj. lia.
    + intros [Hi Hlast]. f_equal.
      destruct ((fhirTypes st ++ [node]) !! i) as [x|] eqn:Hx; [|discriminate Hi].
      pose proof (lookup_lt_Some _ _ _ Hx) as Hlt.
      rewrite length_app in Hlt. simpl in Hlt.
      destruct (decide (i = length (fhirTypes st))) as [->|Hd]; [reflexivity|].
      exfalso. apply (Hlast (length (fhirTypes st)) node); [lia| |reflexivity].
      rewrite list_lookup_middle by reflexivity. reflexivity.
  - rewrite lookup_insert_ne by exact Hne. rewrite Hinv. unfold lastNamed. split.
    + intros [Hi Hlast].
      destruct (fhirTypes st !! i) as [x|] eqn:Hx; [|discriminate Hi].
      split; [rewrite (lookup_app_l_Some _ _ _ _ Hx); exact Hi|].
      intros j fhirType Hlt Hj.
      destruct (decide (j < length (fhirTypes st))) as [Hj'|Hj'].
      * rewrite lookup_app_l in Hj by exact Hj'. exact (Hlast _ _ Hlt Hj).
      * pose proof (lookup_lt_Some _ _ _ Hj) as Hb.
        rewrite length_app in Hb. simpl in Hb.
        assert (j = length (fhirTypes st)) as -> by lia.
        rewrite list_lookup_middle in Hj by reflexivity.
        injection Hj as <-. exact Hne.
    + intros [Hi Hlast].
      destruct ((fhirTypes st ++ [node]) !! i) as [x|] eqn:Hx; [|discriminate Hi].
      pose proof (lookup_lt_Some _ _ _ Hx) as Hb.
      rewrite length_app in Hb. simpl in Hb.
      destruct (decide (i = length (fhirTypes st))) as [->|Hd].
      * rewrite list_lookup_middle in Hx by reflexivity.
        injection Hx as <-. injection Hi as Hi. contradiction.
      * assert (i < length (fhirTypes st)) as Hlt by lia.
        rewrite lookup_app_l in Hx by exact Hlt. rewrite Hx. split; [exact Hi|].
        intros j fhirType Hij Hj. apply (Hlast j fhirType Hij).
        exact (lookup_app_l_Some _ _ _ _ Hj).
Qed.

Lemma addType_foldl_lastNamed schema : forall st,
  (forall n i, fhirTypesMap st !! n = Some i <-> lastNamed (fhirTypes st) n i) ->
  forall n i, fhirTypesMap (foldl addType st schema) !! n = Some i
              <-> lastNamed (fhirTypes (foldl addType st schema)) n i.
Proof.
  induction schema as [|e schema IH]; intros st Hinv; [exact Hinv|].
  cbn [foldl]. apply IH, addType_lastNamed, Hinv.
Qed.

Lemma empty_lastNamed valueSets0 n i :
  fhirTypesMap {| fhirTypes := []; fhirTypesMap := ∅; valueSets := valueSets0 |} !! n
    = Some i
  <-> lastNamed [] n i.
Proof.
  cbn [fhirTypesMap]. rewrite lookup_empty. unfold lastNamed. split.
  - discriminate.
  - intros [H _]. discriminate H.
Qed.

(** X11: after the types of a schema are built from the initial state, the
    name map gives for a name exactly the index of the last node built
    under that name: a lookup never misses a built node, never finds
    another name, and a later entry of the same name hides the earlier
    one. *)
Theorem map_finds_last_node_of_a_name schema n i :
  fhirTypesMap (foldl addType initialState schema) !! n = Some i
  <-> lastNamed (built schema) n i.
Proof.
  pose proof (addType_foldl_lastNamed schema initialState (empty_lastNamed ∅)) as H.
  destruct (addType_foldl schema initialState) as [Hstore _].
  rewrite Hstore in H. exact (H n i).
Qed.

Lemma nestType_outcome typesMap store e :
  nestType typesMap store e = Raise TypeError \/
  exists store', nestType typesMap store e = Done store'.
Proof.
  unfold nestType. destruct (ft_parentType e.2) as [p|]; [|eauto].
  destruct (Js.truthy (Some p)); [|eauto].
  destruct (typesMap !! p) as [parent|]; [|eauto].
  destruct (store !! parent); eauto.
Qed.

Lemma nestTypes_missing typesMap parentType : forall entries store,
  (exists e : nat * FhirType,
     e ∈ entries /\ ft_parentType e.2 = Some parentType /\
     Js.truthy (Some parentType) = true /\ typesMap !! parentType = None) ->
  foldM (nestType typesMap) store entries = Raise TypeError.
Proof.
  induction entries as [|x entries IH]; intros store (e & He & Hp & Ht & Hm).
  - apply elem_of_nil in He. contradiction.
  - cbn [foldM]. apply elem_of_cons in He as [->|He].
    + unfold nestType. rewrite Hp, Ht, Hm. reflexivity.
    + destruct (nestType_outcome typesMap store x) as [->|(store' & ->)];
        [reflexivity|].
      cbn [mbind outcome_bind]. apply IH. eauto.
Qed.

Lemma built_elem fhirType schema :
  fhirType ∈ built schema ->
  exists e, e ∈ schema /\ buildType e.1 e.2 = Some fhirType.
Proof. unfold built. intros H. apply list_elem_of_omap in H. exact H. Qed.

(** X12: when an entry that declares properties names a parent that no
    entry declaring properties carries, a run from the initial state ends
    with a type error in the nesting pass and writes no file at all,
    whatever else the schema holds. *)
Theorem missing_parent_aborts wordWrap localeCompare fuel schema bundle e parentType :
  e ∈ schema -> declares e = true ->
  ts_parentType e.2 = Some parentType -> Js.truthy (Some parentType) = true ->
  (forall e', e' ∈ schema -> e'.1 = parentType -> declares e' = false) ->
  main wordWrap localeCompare fuel initialState schema bundle = ([], Raise TypeError).
Proof.
  intros He Hd Hp Ht Hnone. unfold main. cbn [fhirTypes fhirTypesMap valueSets initialState].
  set (vs := foldl loadValueSet ∅ bundle).
  set (st0 := {| fhirTypes := []; fhirTypesMap := ∅; valueSets := vs |}).
  destruct (addType_foldl schema st0) as [Hstore _]. cbn [fhirTypes st0] in Hstore.
  pose proof (addType_foldl_lastNamed schema st0 (empty_lastNamed vs)) as Hinv.
  assert (fhirTypesMap (foldl addType st0 schema) !! parentType = None) as Hm.
  { destruct (fhirTypesMap (foldl addType st0 schema) !! parentType) as [i|] eqn:E;
      [|reflexivity].
    exfalso. apply Hinv in E as [Hi _]. rewrite Hstore in Hi. simpl in Hi.
    destruct (built schema !! i) as [node|] eqn:Hn; [|discriminate Hi].
    injection Hi as Hi.
    apply list_elem_of_lookup_2, built_elem in Hn as (e' & He' & Hb').
    destruct (buildType_flags _ _ Hb') as (Hd' & Hname & _).
    rewrite (Hnone e' He') in Hd'; [discriminate Hd'|]. rewrite <- Hname. exact Hi. }
  assert (is_Some (buildType e.1 e.2)) as [node Hb].
  { apply buildType_is_Some. unfold declares in Hd.
    destruct (ts_properties e.2); [eauto|discriminate Hd]. }
  destruct (buildType_flags _ _ Hb) as (_ & _ & Hparent & _).
  assert (node ∈ fhirTypes (foldl addType st0 schema)) as Hin.
  { rewrite Hstore. simpl. unfold built. apply list_elem_of_omap. eauto. }
  apply list_elem_of_lookup_1 in Hin as [i Hi].
  unfold nestTypes.
  rewrite (nestTypes_missing _ parentType); [reflexivity|].
  exists (i, node). split; [exact (elem_of_lookup_imap_2 pair _ _ _ Hi)|].
  cbn [snd]. rewrite Hparent. auto.
Qed.

Lemma missing_parent_aborts_witness :
  main noWrap compareCodeUnits 5 initialState orphanSchema [] = ([], Raise TypeError).
Proof.
  apply (missing_parent_aborts noWrap compareCodeUnits 5 orphanSchema []
           ("PlanStep", typeSchema (Some "Plan") [("note", typed "string" "1")])
           "Plan").
  - apply elem_of_cons. right. apply elem_of_cons. left. reflexivity.
  - reflexivity.
  - reflexivity.
  - reflexivity.
  - intros e' He' Hname.
    apply elem_of_cons in He' as [->|He']; [reflexivity|].
    apply elem_of_cons in He' as [->|He']; [discriminate Hname|].
    apply elem_of_nil in He'. contradiction.
Defined.

Lemma addType_undeclared schema : forall st,
  foldl addType st schema = foldl addType st (List.filter declares schema).
Proof.
  induction schema as [|e schema IH]; intros st; [reflexivity|].
  cbn [foldl List.filter]. destruct (declares e) eqn:Hd.
  - cbn [foldl]. apply IH.
  - rewrite <- IH. f_equal. unfold addType, buildType, declares in *.
    destruct (ts_properties e.2); [discriminate Hd|reflexivity].
Qed.

(** X13: a run sees the schema only through the entries that declare
    properties: from any state it writes the same files and ends the same
    way when the other entries are taken out. An entry without properties
    therefore cannot serve as a parent either. *)
Theorem undeclared_entries_are_invisible wordWrap localeCompare fuel st schema bundle :
  main wordWrap localeCompare fuel st schema bundle
  = main wordWrap localeCompare fuel st (List.filter declares schema) bundle.
Proof. unfold main. rewrite <- addType_undeclared. reflexivity. Qed.

Lemma nestTypes_sameNodes typesMap store0 : forall entries store store',
  sameNodes store0 store ->
  foldM (nestType typesMap) store entries = Done store' ->
  sameNodes store0 store'.
Proof.
  induction entries as [|e entries IH]; intros store store' Hs H.
  - injection H as <-. exact Hs.
  - apply foldM_Done_cons in H as (s1 & H1 & H).
    exact (IH _ _ (nestType_sameNodes _ _ _ _ _ Hs H1) H).
Qed.

Lemma nestTypes_children typesMap : forall entries store store',
  foldM (nestType typesMap) store entries = Done store' ->
  forall j,
    ft_subTypes <$> store' !! j
    = (fun node =>
         ft_subTypes node
         ++ map fst (filter (fun e : nat * FhirType =>
                               parentIndex typesMap e.2 = Some j) entries))
      <$> store !! j.
Proof.
  induction entries as [|e entries IH]; intros store store' H j.
  - injection H as <-. rewrite filter_nil.
    destruct (store !! j); [|reflexivity]. simpl. rewrite app_nil_r. reflexivity.
  - apply foldM_Done_cons in H as (s1 & H1 & H). rewrite (IH _ _ H j).
    rewrite filter_cons.
    assert ((parentIndex typesMap e.2 = Some j /\
             exists parentFhirType,
               store !! j = Some parentFhirType /\
               s1 = <[j := withSubTypes parentFhirType
                              (ft_subTypes parentFhirType ++ [e.1])]> store) \/
            (parentIndex typesMap e.2 <> Some j /\ s1 !! j = store !! j)) as Hstep.
    { unfold nestType in H1. unfold parentIndex.
      destruct (ft_parentType e.2) as [p|] eqn:Hp;
        [|injection H1 as <-; right; split; [discriminate|reflexivity]].
      destruct (Js.truthy (Some p));
        [|injection H1 as <-; right; split; [discriminate|reflexivity]].
      destruct (typesMap !! p) as [parent|]; [|discriminate H1].
      destruct (store !! parent) as [parentFhirType|] eqn:Hparent;
        [|discriminate H1].
      injection H1 as <-.
      destruct (decide (parent = j)) as [->|Hne].
      - left. split; [reflexivity|]. eauto.
      - right. split; [congruence|].
        apply list_lookup_insert_ne. exact Hne. }
    destruct Hstep as [(Hpi & parentFhirType & Hparent & ->)|(Hpi & ->)].
    + rewrite decide_True by exact Hpi.
      rewrite list_lookup_insert_eq by exact (lookup_lt_Some _ _ _ Hparent).
      rewrite Hparent. simpl. rewrite <- app_assoc. reflexivity.
    + rewrite decide_False by exact Hpi. reflexivity.
Qed.

(** X14: the nesting pass changes nothing but the lists of nested types,
    and to the list of each node it appends exactly the indices of the
    nodes whose parent name the map resolves to that node, in the order of
    the store. *)
Theorem nesting_appends_the_children typesMap store store' :
  nestTypes typesMap store = Done store' ->
  sameNodes store store' /\
  forall j,
    ft_subTypes <$> store' !! j
    = (fun node => ft_subTypes node ++ childrenOf typesMap store j) <$> store !! j.
Proof.
  intros H. split.
  - exact (nestTypes_sameNodes _ _ _ _ _ (sameNodes_refl store) H).
  - intros j. exact (nestTypes_children _ _ _ _ H j).
Qed.

Lemma nesting_appends_the_children_witness :
  sameNodes (built nestedSchema) nestedStore /\
  forall j,
    ft_subTypes <$> nestedStore !! j
    = (fun node =>
         ft_subTypes node
         ++ childrenOf (fhirTypesMap (foldl addType initialState nestedSchema))
              (built nestedSchema) j)
      <$> built nestedSchema !! j.
Proof.
  apply (nesting_appends_the_children
           (fhirTypesMap (foldl addType initialState nestedSchema))
           (built nestedSchema) nestedStore).
  vm_compute. reflexivity.
Defined.

(** ** The union file *)

Lemma disjunctLines_middle last : forall middle pre,
  pre <> [] ->
  map (disjunctLine (pre ++ middle ++ [last])) (seq (length pre) (length middle))
  = map (fun n => Append 1 ("| " +:+ n)) middle.
Proof.
  induction middle as [|m middle IH]; intros pre Hpre; [reflexivity|].
  change ((m :: middle) ++ [last]) with (m :: (middle ++ [last])).
  cbn [length seq map]. f_equal.
  - unfold disjunctLine. rewrite list_lookup_middle by reflexivity.
    rewrite !length_app. cbn [length default]. rewrite length_app. cbn [length].
    destruct (Nat.eqb_spec (length pre) 0) as [E|_];
      [destruct pre; [contradiction|discriminate E]|].
    destruct (Nat.eqb_spec (length pre) (length pre + S (length middle + 1) - 1))
      as [E|_]; [lia|reflexivity].
  - specialize (IH (pre ++ [m])). rewrite <- app_assoc in IH. cbn [app] in IH.
    rewrite length_app in IH. cbn [length] in IH.
    rewrite Nat.add_1_r in IH. apply IH. destruct pre; discriminate.
Qed.

(** X15: the union file in its three shapes. Without record types it holds
    a blank line only. With a single one the declaration is its first
    disjunct and carries no closing semicolon. With more, the first
    disjunct opens the declaration, every further one is a continuation
    line one level in, and the last alone ends with the semicolon. *)
Theorem union_file_shapes :
  writeResourceFile [] = (distPath "Resource.d.ts", [NewLine]) /\
  (forall n,
     writeResourceFile [n]
     = (distPath "Resource.d.ts",
        [Append 0 (importLine n); NewLine;
         Append 0 ("export type Resource = " +:+ n)])) /\
  (forall first middle last,
     writeResourceFile (first :: middle ++ [last])
     = (distPath "Resource.d.ts",
        map (fun n => Append 0 (importLine n)) (first :: middle ++ [last])
        ++ [NewLine; Append 0 ("export type Resource = " +:+ first)]
        ++ map (fun n => Append 1 ("| " +:+ n)) middle
        ++ [Append 1 ("| " +:+ last +:+ ";")])).
Proof.
  split; [reflexivity|]. split; [reflexivity|].
  intros first middle last. rewrite writeResourceFile_lines. f_equal.
  f_equal. cbn [app]. f_equal.
  cbn [length]. rewrite length_app. cbn [length seq map]. f_equal.
  rewrite seq_app, map_app. f_equal.
  - exact (disjunctLines_middle last middle [first] ltac:(discriminate)).
  - cbn [seq map]. f_equal. unfold disjunctLine.
    change (first :: middle ++ [last]) with ([first] ++ middle ++ [last]).
    rewrite app_assoc.
    rewrite list_lookup_middle by (rewrite length_app; reflexivity).
    rewrite !length_app. cbn [length default Nat.add].
    change (S (length middle) =? 0)%nat with false. cbv iota.
    destruct (Nat.eqb_spec (S (length middle)) (S (length middle + 1) - 1))
      as [_|E]; [reflexivity|lia].
Qed.

(** ** Files of types without properties *)

(** X16: a type without properties that carries nested types still gets a
    file, but the file declares nothing: it holds the import lines
    gathered from the nested types and no declaration, neither of the type
    nor of the types nested in it; the store is left as it was. *)
Theorem propertyless_type_declares_nothing wordWrap localeCompare fuel valueSets
  store id fhirType sets :
  store !! id = Some fhirType ->
  ft_properties fhirType = [] ->
  ft_subTypes fhirType <> [] ->
  buildImports fuel valueSets store id (∅, ∅) = Done sets ->
  writeInterfaceFile wordWrap localeCompare fuel valueSets store id
  = Done (store,
          Some (distPath (ft_outputName fhirType +:+ ".d.ts"),
                map (fun n => Append 0 (importLine n))
                    (importedNames sets.1 sets.2))).
Proof.
  intros Hid Hprops Hsub Himports. unfold writeInterfaceFile.
  rewrite Hid, Hprops, Himports.
  destruct (ft_subTypes fhirType) as [|subType subTypes] eqn:Hs; [contradiction|].
  cbn [mbind outcome_bind].
  destruct fuel as [|fuel]; [discriminate Himports|].
  cbn [writeInterface]. rewrite Hid, Hprops. cbn [mbind outcome_bind fst snd].
  rewrite importLines_foldl. reflexivity.
Qed.

Lemma propertyless_type_declares_nothing_witness :
  writeInterfaceFile noWrap compareCodeUnits 2 ∅ shellStore 0
  = Done (shellStore,
          Some (distPath ("Shell" +:+ ".d.ts"),
                map (fun n => Append 0 (importLine n))
                    (importedNames ({["Shell"; "ShellPart"]} : gset string)
                                   ({["Reference"; "Organization"]} : gset string)))).
Proof.
  assert (exists fhirType,
            shellStore !! 0%nat = Some fhirType /\
            ft_outputName fhirType = "Shell" /\
            ft_properties fhirType = [] /\
            ft_subTypes fhirType = [1%nat]) as (fhirType & Hid & Hname & Hprops & Hsub).
  { eexists. split; [vm_compute; reflexivity|]. repeat split. }
  pose proof (propertyless_type_declares_nothing noWrap compareCodeUnits 2 ∅
                shellStore 0 fhirType
                (({["Shell"; "ShellPart"]} : gset string),
                 ({["Reference"; "Organization"]} : gset string))) as H.
  rewrite Hname in H. apply H.
  - exact Hid.
  - exact Hprops.
  - rewrite Hsub. discriminate.
  - vm_compute. reflexivity.
Defined.

(** ** Bindings and type codes *)

(** X17: a binding constrains string-flavoured type codes only. For every
    other type code the resolved type is settled by the owner, the name
    and the upper cardinality of the property and by the type definition:
    neither the binding nor the corpus nor the fuel is looked at, and the
    resolver returns. *)
Theorem binding_constrains_strings_only fuel fuel' valueSets valueSets'
  property property' typeDefinition :
  oneOf (edt_code typeDefinition) stringCodes = false ->
  p_resourceType property = p_resourceType property' ->
  p_name property = p_name property' ->
  ed_max (p_definition property) = ed_max (p_definition property') ->
  getTypeScriptTypeForProperty fuel valueSets property typeDefinition
  = getTypeScriptTypeForProperty fuel' valueSets' property' typeDefinition /\
  exists typeName,
    getTypeScriptTypeForProperty fuel valueSets property typeDefinition
    = Done typeName.
Proof.
  intros Hcode Howner Hname Hmax.
  unfold getTypeScriptTypeForProperty, baseTypeOf, withCardinality, isMany.
  rewrite Hcode, Howner, Hname, Hmax.
  split; [reflexivity|].
  repeat match goal with
         | |- context [if ?c then _ else _] =>
             lazymatch c with
             | bool_decide _ => fail
             | Js.includes _ _ => fail
             | _ => destruct c
             end
         end; cbn [mbind outcome_bind]; eauto.
Qed.

Lemma binding_constrains_strings_only_witness :
  getTypeScriptTypeForProperty 0 ∅ (boundCode "Sample" "kind" resourceTypesUrl "1")
    {| edt_code := "dateTime"; edt_targetProfile := None |}
  = getTypeScriptTypeForProperty 3 resourceTypesCorpus
      {| p_resourceType := "Sample"; p_name := "kind";
         p_definition := typed "dateTime" "1" |}
      {| edt_code := "dateTime"; edt_targetProfile := None |} /\
  exists typeName,
    getTypeScriptTypeForProperty 0 ∅ (boundCode "Sample" "kind" resourceTypesUrl "1")
      {| edt_code := "dateTime"; edt_targetProfile := None |}
    = Done typeName.
Proof.
  apply (binding_constrains_strings_only 0 3 ∅ resourceTypesCorpus
           (boundCode "Sample" "kind" resourceTypesUrl "1")
           {| p_resourceType := "Sample"; p_name := "kind";
              p_definition := typed "dateTime" "1" |}
           {| edt_code := "dateTime"; edt_targetProfile := None |});
    reflexivity.
Defined.

(** ** Cardinality and imports *)

Lemma replace_lacks c pat rep s :
  lacks c s = true -> Js.replace s (String c pat) rep = s.
Proof.
  induction s as [|a s IH]; intros Hl; [reflexivity|].
  apply lacks_cons in Hl as [Hne Hl].
  rewrite replace_unfold, (prefix_head _ _ _ _ Hne), (IH Hl). reflexivity.
Qed.

Lemma prefix_lacks c : forall p x,
  String.prefix p x = true -> lacks c x = true -> lacks c p = true.
Proof.
  induction p as [|a p IH]; intros x Hp Hl; [reflexivity|].
  destruct x as [|b x]; [discriminate Hp|].
  cbn [String.prefix] in Hp. destruct (ascii_dec a b) as [->|]; [|discriminate Hp].
  cbn [lacks] in Hl |- *. apply andb_true_iff in Hl as [Hb Hx].
  rewrite Hb, (IH _ Hp Hx). reflexivity.
Qed.

Lemma eqb_lacks c x y :
  lacks c x = true -> lacks c y = false -> String.eqb x y = false.
Proof.
  intros Hx Hy. apply String.eqb_neq. intros ->. rewrite Hx in Hy. discriminate Hy.
Qed.

Lemma isLowerCase_upper c : Js.is_upper c = true -> isLowerCase (String c "") = false.
Proof.
  destruct c as [[] [] [] [] [] [] [] []]; vm_compute; intros H;
    first [reflexivity|discriminate H].
Qed.

Lemma isLowerCase_not_upper c : Js.is_upper c = false -> isLowerCase (String c "") = true.
Proof.
  intros H. unfold isLowerCase. cbn [Js.toLowerCase]. unfold Js.lower_ascii.
  rewrite H. apply String.eqb_refl.
Qed.

(** The clean name of a complex type name, bare or as a sequence. *)
Lemma cleanReferencedType_complex c rest suffix :
  complexTypeName (String c rest) = true ->
  suffix = "" \/ suffix = "[]" ->
  cleanReferencedType (String c rest +:+ suffix) = [String c rest].
Proof.
  intros Hn Hsuffix. unfold complexTypeName in Hn.
  rewrite !andb_true_iff in Hn. destruct Hn as [[[[Hup HT] Hbr] Hlt] Hq].
  apply negb_true_iff in HT.
  assert (lacks "<" (String c rest +:+ suffix) = true) as Hlt'.
  { rewrite lacks_app, Hlt. destruct Hsuffix as [->| ->]; reflexivity. }
  unfold cleanReferencedType.
  assert (String.eqb (String c rest +:+ suffix) "T" = false) as ->.
  { destruct Hsuffix as [->| ->]; [rewrite append_nil_r; exact HT|].
    change (String c rest +:+ "[]") with (String c (rest +:+ "[]")).
    cbn [String.eqb]. destruct rest; simpl; apply andb_false_r. }
  assert (Js.startsWith (String c rest +:+ suffix) "'" = false) as ->.
  { change (String c rest +:+ suffix) with (String c (rest +:+ suffix)).
    apply lacks_cons in Hq as [Hne _]. exact (prefix_head _ _ _ _ Hne). }
  change (Js.charAt0 (String c rest +:+ suffix)) with (String c "").
  rewrite (isLowerCase_upper _ Hup).
  rewrite (eqb_lacks "<" _ "BundleEntry<T>[]" Hlt' eq_refl). cbn [orb].
  assert (Js.startsWith (String c rest +:+ suffix) "Reference<" = false) as ->.
  { unfold Js.startsWith.
    destruct (String.prefix "Reference<" (String c rest +:+ suffix)) eqn:E;
      [|reflexivity].
    pose proof (prefix_lacks "<" _ _ E Hlt') as H. discriminate H. }
  f_equal. destruct Hsuffix as [->| ->].
  - rewrite append_nil_r. apply replace_lacks. exact Hbr.
  - pose proof (replace_first_at "[" "]" (String c rest) "" Hbr) as Hr.
    rewrite !append_nil_r in Hr. exact Hr.
Qed.

(** X18: the cardinality of a field does not change what it imports: for a
    complex type name, the type with its cardinality applied has that one
    name as its clean names, whether it is rendered bare or as a
    sequence. *)
Theorem imports_ignore_cardinality d typeName :
  complexTypeName typeName = true ->
  cleanReferencedType (withCardinality d typeName) = [typeName].
Proof.
  intros Hn. destruct typeName as [|c rest]; [discriminate Hn|].
  assert (Js.includes (String c rest) "' | '" = false) as Hi.
  { apply includes_lacks. unfold complexTypeName in Hn.
    rewrite !andb_true_iff in Hn. destruct Hn as [_ Hq]. exact Hq. }
  unfold withCardinality. rewrite Hi. destruct (isMany d).
  - apply cleanReferencedType_complex; auto.
  - rewrite <- (append_nil_r (String c rest)) at 1.
    apply cleanReferencedType_complex; auto.
Qed.

Lemma imports_ignore_cardinality_witness :
  cleanReferencedType (withCardinality (typed "HumanName" "*") "HumanName")
  = ["HumanName"].
Proof.
  apply (imports_ignore_cardinality (typed "HumanName" "*") "HumanName").
  reflexivity.
Defined.

(** X19: a type that starts with a character below 128 other than an
    upper-case letter imports nothing, whatever its cardinality: the
    primitive types, the literal unions and their parenthesized sequences
    are all passed over, and so is the empty type name. *)
Theorem lower_case_types_import_nothing d typeName :
  startsLowerCase typeName = true ->
  cleanReferencedType (withCardinality d typeName) = [].
Proof.
  intros Hs.
  assert (forall c rest,
            Js.is_upper c = false ->
            cleanReferencedType (String c rest) = []) as Hclean.
  { intros c rest Hup. unfold cleanReferencedType.
    assert (String.eqb (String c rest) "T" = false) as ->.
    { cbn [String.eqb]. destruct (Ascii.eqb_spec c "T") as [->|_];
        [discriminate Hup|reflexivity]. }
    change (Js.charAt0 (String c rest)) with (String c "").
    rewrite (isLowerCase_not_upper _ Hup), orb_true_r. reflexivity. }
  unfold withCardinality.
  destruct (isMany d); [|destruct typeName as [|c rest]; [reflexivity|]].
  - destruct (Js.includes typeName "' | '"); [apply Hclean; reflexivity|].
    destruct typeName as [|c rest]; [reflexivity|].
    change (String c rest +:+ "[]") with (String c (rest +:+ "[]")).
    apply Hclean. cbn [startsLowerCase] in Hs.
    apply andb_true_iff in Hs as [_ Hs]. apply negb_true_iff in Hs. exact Hs.
  - apply Hclean. cbn [startsLowerCase] in Hs.
    apply andb_true_iff in Hs as [_ Hs]. apply negb_true_iff in Hs. exact Hs.
Qed.

Lemma lower_case_types_import_nothing_witness :
  cleanReferencedType (withCardinality (typed "code" "*") "'a' | 'b'") = [] /\
  withCardinality (typed "code" "*") "'a' | 'b'" = "('a' | 'b')[]".
Proof.
  split; [|reflexivity].
  apply (lower_case_types_import_nothing (typed "code" "*") "'a' | 'b'").
  reflexivity.
Defined.

(** ** Inclusion rules, one by one *)

Lemma buildValueSetInclude_result getValues result include :
  buildValueSetInclude getValues result include
  = (part ← buildValueSetInclude getValues [] include; Done (result ++ part)).
Proof.
  unfold buildValueSetInclude.
  destruct (vsi_concept include) as [concepts|].
  - cbn [mbind outcome_bind]. rewrite !pushConceptCodes. reflexivity.
  - destruct (vsi_system include) as [system|];
      [|cbn [mbind outcome_bind]; rewrite app_nil_r; reflexivity].
    destruct (Js.truthy (Some system));
      [|cbn [mbind outcome_bind]; rewrite app_nil_r; reflexivity].
    destruct (getValues system); reflexivity.
Qed.

Lemma buildValueSetIncludes_parts getValues : forall includes parts result,
  mapM (buildValueSetInclude getValues []) includes = Done parts ->
  foldM (buildValueSetInclude getValues) result includes
  = Done (result ++ concat parts).
Proof.
  induction includes as [|include includes IH]; intros parts result H.
  - injection H as <-. simpl. rewrite app_nil_r. reflexivity.
  - cbn [mapM] in H. apply bind_Done in H as (part & Hpart & H).
    apply bind_Done in H as (parts' & Hparts & H). injection H as <-.
    cbn [foldM]. rewrite buildValueSetInclude_result, Hpart.
    cbn [mbind outcome_bind]. rewrite (IH _ _ Hparts).
    cbn [concat]. rewrite app_assoc. reflexivity.
Qed.

(** X20: a value set flattens rule by rule: when each of its inclusion
    rules contributes its codes (the listed ones, or the flattened target
    of its system), the value set flattens to these contributions one
    after the other, in the order of the rules, nothing merged or
    dropped. *)
Theorem value_set_flattens_rule_by_rule fuel valueSets url u includes parts :
  valueSets !! stripVersion url
    = Some (ValueSet u (Some {| vs_include := Some includes |})) ->
  mapM (includeValues fuel valueSets) includes = Done parts ->
  getValueSetValues (S fuel) valueSets url = Done (concat parts).
Proof.
  intros Hl Hparts. cbn [getValueSetValues]. unfold buildValueSetValues.
  rewrite Hl. unfold buildValueSetComposeValues. cbn [vs_include].
  exact (buildValueSetIncludes_parts _ _ _ [] Hparts).
Qed.

Lemma value_set_flattens_rule_by_rule_witness :
  getValueSetValues 2 statusCorpus "http://example.org/vs/status"
  = Done (concat [["active"; "inactive"]; ["active"; "suspended"; "inactive"]]).
Proof.
  apply (value_set_flattens_rule_by_rule 1 statusCorpus "http://example.org/vs/status"
           (Some "http://example.org/vs/status")
           [ {| vsi_system := Some "http://example.org/cs/status";
                vsi_concept := Some [ {| vsc_code := Some "active" |};
                                      {| vsc_code := Some "inactive" |} ] |};
             {| vsi_system := Some "http://example.org/cs/status";
                vsi_concept := None |} ]).
  - vm_compute. reflexivity.
  - vm_compute. reflexivity.
Defined.

(** ** Documentation blocks *)

Lemma lacks_trimStart c s : lacks c s = true -> lacks c (Js.trimStart s) = true.
Proof.
  induction s as [|a s IH]; intros Hl; [reflexivity|].
  cbn [Js.trimStart]. destruct (Js.is_space a); [|exact Hl].
  cbn [lacks] in Hl. apply andb_true_iff in Hl as [_ Hl]. exact (IH Hl).
Qed.

Lemma lacks_trimEnd c s : lacks c s = true -> lacks c (Js.trimEnd s) = true.
Proof.
  induction s as [|a s IH]; intros Hl; [reflexivity|].
  cbn [lacks] in Hl. apply andb_true_iff in Hl as [Ha Hl].
  cbn [Js.trimEnd]. specialize (IH Hl). destruct (Js.trimEnd s) as [|b t].
  - destruct (Js.is_space a); [reflexivity|]. cbn [lacks]. rewrite Ha. reflexivity.
  - cbn [lacks] in IH |- *. rewrite Ha, IH. reflexivity.
Qed.

Lemma trim_star rest : exists kept, Js.trim (String "*" rest) = String "*" kept.
Proof.
  unfold Js.trim. change (Js.trimStart (String "*" rest)) with (String "*" rest).
  cbn [Js.trimEnd]. destruct (Js.trimEnd rest) as [|b t]; eauto.
Qed.

Lemma javadocLine_text indent text :
  javadocLine indent (AppendNoWrap indent (" " +:+ Js.trim ("* " +:+ escapeHtml text))).
Proof.
  destruct (escapeHtml_lacks text) as (Hlt & Hgt & Hq).
  exists (" " +:+ Js.trim ("* " +:+ escapeHtml text)). split; [reflexivity|].
  split.
  - change ("* " +:+ escapeHtml text) with (String "*" (" " +:+ escapeHtml text)).
    destruct (trim_star (" " +:+ escapeHtml text)) as [kept ->].
    change (" " +:+ String "*" kept) with (" *" +:+ kept).
    apply prefix_app.
  - assert (forall c, lacks c " " = true -> lacks c "* " = true ->
                      lacks c (escapeHtml text) = true ->
                      lacks c (" " +:+ Js.trim ("* " +:+ escapeHtml text)) = true)
      as Hall.
    { intros c Hs Hstar Hc. rewrite lacks_app, Hs. unfold Js.trim.
      apply lacks_trimEnd, lacks_trimStart. rewrite lacks_app, Hstar, Hc.
      reflexivity. }
    repeat split; apply Hall; reflexivity || assumption.
Qed.

Lemma javadoc_lines texts : forall b,
  exists inner,
    foldl (fun b javadocLine =>
             appendNoWrap b (" " +:+ Js.trim ("* " +:+ escapeHtml javadocLine)))
          b texts
    = {| fb_lines := fb_lines b ++ inner; indentCount := indentCount b |} /\
    Forall (javadocLine (indentCount b)) inner.
Proof.
  induction texts as [|text texts IH]; intros b.
  - exists []. split; [|constructor].
    destruct b as [ls ic]. cbn [foldl fb_lines indentCount]. rewrite app_nil_r. reflexivity.
  - cbn [foldl].
    destruct (IH (appendNoWrap b (" " +:+ Js.trim ("* " +:+ escapeHtml text))))
      as (inner & -> & Hinner).
    cbn [appendNoWrap fb_lines indentCount] in *.
    eexists. split; [rewrite <- app_assoc; reflexivity|].
    constructor; [apply javadocLine_text|exact Hinner].
Qed.

Lemma javadoc_paragraphs (wordWrap : string -> nat -> list string) textLines :
  forall b,
  exists inner,
    foldl (fun b textLine =>
             foldl (fun b javadocLine =>
                      appendNoWrap b
                        (" " +:+ Js.trim ("* " +:+ escapeHtml javadocLine)))
                   b (wordWrap textLine 70))
          b textLines
    = {| fb_lines := fb_lines b ++ inner; indentCount := indentCount b |} /\
    Forall (javadocLine (indentCount b)) inner.
Proof.
  induction textLines as [|textLine textLines IH]; intros b.
  - exists []. split; [|constructor].
    destruct b as [ls ic]. cbn [foldl fb_lines indentCount]. rewrite app_nil_r. reflexivity.
  - cbn [foldl]. destruct (javadoc_lines (wordWrap textLine 70) b) as (first & -> & Hfirst).
    destruct (IH {| fb_lines := fb_lines b ++ first; indentCount := indentCount b |})
      as (inner & -> & Hinner).
    cbn [fb_lines indentCount] in *.
    exists (first ++ inner). split; [rewrite <- app_assoc; reflexivity|].
    apply Forall_app. split; assumption.
Qed.

(** X21: the documentation block of a non-empty text, whatever the word
    wrapper returns: it opens with [/**] and closes with [ */] at the
    indentation in force, and every line in between is written unwrapped,
    starts with [ *] and holds no [<], no [>] and no double quote. The
    builder keeps its earlier lines and its indentation. *)
Theorem documentation_block (wordWrap : string -> nat -> list string) b text :
  Js.truthy text = true ->
  exists inner,
    generateJavadoc wordWrap b text
    = {| fb_lines := fb_lines b ++ [Append (indentCount b) "/**"] ++ inner
                     ++ [Append (indentCount b) " */"];
         indentCount := indentCount b |} /\
    Forall (javadocLine (indentCount b)) inner.
Proof.
  intros Ht. unfold generateJavadoc. destruct text as [t|]; [|discriminate Ht].
  rewrite Ht.
  destruct (javadoc_paragraphs wordWrap (Js.split t lineFeed) (append b "/**"))
    as (inner & -> & Hinner).
  cbn [append fb_lines indentCount] in *.
  exists inner. split; [|exact Hinner].
  unfold append. cbn [fb_lines indentCount]. rewrite <- !app_assoc. reflexivity.
Qed.

Lemma documentation_block_witness :
  exists inner,
    generateJavadoc noWrap newFileBuilder (Some "a < b")
    = {| fb_lines := fb_lines newFileBuilder
                     ++ [Append (indentCount newFileBuilder) "/**"] ++ inner
                     ++ [Append (indentCount newFileBuilder) " */"];
         indentCount := indentCount newFileBuilder |} /\
    Forall (javadocLine (indentCount newFileBuilder)) inner.
Proof.
  apply (documentation_block noWrap newFileBuilder (Some "a < b")). reflexivity.
Defined.

(** * Imports of a unit (C5, C6) *)

(** ** Resolution at different depths *)

Lemma getValueSetValues_fuel_le valueSets url values : forall fuel fuel',
  fuel <= fuel' ->
  getValueSetValues fuel valueSets url = Done values ->
  getValueSetValues fuel' valueSets url = Done values.
Proof.
  intros fuel fuel' Hle. induction Hle as [|fuel' _ IH]; [auto|].
  intros H. apply getValueSetValues_fuel_mono, IH, H.
Qed.

Section ResolverMono.
Variable valueSets : gmap string BundleResource.
Variables f1 f2 : nat.
Hypothesis f12 : forall url values,
  getValueSetValues f1 valueSets url = Done values ->
  getValueSetValues f2 valueSets url = Done values.

Lemma getTypeScriptTypeForProperty_mono property typeDefinition t :
  getTypeScriptTypeForProperty f1 valueSets property typeDefinition = Done t ->
  getTypeScriptTypeForProperty f2 valueSets property typeDefinition = Done t.
Proof.
  unfold getTypeScriptTypeForProperty. intros H.
  apply bind_Done in H as (base & Hb & H).
  assert (baseTypeOf f2 valueSets property typeDefinition = Done base) as ->;
    [|exact H].
  revert Hb. unfold baseTypeOf.
  destruct (oneOf (edt_code typeDefinition) stringCodes); [|auto].
  unfold stringBaseType.
  destruct (requiredValueSet (p_definition property)) as [vs|]; [|auto].
  destruct (String.eqb vs resourceTypesUrl); [auto|].
  destruct (negb (String.eqb vs allTypesUrl) && negb (String.eqb vs definedTypesUrl));
    [|auto].
  intros H0. apply bind_Done in H0 as (values & Hv & H0).
  rewrite (f12 _ _ Hv). exact H0.
Qed.

Lemma getTypeScriptProperties_mono property fields :
  getTypeScriptProperties f1 valueSets property = Done fields ->
  getTypeScriptProperties f2 valueSets property = Done fields.
Proof.
  unfold getTypeScriptProperties.
  destruct (isGenericResource property); [auto|].
  destruct (isBundleEntry property); [auto|].
  destruct (Js.truthy (ed_contentReference (p_definition property))); [auto|].
  destruct (Js.endsWith (p_name property) "[x]").
  - destruct (ed_type (p_definition property)) as [alternatives|]; [|auto].
    generalize (Js.replace (p_name property) "[x]" "") as baseName. intros baseName.
    revert fields. induction alternatives as [|alt alts IH]; intros fields H; [exact H|].
    cbn [mapM] in *. apply bind_Done in H as (y & Hy & H).
    apply bind_Done in H as (ys & Hys & H).
    apply bind_Done in Hy as (t & Ht & Hy).
    injection Hy as <-.
    rewrite (getTypeScriptTypeForProperty_mono _ _ _ Ht). cbn [mbind outcome_bind].
    rewrite (IH _ Hys). exact H.
  - destruct (ed_type (p_definition property)) as [[|alt alts]|]; [auto| |auto].
    intros H. apply bind_Done in H as (t & Ht & H).
    rewrite (getTypeScriptTypeForProperty_mono _ _ _ Ht). exact H.
Qed.
End ResolverMono.

(** A property resolves to the same fields at every depth at which it
    resolves. *)
Lemma getTypeScriptProperties_agree valueSets property f1 f2 fields1 fields2 :
  getTypeScriptProperties f1 valueSets property = Done fields1 ->
  getTypeScriptProperties f2 valueSets property = Done fields2 ->
  fields1 = fields2.
Proof.
  intros H1 H2.
  assert (getTypeScriptProperties (f1 `max` f2) valueSets property = Done fields1) as E1.
  { apply (getTypeScriptProperties_mono valueSets f1); [|exact H1].
    intros url values. apply getValueSetValues_fuel_le. lia. }
  assert (getTypeScriptProperties (f1 `max` f2) valueSets property = Done fields2) as E2.
  { apply (getTypeScriptProperties_mono valueSets f2); [|exact H2].
    intros url values. apply getValueSetValues_fuel_le. lia. }
  congruence.
Qed.

(** ** What a unit refers to *)

Lemma addFieldImports_complete field n : forall referenced,
  n ∈ referenced \/ n ∈ cleanReferencedType (typeName field) ->
  n ∈ addFieldImports referenced field.
Proof.
  unfold addFieldImports.
  induction (cleanReferencedType (typeName field)) as [|c cs IH];
    intros referenced H.
  - destruct H as [H|H]; [exact H|inversion H].
  - cbn [foldl]. apply IH. destruct H as [H|H].
    + left. set_solver.
    + apply elem_of_cons in H as [->|H]; [left; set_solver|right; exact H].
Qed.

Lemma addFieldsImports_complete n : forall fields referenced,
  n ∈ referenced \/
  (exists field, field ∈ fields /\ n ∈ cleanReferencedType (typeName field)) ->
  n ∈ foldl addFieldImports referenced fields.
Proof.
  induction fields as [|f fields IH]; intros referenced H.
  - destruct H as [H|(field & Hf & _)]; [exact H|inversion Hf].
  - cbn [foldl]. apply IH. destruct H as [H|(field & Hf & Hn)].
    + left. apply addFieldImports_complete. left. exact H.
    + apply elem_of_cons in Hf as [->|Hf].
      * left. apply addFieldImports_complete. right. exact Hn.
      * right. eauto.
Qed.

Lemma propertyImports_complete fuel valueSets n : forall properties referenced result,
  propertyImports fuel valueSets referenced properties = Done result ->
  (n ∈ referenced -> n ∈ result) /\
  forall property, property ∈ properties ->
    exists fields,
      getTypeScriptProperties fuel valueSets property = Done fields /\
      forall field, field ∈ fields ->
        n ∈ cleanReferencedType (typeName field) -> n ∈ result.
Proof.
  unfold propertyImports.
  induction properties as [|p properties IH]; intros referenced result H.
  - injection H as <-. split; [auto|]. intros property Hp. inversion Hp.
  - apply foldM_Done_cons in H as (r1 & H1 & H2).
    destruct (IH _ _ H2) as [Hmono Hrest].
    unfold addPropertyImports in H1.
    apply bind_Done in H1 as (fields & Hf & H1). injection H1 as <-.
    split.
    + intros Hn. apply Hmono, addFieldsImports_complete. left. exact Hn.
    + intros property Hp. apply elem_of_cons in Hp as [->|Hp]; [|exact (Hrest _ Hp)].
      exists fields. split; [exact Hf|]. intros field Hfield Hn.
      apply Hmono, addFieldsImports_complete. right. eauto.
Qed.

(** The referenced names of a unit, both ways: a name is referenced
    exactly when it was there at the start, or is [Resource] in a unit with
    a type named [Reference], or is a clean referenced name of a resolved
    field of a type of the unit. *)
Lemma buildImports_complete valueSets store n : forall fuel id sets sets',
  buildImports fuel valueSets store id sets = Done sets' ->
  (n ∈ sets.2 -> n ∈ sets'.2) /\
  forall id' fhirType',
    inUnit store id id' -> store !! id' = Some fhirType' ->
    (n = "Resource" /\ ft_outputName fhirType' = "Reference") \/
      refersTo valueSets fhirType' n ->
    n ∈ sets'.2.
Proof.
  induction fuel as [|fuel IH]; intros id sets sets' H; [discriminate H|].
  cbn [buildImports] in H.
  destruct (store !! id) as [fhirType|] eqn:Hid; [|discriminate H].
  apply bind_Done in H as (referenced & Hprops & H).
  apply bind_Done in H as (s2 & Hsubs & H). injection H as <-. cbn [snd].
  assert (forall subs s0 s2,
            foldM (fun s subType => buildImports fuel valueSets store subType s) s0 subs
              = Done s2 ->
            (n ∈ s0.2 -> n ∈ s2.2) /\
            forall subType, subType ∈ subs ->
              forall id' fhirType',
                inUnit store subType id' -> store !! id' = Some fhirType' ->
                (n = "Resource" /\ ft_outputName fhirType' = "Reference") \/
                  refersTo valueSets fhirType' n ->
                n ∈ s2.2) as Hloop.
  { clear -IH. induction subs as [|sub subs IHs]; intros s0 s2 H.
    - injection H as <-. split; [auto|]. intros ? Hin. inversion Hin.
    - apply foldM_Done_cons in H as (s1 & H1 & H2).
      destruct (IH _ _ _ H1) as [Hmono1 Hunit1].
      destruct (IHs _ _ H2) as [Hmono2 Hunit2].
      split; [auto|].
      intros subType Hin id' fhirType' Hu Hl Hn.
      apply elem_of_cons in Hin as [->|Hin].
      + apply Hmono2. eapply Hunit1; eassumption.
      + eapply Hunit2; eassumption. }
  destruct (Hloop _ _ _ Hsubs) as [Hmono Hunit]. cbn [snd] in Hmono.
  destruct (propertyImports_complete _ _ n _ _ _ Hprops) as [Hpmono Hfields].
  assert (forall x : gset string,
            n ∈ x ->
            n ∈ (if String.eqb (ft_outputName fhirType) "Reference"
                 then {["Resource"]} ∪ x else x)) as Hlast.
  { intros x Hx. destruct (String.eqb (ft_outputName fhirType) "Reference");
      [set_solver|exact Hx]. }
  split; [intros Hn; apply Hlast, Hmono, Hpmono, Hn|].
  intros id' fhirType' Hu Hl Hn.
  inversion Hu as [|? ft0 subType ? Hid0 Hin Hu']; subst.
  - assert (fhirType' = fhirType) as -> by congruence.
    destruct Hn as [[-> Hname]|(fuel' & property & fields & field & Hp & Hf & Hfield & Hc)].
    + rewrite Hname. cbn [String.eqb]. rewrite !Ascii.eqb_refl. set_solver.
    + apply Hlast, Hmono.
      destruct (Hfields _ Hp) as (fields0 & Hf0 & Hall).
      rewrite (getTypeScriptProperties_agree _ _ _ _ _ _ Hf0 Hf) in Hall.
      exact (Hall _ Hfield Hc).
  - assert (ft0 = fhirType) as -> by congruence.
    apply Hlast. eapply Hunit; eassumption.
Qed.

Lemma buildImports_referenced_from valueSets store n : forall fuel id sets sets',
  buildImports fuel valueSets store id sets = Done sets' ->
  n ∈ sets'.2 ->
  n ∈ sets.2 \/
  exists id' fhirType',
    inUnit store id id' /\ store !! id' = Some fhirType' /\
    ((n = "Resource" /\ ft_outputName fhirType' = "Reference") \/
     refersTo valueSets fhirType' n).
Proof.
  induction fuel as [|fuel IH]; intros id sets sets' H Hn; [discriminate H|].
  cbn [buildImports] in H.
  destruct (store !! id) as [fhirType|] eqn:Hid; [|discriminate H].
  apply bind_Done in H as (referenced & Hprops & H).
  apply bind_Done in H as (s2 & Hsubs & H). injection H as <-. cbn [snd] in Hn.
  assert (n ∈ s2.2 \/ (n = "Resource" /\ ft_outputName fhirType = "Reference"))
    as [Hn2|Href].
  { destruct (String.eqb_spec (ft_outputName fhirType) "Reference") as [E|_];
      [|left; exact Hn].
    apply elem_of_union in Hn as [Hn|Hn]; [|left; exact Hn].
    apply elem_of_singleton in Hn. right. auto. }
  2:{ right. exists id, fhirType. split; [constructor|]. split; [exact Hid|].
      left. exact Href. }
  assert (forall subs s0 s2,
            foldM (fun s subType => buildImports fuel valueSets store subType s) s0 subs
              = Done s2 ->
            n ∈ s2.2 ->
            n ∈ s0.2 \/
            exists subType id' fhirType',
              subType ∈ subs /\ inUnit store subType id' /\
              store !! id' = Some fhirType' /\
              ((n = "Resource" /\ ft_outputName fhirType' = "Reference") \/
               refersTo valueSets fhirType' n)) as Hloop.
  { clear -IH. induction subs as [|sub subs IHs]; intros s0 s2 H Hn.
    - injection H as <-. left. exact Hn.
    - apply foldM_Done_cons in H as (s1 & H1 & H2).
      destruct (IHs _ _ H2 Hn) as [Hn1|(subType & id' & ft' & Hin & Hu & Hl & Hc)].
      + destruct (IH _ _ _ H1 Hn1) as [Hn0|(id' & ft' & Hu & Hl & Hc)].
        * left. exact Hn0.
        * right. exists sub, id', ft'. split; [left|auto].
      + right. exists subType, id', ft'. split; [right; exact Hin|auto]. }
  destruct (Hloop _ _ _ Hsubs Hn2) as [Hn0|(subType & id' & ft' & Hin & Hu & Hl & Hc)].
  - cbn [snd] in Hn0.
    destruct (propertyImports_only _ _ _ _ _ _ Hprops Hn0)
      as [Hstart|(property & fields & field & Hp & Hf & Hfield & Hc)];
      [left; exact Hstart|].
    right. exists id, fhirType. split; [constructor|]. split; [exact Hid|].
    right. exists (S fuel), property, fields, field. auto.
  - right. exists id', ft'. split; [|auto].
    econstructor; eassumption.
Qed.

(** ** Where the declarations of a file begin *)

Lemma grows_refl b : grows b b.
Proof. exists []. rewrite app_nil_r. reflexivity. Qed.

Lemma grows_trans b1 b2 b3 : grows b1 b2 -> grows b2 b3 -> grows b1 b3.
Proof.
  intros [e1 H1] [e2 H2]. exists (e1 ++ e2). rewrite H2, H1, app_assoc. reflexivity.
Qed.

Lemma continues_grows b b' : continues b b' -> grows b b'.
Proof. intros [_ H]. exact H. Qed.

Lemma grows_indentBy b n : grows b (indentBy b n).
Proof. exists []. cbn [indentBy fb_lines]. rewrite app_nil_r. reflexivity. Qed.

Lemma grows_append b text : grows b (append b text).
Proof. apply continues_grows, continues_append. Qed.

(** ** No import line among the declarations *)

Lemma emits_refl b : emits b b.
Proof.
  split; [reflexivity|]. exists []. rewrite app_nil_r. split; [reflexivity|constructor].
Qed.

Lemma emits_trans b1 b2 b3 : emits b1 b2 -> emits b2 b3 -> emits b1 b3.
Proof.
  intros [Hi1 (e1 & H1 & Hp1)] [Hi2 (e2 & H2 & Hp2)]. split; [congruence|].
  exists (e1 ++ e2). split; [rewrite H2, H1, app_assoc; reflexivity|].
  apply Forall_app. split; assumption.
Qed.

Lemma emits_newLine b : emits b (newLine b).
Proof.
  split; [reflexivity|]. exists [NewLine]. split; [reflexivity|].
  constructor; [|constructor]. intros text H. discriminate H.
Qed.

Lemma emits_appendNoWrap b text : emits b (appendNoWrap b text).
Proof.
  split; [reflexivity|]. eexists. split; [reflexivity|].
  constructor; [|constructor]. intros text' H. discriminate H.
Qed.

Lemma emits_append b text :
  indentCount b <> 0%Z \/ Js.startsWith text "import " = false ->
  emits b (append b text).
Proof.
  intros H. split; [reflexivity|]. eexists. split; [reflexivity|].
  constructor; [|constructor]. intros text' E. injection E as Hi <-.
  destruct H as [H|H]; [contradiction|exact H].
Qed.

Lemma emits_foldl {A} (f : FileBuilder -> A -> FileBuilder) l :
  (forall b x, emits b (f b x)) -> forall b, emits b (foldl f b l).
Proof.
  intros Hf. induction l as [|x l IH]; intros b; [apply emits_refl|].
  cbn [foldl]. eapply emits_trans; [apply Hf|apply IH].
Qed.

Lemma emits_foldl_at {A} (f : FileBuilder -> A -> FileBuilder) l i :
  (forall b x, indentCount b = i -> emits b (f b x)) ->
  forall b, indentCount b = i -> emits b (foldl f b l).
Proof.
  intros Hf. induction l as [|x l IH]; intros b Hb; [apply emits_refl|].
  cbn [foldl]. pose proof (Hf b x Hb) as Hstep.
  eapply emits_trans; [exact Hstep|]. apply IH.
  destruct Hstep as [Hi _]. congruence.
Qed.

Lemma emits_foldM_at {A} (f : FileBuilder -> A -> outcome FileBuilder) l i :
  (forall b x b', indentCount b = i -> f b x = Done b' -> emits b b') ->
  forall b b', indentCount b = i -> foldM f b l = Done b' -> emits b b'.
Proof.
  intros Hf. induction l as [|x l IH]; intros b b' Hb H.
  - injection H as <-. apply emits_refl.
  - apply foldM_Done_cons in H as (b1 & H1 & H2).
    pose proof (Hf _ _ _ Hb H1) as Hstep.
    eapply emits_trans; [exact Hstep|]. eapply IH; [|exact H2].
    destruct Hstep as [Hi _]. congruence.
Qed.

(** The lines between an opening at the margin and the closing line one
    level out. *)
Lemma emits_block b c text :
  emits (indentBy b 1) c ->
  Js.startsWith text "import " = false ->
  emits b (append (indentBy c (-1)) text).
Proof.
  intros [Hi (extra & Hl & Hp)] Ht. cbn [indentBy indentCount fb_lines] in Hi, Hl.
  split; [cbn [append indentBy indentCount]; lia|].
  exists (extra ++ [Append (indentCount c + -1)%Z text]). split.
  - cbn [append indentBy fb_lines indentCount]. rewrite Hl, app_assoc. reflexivity.
  - apply Forall_app. split; [exact Hp|].
    constructor; [|constructor]. intros text' E. injection E as _ <-. exact Ht.
Qed.

Section Openings.
Variable wordWrap : string -> nat -> list string.
Variable localeCompare : string -> string -> Z.

(** A declaration opens with a blank line. *)
Lemma writeDeclaration_opens fuel valueSets b fhirType b' :
  writeDeclaration wordWrap fuel valueSets b fhirType = Done b' ->
  exists rest, fb_lines b' = fb_lines b ++ NewLine :: rest.
Proof.
  unfold writeDeclaration.
  generalize (Some "Optional Resource referred to by this reference.") as note.
  intros note H.
  apply bind_Done in H as (b6 & Hprops & H). injection H as <-.
  set (b2 := generateJavadoc wordWrap (newLine b)
               (ts_description (ft_definition fhirType))) in *.
  set (header := "export interface " +:+ ft_outputName fhirType
             +:+ (if oneOf (ft_outputName fhirType) genericTypes
                  then genericClause else "") +:+ " {") in *.
  set (b4 := indentBy (append b2 header) 1) in *.
  set (b5 := if ft_resource fhirType then _ else b4) in *.
  assert (grows (newLine b) b4) as H4.
  { eapply grows_trans; [apply continues_grows, continues_generateJavadoc|].
    fold b2. eapply grows_trans; [apply grows_append|apply grows_indentBy]. }
  assert (grows b4 b5) as H45.
  { subst b5. destruct (ft_resource fhirType); [|apply grows_refl].
    apply continues_grows.
    eapply continues_trans; [apply continues_newLine|].
    eapply continues_trans; [apply continues_generateJavadoc|].
    apply continues_append. }
  assert (grows b5 b6) as H56.
  { apply continues_grows. eapply continues_foldM; [|exact Hprops].
    intros b0 property b0' H0.
    eapply continues_trans; [apply continues_newLine|].
    eapply continues_writeInterfaceProperty; exact H0. }
  assert (grows b6 (if String.eqb (ft_outputName fhirType) "Reference"
                    then append (generateJavadoc wordWrap (newLine b6) note)
                                "resource?: T;"
                    else b6)) as H67.
  { destruct (String.eqb (ft_outputName fhirType) "Reference"); [|apply grows_refl].
    apply continues_grows.
    eapply continues_trans; [apply continues_newLine|].
    eapply continues_trans; [apply continues_generateJavadoc|].
    apply continues_append. }
  pose proof (grows_trans _ _ _ H4
                (grows_trans _ _ _ H45
                   (grows_trans _ _ _ H56
                      (grows_trans _ _ _ H67
                         (grows_trans _ _ _ (grows_indentBy _ (-1))
                            (grows_append _ "}")))))) as [extra Hextra].
  exists extra. rewrite Hextra. cbn [newLine fb_lines].
  rewrite <- app_assoc. reflexivity.
Qed.

(** What [writeInterface] adds is nothing, or begins with a blank
    line. *)
Lemma writeInterface_opens fuel valueSets store b id r :
  writeInterface wordWrap localeCompare fuel valueSets (store, b) id = Done r ->
  fb_lines r.2 = fb_lines b \/
  exists rest, fb_lines r.2 = fb_lines b ++ NewLine :: rest.
Proof.
  intros H. destruct fuel as [|fuel]; [discriminate H|].
  cbn [writeInterface] in H.
  destruct (store !! id) as [fhirType|]; [|discriminate H].
  destruct (ft_properties fhirType) as [|p ps] eqn:Hps.
  { injection H as <-. left. reflexivity. }
  apply bind_Done in H as (b1 & Hdecl & H).
  destruct (writeDeclaration_opens _ _ _ _ _ Hdecl) as [rest Hrest].
  destruct (writeInterfaces_continues _ _ _ _ _ _ _ H) as [_ [after Hafter]].
  cbn [snd] in Hafter. right. exists (rest ++ after).
  rewrite Hafter, Hrest, <- app_assoc. reflexivity.
Qed.

Lemma emits_generateJavadoc b text : emits b (generateJavadoc wordWrap b text).
Proof.
  unfold generateJavadoc. destruct text as [t|]; [|apply emits_refl].
  destruct (Js.truthy (Some t)); [|apply emits_refl].
  eapply emits_trans; [apply (emits_append b "/**"); right; reflexivity|].
  eapply emits_trans; [|apply emits_append; right; reflexivity].
  apply emits_foldl. intros b0 textLine.
  apply emits_foldl. intros b1 javadocLine. apply emits_appendNoWrap.
Qed.

Lemma emits_writeInterfaceProperty fuel valueSets b property b' :
  indentCount b <> 0%Z ->
  writeInterfaceProperty wordWrap fuel valueSets b property = Done b' ->
  emits b b'.
Proof.
  unfold writeInterfaceProperty. intros Hb H.
  apply bind_Done in H as (fields & _ & H). injection H as <-.
  apply (emits_foldl_at _ _ (indentCount b)); [|reflexivity].
  intros b0 field Hb0.
  eapply emits_trans; [apply emits_newLine|].
  eapply emits_trans; [apply emits_generateJavadoc|].
  apply emits_append. left.
  destruct (continues_generateJavadoc wordWrap (newLine b0)
              (ed_definition (p_definition property))) as [Hi _].
  rewrite Hi. cbn [newLine indentCount]. congruence.
Qed.

(** A declaration written at the margin holds no import line. *)
Lemma writeDeclaration_emits fuel valueSets b fhirType b' :
  indentCount b = 0%Z ->
  writeDeclaration wordWrap fuel valueSets b fhirType = Done b' ->
  emits b b'.
Proof.
  intros Hb. unfold writeDeclaration.
  generalize (Some "Optional Resource referred to by this reference.") as note.
  intros note H.
  apply bind_Done in H as (b6 & Hprops & H). injection H as <-.
  set (b2 := generateJavadoc wordWrap (newLine b)
               (ts_description (ft_definition fhirType))) in *.
  set (header := "export interface " +:+ ft_outputName fhirType
             +:+ (if oneOf (ft_outputName fhirType) genericTypes
                  then genericClause else "") +:+ " {") in *.
  set (b4 := indentBy (append b2 header) 1) in *.
  set (b5 := if ft_resource fhirType then _ else b4) in *.
  assert (emits b (append b2 header)) as H3.
  { eapply emits_trans; [apply emits_newLine|].
    eapply emits_trans; [apply emits_generateJavadoc|]. fold b2.
    apply emits_append. right. unfold header.
    change ("export interface " +:+ ft_outputName fhirType
            +:+ (if oneOf (ft_outputName fhirType) genericTypes
                 then genericClause else "") +:+ " {")
      with (String "e" ("xport interface " +:+ ft_outputName fhirType
            +:+ (if oneOf (ft_outputName fhirType) genericTypes
                 then genericClause else "") +:+ " {")).
    apply prefix_head. discriminate. }
  assert (indentCount b4 = 1%Z) as Hi4.
  { subst b4. cbn [indentBy indentCount]. destruct H3 as [-> _]. rewrite Hb. reflexivity. }
  assert (emits b4 b5) as H45.
  { subst b5. destruct (ft_resource fhirType); [|apply emits_refl].
    eapply emits_trans; [apply emits_newLine|].
    eapply emits_trans; [apply emits_generateJavadoc|].
    apply emits_append. left.
    destruct (continues_generateJavadoc wordWrap (newLine b4)
                (Some ("This is a " +:+ ft_outputName fhirType +:+ " resource")))
      as [Hi _].
    rewrite Hi. cbn [newLine indentCount]. rewrite Hi4. discriminate. }
  assert (indentCount b5 = 1%Z) as Hi5 by (destruct H45 as [-> _]; exact Hi4).
  assert (emits b5 b6) as H56.
  { refine (emits_foldM_at _ _ 1%Z _ b5 b6 Hi5 Hprops). intros b0 property b0' Hb0 H0.
    eapply emits_trans; [apply emits_newLine|].
    eapply emits_writeInterfaceProperty; [|exact H0].
    cbn [newLine indentCount]. rewrite Hb0. discriminate. }
  assert (indentCount b6 = 1%Z) as Hi6 by (destruct H56 as [-> _]; exact Hi5).
  assert (emits b6 (if String.eqb (ft_outputName fhirType) "Reference"
                    then append (generateJavadoc wordWrap (newLine b6) note)
                                "resource?: T;"
                    else b6)) as H67.
  { destruct (String.eqb (ft_outputName fhirType) "Reference"); [|apply emits_refl].
    eapply emits_trans; [apply emits_newLine|].
    eapply emits_trans; [apply emits_generateJavadoc|].
    apply emits_append. left.
    destruct (continues_generateJavadoc wordWrap (newLine b6) note) as [Hi _].
    rewrite Hi. cbn [newLine indentCount]. rewrite Hi6. discriminate. }
  eapply emits_trans; [exact H3|].
  apply emits_block; [|reflexivity]. fold b4.
  exact (emits_trans _ _ _ H45 (emits_trans _ _ _ H56 H67)).
Qed.

Lemma writeInterface_emits valueSets : forall fuel acc id r,
  indentCount acc.2 = 0%Z ->
  writeInterface wordWrap localeCompare fuel valueSets acc id = Done r ->
  emits acc.2 r.2.
Proof.
  induction fuel as [|fuel IH]; intros [store b] id r Hb H; [discriminate H|].
  cbn [writeInterface] in H. cbn [snd] in Hb |- *.
  destruct (store !! id) as [fhirType|]; [|discriminate H].
  destruct (ft_properties fhirType) as [|p ps] eqn:Hps.
  { injection H as <-. apply emits_refl. }
  apply bind_Done in H as (b1 & Hdecl & H).
  pose proof (writeDeclaration_emits _ _ _ _ _ Hb Hdecl) as Hb1.
  eapply emits_trans; [exact Hb1|].
  assert (indentCount b1 = 0%Z) as Hi1 by (destruct Hb1 as [-> _]; exact Hb).
  revert H Hi1.
  generalize (<[id:=withSubTypes fhirType
      (stableSort (fun t1 t2 => localeCompare (outputNameAt store t1)
                                              (outputNameAt store t2))
                  (ft_subTypes fhirType))]> store) as store1.
  generalize (stableSort (fun t1 t2 => localeCompare (outputNameAt store t1)
                                              (outputNameAt store t2))
                  (ft_subTypes fhirType)) as subs.
  clear -IH. intros subs. revert b1.
  induction subs as [|sub subs IHs]; intros b1 store1 H Hi1.
  - injection H as <-. apply emits_refl.
  - apply foldM_Done_cons in H as ([store2 b2] & H1 & H2).
    pose proof (IH (store1, b1) _ _ Hi1 H1) as Hstep. cbn [snd] in Hstep.
    eapply emits_trans; [exact Hstep|]. apply (IHs _ _ H2).
    destruct Hstep as [-> _]. exact Hi1.
Qed.

(** A written unit: one import line per imported name, then nothing or
    declarations that begin with a blank line. *)
Lemma writeInterfaceFile_shape fuel valueSets store id store' file sets :
  writeInterfaceFile wordWrap localeCompare fuel valueSets store id
    = Done (store', Some file) ->
  buildImports fuel valueSets store id (∅, ∅) = Done sets ->
  exists declarations,
    file.2 = map (fun n => Append 0 ("import { " +:+ n +:+ " } from './" +:+ n +:+ "';"))
                 (importedNames sets.1 sets.2)
             ++ declarations /\
    (declarations = [] \/ exists rest, declarations = NewLine :: rest) /\
    Forall notImport declarations.
Proof.
  unfold writeInterfaceFile. intros H Hsets.
  destruct (store !! id) as [fhirType|]; [|discriminate H].
  rewrite Hsets in H.
  assert (forall m,
            (r ← writeInterface wordWrap localeCompare fuel valueSets
                   (store, foldl (fun b n => append b (importLine n))
                                 newFileBuilder (importedNames sets.1 sets.2)) id;
             Done (r.1, Some (m, fb_lines r.2))) = Done (store', Some file) ->
            exists declarations,
              file.2 = map (fun n => Append 0 ("import { " +:+ n +:+ " } from './" +:+ n +:+ "';"))
                           (importedNames sets.1 sets.2)
                       ++ declarations /\
              (declarations = [] \/ exists rest, declarations = NewLine :: rest) /\
              Forall notImport declarations)
    as Hcase.
  { intros m H0. apply bind_Done in H0 as (r & Hr & H0). injection H0 as _ <-.
    cbn [snd].
    pose proof (importLines_foldl (importedNames sets.1 sets.2) newFileBuilder)
      as Himports.
    cbn [newFileBuilder fb_lines indentCount app] in Himports.
    assert (emits (foldl (fun b n => append b (importLine n))
                         newFileBuilder (importedNames sets.1 sets.2)) r.2)
      as [_ (extra & Hextra & Hnone)].
    { refine (writeInterface_emits valueSets fuel (store, _) id r _ Hr).
      exact (importLines_indent (importedNames sets.1 sets.2) newFileBuilder). }
    cbn [snd] in Hextra. exists extra.
    split; [rewrite Hextra, Himports; reflexivity|]. split; [|exact Hnone].
    destruct (writeInterface_opens _ _ _ _ _ _ Hr) as [Hsame|[rest Hrest]].
    - left. rewrite Hsame in Hextra.
      apply (f_equal length) in Hextra. rewrite length_app in Hextra.
      destruct extra; [reflexivity|cbn [length] in Hextra; lia].
    - right. exists rest. rewrite Hrest in Hextra.
      apply app_inv_head in Hextra. symmetry. exact Hextra. }
  cbn [mbind outcome_bind] in H.
  destruct (ft_properties fhirType) as [|p ps];
    [destruct (ft_subTypes fhirType) as [|sub subs]; [discriminate H|]|];
    exact (Hcase _ H).
Qed.

Lemma unit_names valueSets store fuel id sets n :
  buildImports fuel valueSets store id (∅, ∅) = Done sets ->
  n ∈ sets.1 <->
  exists id' fhirType',
    inUnit store id id' /\ store !! id' = Some fhirType' /\
    ft_outputName fhirType' = n.
Proof.
  intros H. split.
  - intros Hn.
    destruct (buildImports_included_only _ _ _ _ _ _ _ H Hn) as [Hempty|Hunit];
      [cbn [fst] in Hempty; set_solver|exact Hunit].
  - intros (id' & fhirType' & Hu & Hl & <-).
    exact (proj2 (buildImports_included _ _ _ _ _ _ H) _ _ Hu Hl).
Qed.

Lemma unit_references valueSets store fuel id sets n :
  buildImports fuel valueSets store id (∅, ∅) = Done sets ->
  n ∈ sets.2 <->
  exists id' fhirType',
    inUnit store id id' /\ store !! id' = Some fhirType' /\
    ((n = "Resource" /\ ft_outputName fhirType' = "Reference") \/
     refersTo valueSets fhirType' n).
Proof.
  intros H. split.
  - intros Hn.
    destruct (buildImports_referenced_from _ _ _ _ _ _ _ H Hn) as [Hempty|Hunit];
      [cbn [snd] in Hempty; set_solver|exact Hunit].
  - intros (id' & fhirType' & Hu & Hl & Hn).
    exact (proj2 (buildImports_complete _ _ _ _ _ _ _ H) _ _ Hu Hl Hn).
Qed.

(** C5, as the code has it. The type named [Reference], when it has a
    property and its declaration is written, is declared with the
    type-parameter clause and, as last line before the closing brace, the
    extra optional field [resource?: T]. A unit imports [Resource] exactly
    when none of its types is itself named [Resource] and one of them is
    named [Reference] or has a resolved field with [Resource] among its
    clean referenced names; the import is then a line of the unit's file.
    Referring to [Reference] is not enough: the clean referenced names of
    a reference type with plain targets hold [Resource] only when it is
    one of the targets. *)
Theorem reference_carrier_emission fuel valueSets store :
  (forall id fhirType b r,
     store !! id = Some fhirType ->
     ft_outputName fhirType = "Reference" ->
     ft_properties fhirType <> [] ->
     writeInterface wordWrap localeCompare fuel valueSets (store, b) id = Done r ->
     exists before body after,
       fb_lines r.2
       = fb_lines b ++ before
         ++ [Append (indentCount b)
               "export interface Reference<T extends Resource = Resource> {"]
         ++ body
         ++ [Append (indentCount b + 1)%Z "resource?: T;";
             Append (indentCount b) "}"]
         ++ after) /\
  (forall id sets,
     buildImports fuel valueSets store id (∅, ∅) = Done sets ->
     ("Resource" ∈ importedNames sets.1 sets.2 <->
      (forall id' fhirType',
         inUnit store id id' -> store !! id' = Some fhirType' ->
         ft_outputName fhirType' <> "Resource") /\
      exists id' fhirType',
        inUnit store id id' /\ store !! id' = Some fhirType' /\
        (ft_outputName fhirType' = "Reference" \/
         refersTo valueSets fhirType' "Resource")) /\
     ("Resource" ∈ importedNames sets.1 sets.2 ->
      forall store' file,
        writeInterfaceFile wordWrap localeCompare fuel valueSets store id
          = Done (store', Some file) ->
        Append 0 "import { Resource } from './Resource';" ∈ file.2)) /\
  (forall targets suffix,
     targets <> [] ->
     Forall (fun t => plainName t = true) targets ->
     cleanReferencedType
       ("Reference<" +:+ String.concat " | " targets +:+ ">" +:+ suffix)
     = "Reference" :: targets /\
     ("Resource"
        ∈ cleanReferencedType
            ("Reference<" +:+ String.concat " | " targets +:+ ">" +:+ suffix)
      <-> "Resource" ∈ targets)).
Proof.
  split; [|split].
  - intros id fhirType b r Hid Hname Hprops H.
    destruct fuel as [|fuel']; [discriminate H|].
    cbn [writeInterface] in H. rewrite Hid in H.
    destruct (ft_properties fhirType) as [|p ps] eqn:Hps; [contradiction|].
    apply bind_Done in H as (b1 & Hdecl & H).
    destruct (writeDeclaration_shape _ _ _ _ _ _ Hdecl)
      as (_ & before & body & Hl & Hbody).
    destruct (Hbody Hname) as [body' ->].
    destruct (writeInterfaces_continues _ _ _ _ _ _ _ H) as [_ [after Hafter]].
    cbn [snd] in Hafter.
    exists before, body', after.
    rewrite Hafter, Hl, Hname. simpl oneOf. cbv iota.
    rewrite <- !app_assoc. reflexivity.
  - intros id sets Hsets. split.
    + rewrite elem_of_importedNames, (unit_references _ _ _ _ _ _ Hsets),
        (unit_names _ _ _ _ _ _ Hsets).
      split.
      * intros [(id' & ft' & Hu & Hl & Hn) Hnot]. split.
        -- intros id2 ft2 Hu2 Hl2 Hname. apply Hnot. eauto.
        -- exists id', ft'. split; [exact Hu|]. split; [exact Hl|].
           destruct Hn as [[_ Hn]|Hn]; auto.
      * intros [Hfree (id' & ft' & Hu & Hl & Hn)]. split.
        -- exists id', ft'. split; [exact Hu|]. split; [exact Hl|].
           destruct Hn as [Hn|Hn]; auto.
        -- intros (id2 & ft2 & Hu2 & Hl2 & Hname). exact (Hfree _ _ Hu2 Hl2 Hname).
    + intros Himp store' file Hfile.
      destruct (writeInterfaceFile_shape _ _ _ _ _ _ _ Hfile Hsets)
        as (declarations & -> & _).
      apply elem_of_app. left.
      apply (list_elem_of_fmap_2
               (fun n => Append 0 ("import { " +:+ n +:+ " } from './" +:+ n +:+ "';"))
               _ "Resource").
      exact Himp.
  - intros targets suffix Hne Hplain.
    pose proof (cleanReferencedType_reference targets suffix Hne Hplain) as Hclean.
    unfold Js.join in Hclean. split; [exact Hclean|]. rewrite Hclean.
    rewrite elem_of_cons. split; [intros [H|H]; [discriminate H|exact H]|auto].
Qed.

(** C6, as the code has it: the import list of a unit holds no name
    declared in the unit (the top-level type or any nested type). The two
    types the generic-carrier rule gives, [T] and [BundleEntry<T>[]], put
    the name [Resource] on the list or nothing, and every imported name
    other than [Resource] is a clean referenced name of a field resolved
    outside that rule. The list is sorted, without repetition, and the
    unit's file consists of one import line per name of the list, in that
    order, followed by nothing or by declarations that begin with a blank
    line and hold no import line. *)
Theorem import_minimality fuel valueSets store id sets :
  buildImports fuel valueSets store id (∅, ∅) = Done sets ->
  let imports := importedNames sets.1 sets.2 in
  (forall id' fhirType',
     inUnit store id id' -> store !! id' = Some fhirType' ->
     ft_outputName fhirType' ∉ imports) /\
  (forall fuel' property fields field,
     (p_name property = "resource" /\
      p_resourceType property ∈ ["BundleEntry"; "OperationOutcome"; "Reference"]) \/
     (p_resourceType property = "Bundle" /\ p_name property = "entry") ->
     getTypeScriptProperties fuel' valueSets property = Done fields ->
     field ∈ fields ->
     (typeName field = "T" /\ cleanReferencedType (typeName field) = ["Resource"]) \/
     (typeName field = "BundleEntry<T>[]" /\
      cleanReferencedType (typeName field) = [])) /\
  (forall n, n ∈ imports ->
     n = "Resource" \/
     exists id' fhirType',
       inUnit store id id' /\ store !! id' = Some fhirType' /\
       contributes valueSets fhirType' n) /\
  StronglySorted String.le imports /\
  NoDup imports /\
  (forall store' file,
     writeInterfaceFile wordWrap localeCompare fuel valueSets store id
       = Done (store', Some file) ->
     exists declarations,
       file.2
       = map (fun n => Append 0 ("import { " +:+ n +:+ " } from './" +:+ n +:+ "';"))
             imports
         ++ declarations /\
       (declarations = [] \/ exists rest, declarations = NewLine :: rest) /\
       Forall notImport declarations).
Proof.
  intros H imports.
  destruct (importedNames_minimal _ _ _ _ _ H) as (Hunit & Hsorted & Hnodup).
  split; [exact Hunit|]. split.
  { intros fuel' property fields field Hpair Hf Hin.
    unfold getTypeScriptProperties in Hf.
    destruct (isGenericResource property) eqn:Hg.
    - injection Hf as <-. apply list_elem_of_singleton in Hin as ->.
      left. split; reflexivity.
    - destruct Hpair as [Hpair|Hpair].
      + apply isGenericResource_spec in Hpair. congruence.
      + apply isBundleEntry_spec in Hpair. rewrite Hpair in Hf.
        injection Hf as <-. apply list_elem_of_singleton in Hin as ->.
        right. split; reflexivity. }
  split.
  { intros n Hn. apply elem_of_importedNames in Hn as [Hn _].
    destruct (buildImports_referenced_only _ _ _ _ _ _ _ H Hn) as [Hempty|Hrest];
      [|exact Hrest].
    cbn [snd] in Hempty. set_solver. }
  split; [exact Hsorted|]. split; [exact Hnodup|].
  intros store' file Hfile.
  exact (writeInterfaceFile_shape _ _ _ _ _ _ _ Hfile H).
Qed.
End Openings.

Lemma import_minimality_witness :
  buildImports 3 ∅ sampleStore 0 (∅, ∅) = Done patientSets /\
  importedNames patientSets.1 patientSets.2 = ["Meta"; "Organization"; "Reference"] /\
  StronglySorted String.le (importedNames patientSets.1 patientSets.2) /\
  NoDup (importedNames patientSets.1 patientSets.2).
Proof.
  assert (buildImports 3 ∅ sampleStore 0 (∅, ∅) = Done patientSets) as E
    by (vm_compute; reflexivity).
  destruct (import_minimality noWrap compareCodeUnits 3 ∅ sampleStore 0 patientSets E)
    as (_ & _ & _ & Hsorted & Hnodup & _).
  split; [exact E|]. split; [vm_compute; reflexivity|]. split; [exact Hsorted|exact Hnodup].
Defined.

(** C6 fails as stated: a field of the generic type [Bundle] whose
    declared type is the type parameter, with max [*], resolves to [T[]];
    its clean referenced name is [T], and the unit's file begins with an
    import of [T]. *)
Lemma type_parameter_sequence_is_imported :
  getTypeScriptProperties 0 ∅ (propertyOf "Bundle" ("link", typed "T" "*"))
  = Done [{| name := "link"; typeName := "T[]" |}] /\
  (sets ← buildImports 2 ∅ (built genericLinkSchema) 0 (∅, ∅);
   Done (importedNames sets.1 sets.2))
  = Done ["T"] /\
  (r ← writeInterfaceFile noWrap compareCodeUnits 2 ∅ (built genericLinkSchema) 0;
   Done r.2)
  = Done (Some ("../../fhirtypes/dist/Bundle.d.ts",
                [Append 0 "import { T } from './T';"; NewLine;
                 Append 0 "export interface Bundle<T extends Resource = Resource> {";
                 NewLine; NewLine; Append 1 "link?: T[];"; Append 0 "}"])).
Proof. repeat split; vm_compute; reflexivity. Qed.

Lemma reference_carrier_emission_witness :
  buildImports 3 ∅ sampleStore 2 (∅, ∅) = Done referenceSets /\
  "Resource" ∈ importedNames referenceSets.1 referenceSets.2 /\
  (exists r before body after,
     writeInterface noWrap compareCodeUnits 3 ∅ (sampleStore, newFileBuilder) 2
       = Done r /\
     fb_lines r.2
     = [] ++ before
       ++ [Append 0 "export interface Reference<T extends Resource = Resource> {"]
       ++ body
       ++ [Append 1 "resource?: T;"; Append 0 "}"]
       ++ after).
Proof.
  destruct (reference_carrier_emission noWrap compareCodeUnits 3 ∅ sampleStore)
    as (Hdeclared & Himports & _).
  assert (buildImports 3 ∅ sampleStore 2 (∅, ∅) = Done referenceSets) as E
    by (vm_compute; reflexivity).
  split; [exact E|]. split.
  - apply (proj1 (Himports _ _ E)). split.
    + intros id' fhirType' Hu Hl Hname. inversion Hu as [|? ft0 sub ? Hid0 Hin _]; subst.
      * rewrite sampleStore_Reference in Hl. injection Hl as <-. discriminate Hname.
      * rewrite sampleStore_Reference in Hid0. injection Hid0 as <-.
        inversion Hin.
    + exists 2%nat, referenceType. split; [constructor|].
      split; [exact sampleStore_Reference|left; reflexivity].
  - assert (exists r,
              writeInterface noWrap compareCodeUnits 3 ∅ (sampleStore, newFileBuilder) 2
              = Done r) as [r Er] by (eexists; vm_compute; reflexivity).
    assert (ft_properties referenceType <> []) as Hprops by discriminate.
    destruct (Hdeclared 2%nat referenceType newFileBuilder r
                sampleStore_Reference eq_refl Hprops Er)
      as (before & body & after & Hlines).
    exists r, before, body, after. split; [exact Er|exact Hlines].
Defined.
